(** * PDF field extraction service: model and verified properties

    Shallow embedding of [src/utils/pdf_utils.py] ([PDFExtractor]) and
    [src/main.py] ([KnowledgeBase], [PDFExtractionService]).

    Conventions of the embedding:
    - a Python [str] is a Rocq [string]; for text that may hold characters
      outside ASCII the [string] is the UTF-8 encoding of the [str];
    - Python [None] in a field value is [None : option string];
    - a [dict] with string keys is a [gmap string _];
    - an exception raised by a library call is a value [inl msg], where
      [msg] is what [str(e)] returns. *)

From Stdlib Require Import ZArith NArith Ascii String List Bool Lia.
From stdpp Require Import gmap strings list fin_maps sorting.

Local Open Scope nat_scope.

(** ** Characters and strings *)

Module Chars.

Definition code (c : ascii) : N := N_of_ascii c.

(** [c] is a 7-bit character: the only ones [str.encode("ASCII", "ignore")]
    keeps. *)
Definition is_ascii (c : ascii) : bool := (code c <? 128)%N.

Definition is_digit (c : ascii) : bool := ((48 <=? code c) && (code c <=? 57))%N.
Definition is_upper (c : ascii) : bool := ((65 <=? code c) && (code c <=? 90))%N.
Definition is_lower (c : ascii) : bool := ((97 <=? code c) && (code c <=? 122))%N.

(** [\w] of the [re] module, on 7-bit characters: letters, digits and the
    underscore. The texts the patterns below are run on contain nothing
    else (see [normalize_text]). *)
Definition is_word (c : ascii) : bool :=
  is_digit c || is_upper c || is_lower c || (code c =? 95)%N.

(** [str.upper] on a 7-bit character. *)
Definition upper (c : ascii) : ascii :=
  if is_lower c then ascii_of_N (code c - 32) else c.

End Chars.

(** ** The fragment of Python's [re] the extractor uses *)

Module Re.

(** Pattern syntax. Only what occurs in the four patterns of
    [extract_fields_from_text_generic]: literal characters, the classes
    [[A-Z]] and [\d], the assertion [\b], concatenation and the greedy
    counted repetition [r{lo,hi}] ([hi = None] when there is no upper
    bound, so [r*] is [Repeat r 0 None]). *)
Inductive regex : Type :=
| Lit (c : ascii)
| Upper
| Digit
| WordBoundary
| Cat (r1 r2 : regex)
| Repeat (r : regex) (lo : nat) (hi : option nat).

Section Matcher.
(** The subject string; positions are indices into it. *)
Variable s : list ascii.

Definition word_at (i : nat) : bool :=
  match s !! i with Some c => Chars.is_word c | None => false end.

(** [\b] holds at [i] when exactly one of the characters before and
    after position [i] is a word character; the outside of the string
    counts as a non-word character. *)
Definition boundary (i : nat) : bool :=
  xorb (match i with 0 => false | S i' => word_at i' end) (word_at i).

Definition one (p : ascii → bool) (i : nat) : list nat :=
  match s !! i with
  | Some c => if p c then [S i] else []
  | None => []
  end.

(** Greedy repetition: [n] bounds the iterations still allowed and [lo]
    counts those still required. One more iteration is tried before
    stopping, so the ends come out in the order the backtracking
    matcher tries them. *)
Fixpoint rep (step : nat → list nat) (n lo : nat) (i : nat) : list nat :=
  match n with
  | 0 => if decide (lo = 0) then [i] else []
  | S n' =>
      flat_map (rep step n' (pred lo)) (step i)
        ++ (if decide (lo = 0) then [i] else [])
  end.

(** [ends r i]: the positions at which a match of [r] that starts at [i]
    can end, in the order in which the backtracking matcher finds them.
    An unbounded repetition is run for at most [length s] iterations:
    the repeated patterns used here consume at least one character per
    iteration, so no match has more. *)
Fixpoint ends (r : regex) (i : nat) : list nat :=
  match r with
  | Lit c => one (fun c' => bool_decide (c' = c)) i
  | Upper => one Chars.is_upper i
  | Digit => one Chars.is_digit i
  | WordBoundary => if boundary i then [i] else []
  | Cat r1 r2 => flat_map (ends r2) (ends r1 i)
  | Repeat r lo hi =>
      rep (ends r) (match hi with Some h => h | None => length s end) lo i
  end.

(** The first match that starts at [i], if any. *)
Definition match_at (r : regex) (i : nat) : option nat := head (ends r i).

(** Scan the start positions [i, i+1, ...] ([fuel] of them). *)
Fixpoint scan (r : regex) (fuel i : nat) : option (nat * nat) :=
  match fuel with
  | 0 => None
  | S fuel' =>
      match match_at r i with
      | Some j => Some (i, j)
      | None => scan r fuel' (S i)
      end
  end.

(** [re.search]: the span of the leftmost match; every start position
    [0 .. length s] is tried. *)
Definition search_span (r : regex) : option (nat * nat) :=
  scan r (S (length s)) 0.

(** [re.findall] for a pattern without groups: the spans of the
    successive non-overlapping matches, each search resuming where the
    previous match ended (one further when that match was empty). *)
Fixpoint findall_spans (r : regex) (fuel pos : nat) : list (nat * nat) :=
  match fuel with
  | 0 => []
  | S fuel' =>
      match scan r (S (length s) - pos) pos with
      | Some (i, j) =>
          (i, j) :: findall_spans r fuel' (if decide (i = j) then S j else j)
      | None => []
      end
  end.

Definition slice (i j : nat) : list ascii := take (j - i) (drop i s).

End Matcher.

(** [m.group(0)] of [re.search(r, s)], or [None]. *)
Definition search (r : regex) (s : string) : option string :=
  let l := list_ascii_of_string s in
  match search_span l r with
  | Some (i, j) => Some (string_of_list_ascii (slice l i j))
  | None => None
  end.

(** [re.findall(r, s)]. *)
Definition findall (r : regex) (s : string) : list string :=
  let l := list_ascii_of_string s in
  map (fun '(i, j) => string_of_list_ascii (slice l i j))
      (findall_spans l r (S (length l)) 0).

(** Pattern builders. *)
Fixpoint cat (rs : list regex) : regex :=
  match rs with
  | [] => Repeat (Lit " ") 0 (Some 0)
  | [r] => r
  | r :: rs' => Cat r (cat rs')
  end.

Definition times (n : nat) (r : regex) : regex := Repeat r n (Some n).

End Re.

Import Re.

(** [\b([A-Z]{3,}(?: [A-Z]{2,}){0,3})\b]. Group 1 encloses everything but
    the two [\b], which consume nothing, so [group(1)] is the whole match. *)
Definition re_nome : regex :=
  cat [ WordBoundary;
        Repeat Upper 3 None;
        Repeat (Cat (Lit " ") (Repeat Upper 2 None)) 0 (Some 3);
        WordBoundary ].

(** [\b\d{4,6}\b] *)
Definition re_numero : regex :=
  cat [ WordBoundary; Repeat Digit 4 (Some 6); WordBoundary ].

(** [\b\d{2}/\d{2}/\d{4}\b] *)
Definition re_data : regex :=
  cat [ WordBoundary; times 2 Digit; Lit "/"; times 2 Digit; Lit "/";
        times 4 Digit; WordBoundary ].

(** [\d{1,3}(?:\.\d{3})*,\d{2}] *)
Definition re_valor : regex :=
  cat [ Repeat Digit 1 (Some 3);
        Repeat (Cat (Lit ".") (times 3 Digit)) 0 None;
        Lit ","; times 2 Digit ].


(** ** Python's [float] and the [.2f] format *)

Module PyFloat.

Local Open Scope Z_scope.

(** A binary64 value: not-a-number, an infinity, or the finite number
    [(-1)^neg * m * 2^e] with [0 <= m]. The representation need not be
    normalised; only the value matters to the formatter. *)
Inductive float : Type :=
| Nan
| Inf (neg : bool)
| Fin (neg : bool) (m e : Z).

(** The quotient [p / (q * 2^e)] as a fraction of integers. *)
Definition scaled (p q e : Z) : Z * Z :=
  if 0 <=? e then (p, q * 2 ^ e) else (p * 2 ^ (- e), q).

(** Round the fraction [a / b] ([0 <= a], [0 < b]) to the nearest integer,
    ties to even. *)
Definition round_half_even (ab : Z * Z) : Z :=
  let '(a, b) := ab in
  let d := a / b in
  let r := a mod b in
  if 2 * r <? b then d
  else if b <? 2 * r then d + 1
  else if Z.even d then d else d + 1.

(** [floor (log2 (p / q))] for [0 < p], [0 < q]. *)
Definition floor_log2 (p q : Z) : Z :=
  let k := Z.log2 p - Z.log2 q in
  let '(a, b) := scaled p q k in
  if b <=? a then k else k - 1.

(** Round the rational [p / q] ([0 <= p], [0 < q]) to binary64, to nearest
    with ties to even: 53 significant bits, least exponent [-1074],
    overflow to infinity from [2^1024]. *)
Definition round_binary64 (neg : bool) (p q : Z) : float :=
  if p =? 0 then Fin neg 0 0
  else
    let e := Z.max (floor_log2 p q - 52) (-1074) in
    let m := round_half_even (scaled p q e) in
    if 1024 <=? Z.log2 m + e then Inf neg else Fin neg m e.

(** The decimal [d * 10^x] as a binary64. *)
Definition of_decimal (neg : bool) (d x : Z) : float :=
  if 0 <=? x then round_binary64 neg (d * 10 ^ x) 1
  else round_binary64 neg d (10 ^ (- x)).

(** *** Parsing: [float(s)] for a [str] *)

(** A [str] is held in UTF-8. Before the number is read, a text that is
    not all 7-bit is rewritten character by character: a Unicode white
    space becomes a blank and a Unicode decimal digit the digit it stands
    for; at any other character above ASCII the text is cut and ends in a
    question mark, which no number contains. *)

Definition continuation (n : N) : bool := ((128 <=? n) && (n <? 192))%N.

(** The code points of a text in UTF-8; [None] stands for a byte that
    begins no well-formed sequence (such a text is the encoding of no
    [str]). *)
Fixpoint code_points (l : list ascii) : list (option N) :=
  match l with
  | [] => []
  | c0 :: l1 =>
      let b0 := Chars.code c0 in
      if (b0 <? 128)%N then Some b0 :: code_points l1
      else
        match l1 with
        | c1 :: l2 =>
            let b1 := Chars.code c1 in
            if ((194 <=? b0) && (b0 <? 224) && continuation b1)%N then
              Some ((b0 - 192) * 64 + (b1 - 128))%N :: code_points l2
            else
              match l2 with
              | c2 :: l3 =>
                  let b2 := Chars.code c2 in
                  let ch3 := ((b0 - 224) * 4096 + (b1 - 128) * 64 + (b2 - 128))%N in
                  if ((224 <=? b0) && (b0 <? 240) && continuation b1
                      && continuation b2 && (2048 <=? ch3)
                      && negb ((55296 <=? ch3) && (ch3 <? 57344)))%N then
                    Some ch3 :: code_points l3
                  else
                    match l3 with
                    | c3 :: l4 =>
                        let b3 := Chars.code c3 in
                        let ch4 := ((b0 - 240) * 262144 + (b1 - 128) * 4096
                                    + (b2 - 128) * 64 + (b3 - 128))%N in
                        if ((240 <=? b0) && (b0 <? 248) && continuation b1
                            && continuation b2 && continuation b3
                            && (65536 <=? ch4) && (ch4 <? 1114112))%N then
                          Some ch4 :: code_points l4
                        else None :: code_points l1
                    | [] => None :: code_points l1
                    end
              | [] => None :: code_points l1
              end
        | [] => [None]
        end
  end.

(** [Py_UNICODE_ISSPACE] above ASCII: U+0085, U+00A0, U+1680,
    U+2000-200A, U+2028, U+2029, U+202F, U+205F, U+3000. *)
Definition is_unicode_space (ch : N) : bool :=
  ((ch =? 133) || (ch =? 160) || (ch =? 5760)
   || (8192 <=? ch) && (ch <=? 8202)
   || (ch =? 8232) || (ch =? 8233) || (ch =? 8239) || (ch =? 8287)
   || (ch =? 12288))%N.

Definition digit_char (d : Z) : ascii := ascii_of_N (Z.to_N (48 + d)).

Section Transform.
(** [Py_UNICODE_TODECIMAL]: the digit a character stands for, when the
    interpreter's Unicode database has it as a decimal digit. *)
Variable to_decimal : N → option Z.

Fixpoint to_ascii (chs : list (option N)) : list ascii :=
  match chs with
  | [] => []
  | Some ch :: chs' =>
      if (ch <? 127)%N then ascii_of_N ch :: to_ascii chs'
      else if is_unicode_space ch then " "%char :: to_ascii chs'
      else
        match to_decimal ch with
        | Some d => digit_char d :: to_ascii chs'
        | None => ["?"%char]
        end
  | None :: _ => ["?"%char]
  end.

(** A text that is all 7-bit is taken as it is. *)
Definition transform (l : list ascii) : list ascii :=
  if forallb Chars.is_ascii l then l else to_ascii (code_points l).

End Transform.

(** [Py_ISSPACE], which strips the rewritten text. *)
Definition is_space (c : ascii) : bool :=
  let n := Chars.code c in ((9 <=? n) && (n <=? 13) || (n =? 32))%N.

Fixpoint lstrip (l : list ascii) : list ascii :=
  match l with
  | c :: l' => if is_space c then lstrip l' else l
  | [] => []
  end.

Definition strip (l : list ascii) : list ascii :=
  rev (lstrip (rev (lstrip l))).

(** Digit-group underscores: allowed only between two digits; they are
    removed before the number is read. *)
Fixpoint underscores (prev : ascii) (l : list ascii) : option (list ascii) :=
  match l with
  | [] => if bool_decide (prev = "_"%char) then None else Some []
  | c :: l' =>
      if bool_decide (c = "_"%char) then
        if Chars.is_digit prev then underscores c l' else None
      else if bool_decide (prev = "_"%char) && negb (Chars.is_digit c) then None
      else cons c <$> underscores c l'
  end.

Definition digit_val (c : ascii) : Z := Z.of_N (Chars.code c) - 48.

(** Read a maximal run of digits: its value continuing [acc], the number
    of digits read, and the rest of the input. *)
Fixpoint digits (acc : Z) (n : Z) (l : list ascii) : Z * Z * list ascii :=
  match l with
  | c :: l' =>
      if Chars.is_digit c then digits (10 * acc + digit_val c) (n + 1) l'
      else (acc, n, l)
  | [] => (acc, n, l)
  end.

Definition sign (l : list ascii) : bool * list ascii :=
  match l with
  | "-"%char :: l' => (true, l')
  | "+"%char :: l' => (false, l')
  | _ => (false, l)
  end.

Definition lower (c : ascii) : ascii :=
  if Chars.is_upper c then ascii_of_N (Chars.code c + 32) else c.

(** An optional exponent part; when [e] is not followed by an exponent
    nothing is consumed. *)
Definition exponent (l : list ascii) : Z * list ascii :=
  match l with
  | c :: l' =>
      if bool_decide (lower c = "e"%char) then
        let '(neg, l1) := sign l' in
        let '(v, n, l2) := digits 0 0 l1 in
        if n =? 0 then (0, l) else ((if neg then - v else v), l2)
      else (0, l)
  | [] => (0, l)
  end.

(** A decimal number, the whole input: an optional sign; digits with an
    optional point among them (before, between or after, at least one
    digit in all); an optional exponent. *)
Definition parse_number (l : list ascii) : option float :=
  let '(neg, l0) := sign l in
  let '(ip, ni, l1) := digits 0 0 l0 in
  let '(d, nf, l2) :=
    match l1 with
    | "."%char :: l1' => digits ip 0 l1'
    | _ => (ip, 0, l1)
    end in
  if ni + nf =? 0 then None
  else
    let '(x, l3) := exponent l2 in
    match l3 with
    | [] => Some (of_decimal neg d (x - nf))
    | _ => None
    end.

(** [sign? (inf | infinity | nan)], in any letter case. *)
Definition parse_inf_nan (l : list ascii) : option float :=
  let '(neg, l0) := sign l in
  let w := string_of_list_ascii (map lower l0) in
  if bool_decide (w = "inf") || bool_decide (w = "infinity") then Some (Inf neg)
  else if bool_decide (w = "nan") then Some Nan
  else None.

(** [float(s)] under the digit table [to_decimal]; [None] stands for
    [ValueError]. *)
Definition of_string (to_decimal : N → option Z) (s : string) : option float :=
  match underscores "000"%char (transform to_decimal (list_ascii_of_string s)) with
  | None => None
  | Some l =>
      let l' := strip l in
      match parse_number l' with
      | Some x => Some x
      | None => parse_inf_nan l'
      end
  end.

(** *** Formatting: [f"{x:.2f}"] *)

(** The decimal digits of [n], most significant first ([fuel] bounds
    their number). *)
Fixpoint decimal_digits (fuel : nat) (n : Z) (acc : list ascii) : list ascii :=
  match fuel with
  | O => acc
  | S fuel' =>
      let acc' := digit_char (n mod 10) :: acc in
      if n <? 10 then acc' else decimal_digits fuel' (n / 10) acc'
  end.

(** [str(n)] for an integer [0 <= n]. *)
Definition decimal (n : Z) : string :=
  string_of_list_ascii (decimal_digits (S (Z.to_nat (Z.log2 n))) n []).

Definition two_digits (n : Z) : string :=
  if n <? 10 then "0" +:+ decimal n else decimal n.

(** The exact value is rounded to hundredths, ties to even; the sign is
    kept even when the digits are all zero. *)
Definition format_2f (x : float) : string :=
  match x with
  | Nan => "nan"
  | Inf neg => if neg then "-inf" else "inf"
  | Fin neg m e =>
      let n := round_half_even (scaled (m * 100) 1 (- e)) in
      (if neg then "-" else "") +:+ decimal (n / 100) +:+ "." +:+ two_digits (n mod 100)
  end.

End PyFloat.

(** ** Library functions the code calls *)

(** What [str(e)] returns for an exception raised by a library call. *)
Definition message := string.

(** Standard-library functions whose tables are not part of the repository:
    [unicodedata.normalize("NFKD", _)], [hashlib.md5(_).hexdigest()],
    [base64.b64decode], which raises on malformed input, and the decimal
    digits of the interpreter's Unicode database, which [float] reads. *)
Class Stdlib := {
  nfkd : string → string;
  md5_hexdigest : list Byte.byte → string;
  b64decode : string → message + list Byte.byte;
  to_decimal : N → option Z;
}.

(** The PDF and OCR libraries: [fitz.open(stream=_, filetype="pdf")] with
    the iteration over its pages, [page.get_text("text")],
    [pdf2image.convert_from_bytes(_, dpi=_)] and
    [pytesseract.image_to_string(_, lang=_)]. Each may raise. *)
Class Backend := {
  page : Type;
  image : Type;
  fitz_open : list Byte.byte → message + list page;
  get_text : page → message + string;
  convert_from_bytes : list Byte.byte → nat → message + list image;
  image_to_string : image → string → message + string;
}.

(** ** [PDFExtractor]: text normalisation and money *)

Fixpoint string_map (f : ascii → ascii) (s : string) : string :=
  match s with
  | EmptyString => EmptyString
  | String c s' => String (f c) (string_map f s')
  end.

Fixpoint string_filter (p : ascii → bool) (s : string) : string :=
  match s with
  | EmptyString => EmptyString
  | String c s' => if p c then String c (string_filter p s') else string_filter p s'
  end.

(** [s.replace(old, new)] for a one-character [old]. *)
Fixpoint replace (old : ascii) (new : string) (s : string) : string :=
  match s with
  | EmptyString => EmptyString
  | String c s' =>
      if bool_decide (c = old) then new +:+ replace old new s'
      else String c (replace old new s')
  end.

(** [needle in hay] *)
Fixpoint contains (needle hay : string) : bool :=
  String.prefix needle hay
  || match hay with
     | EmptyString => false
     | String _ hay' => contains needle hay'
     end.

(** [text.encode("ASCII", "ignore").decode("utf-8")]: every character
    outside ASCII is dropped (in UTF-8 all of its bytes are above 127). *)
Definition encode_ascii_ignore (text : string) : string :=
  string_filter Chars.is_ascii text.

Definition normalize_text `{Stdlib} (text : string) : string :=
  let text := nfkd text in
  let text := encode_ascii_ignore text in
  string_map Chars.upper text.

Definition normalize_money `{Stdlib} (value : string) : option string :=
  if bool_decide (value = "") then None
  else
    let value := replace "," "." (replace "." "" value) in
    match PyFloat.of_string to_decimal value with
    | Some x => Some (PyFloat.format_2f x)
    | None => Some value
    end.

(** ** [PDFExtractor.extract_fields_from_text_generic] *)

(** A field mapping: field name to extracted string or [None]. *)
Abbreviation fields := (gmap string (option string)).

Section Fields.
Context `{Stdlib}.
(** The values of a schema are free-form descriptions; only its keys are
    ever looked at. *)
Context {descr : Type}.

Definition extract_fields_from_text_generic
    (text : string) (schema : gmap string descr) : fields :=
  let t := normalize_text text in
  let fields : fields := ∅ in
  if bool_decide (is_Some (schema !! "numero_oab")) then
    let nome := Re.search re_nome t in
    let numero := Re.search re_numero t in
    let fields := <["nome" := nome]> fields in
    let fields := <["numero_oab" := numero]> fields in
    fields
  else if bool_decide (is_Some (schema !! "data_referencia")) then
    let data := Re.search re_data t in
    let valores := Re.findall re_valor t in
    let fields := <["data_referencia" := data]> fields in
    let fields :=
      <["saldo_vencido" :=
          if bool_decide (0 < length valores)
          then valores !! 0 ≫= normalize_money else None]> fields in
    let fields :=
      <["saldo_a_vencer" :=
          if bool_decide (1 < length valores)
          then valores !! 1 ≫= normalize_money else None]> fields in
    let fields :=
      <["total" :=
          if bool_decide (valores ≠ [])
          then last valores ≫= normalize_money else None]> fields in
    fields
  else fields.

(** [d.setdefault(k, v)], as an update of [d]. *)
Definition setdefault {V} (k : string) (v : V) (d : gmap string V) : gmap string V :=
  match d !! k with
  | Some _ => d
  | None => <[k := v]> d
  end.

(** [for field in extraction_schema.keys(): fields.setdefault(field, None)] *)
Definition fill_missing (fs : fields) (schema : gmap string descr) : fields :=
  foldl (fun fs field => setdefault field None fs) fs (map fst (map_to_list schema)).

End Fields.

(** ** The world the service runs in *)

Section Service.
Context `{Stdlib} `{Backend}.
Context {descr : Type}.

(** A call to the PDF or OCR library, recorded in the order made. *)
Inductive call : Type :=
| Open (pdf_bytes : list Byte.byte)
| GetText (p : page)
| Rasterize (pdf_bytes : list Byte.byte) (dpi : nat)
| Ocr (img : image) (lang : string).

(** The disk cache (fingerprint to text), the knowledge-base file
    ([None] while it does not exist) and the library calls made so far. *)
Record world : Type := World {
  cache : gmap string string;
  knowledge_file : option (gmap string (list fields));
  calls : list call;
}.

(** Computations that read and update the world and may raise an [E]. *)
Definition M (E A : Type) : Type := world → (E + A) * world.

Definition ret {E A} (a : A) : M E A := fun w => (inr a, w).
Definition raise {E A} (e : E) : M E A := fun w => (inl e, w).
Definition bind {E A B} (m : M E A) (k : A → M E B) : M E B :=
  fun w => match m w with
           | (inr a, w') => k a w'
           | (inl e, w') => (inl e, w')
           end.
(** [try: m  except Exception as e: h e] *)
Definition try_except {E E' A} (m : M E A) (h : E → M E' A) : M E' A :=
  fun w => match m w with
           | (inr a, w') => (inr a, w')
           | (inl e, w') => h e w'
           end.
(** Run [m], re-raising what it raises as [f e]. *)
Definition reraise {E E' A} (f : E → E') (m : M E A) : M E' A :=
  try_except m (fun e => raise (f e)).

#[local] Instance M_ret {E} : MRet (M E) := fun _ a => ret a.
#[local] Instance M_bind {E} : MBind (M E) := fun _ _ k m => bind m k.

(** A library call: its outcome, and the record of it. *)
Definition invoke {A} (c : call) (r : message + A) : M message A :=
  fun w => (r, World (cache w) (knowledge_file w) (calls w ++ [c])).

Definition cache_get {E} (key : string) : M E (option string) :=
  fun w => (inr (cache w !! key), w).
Definition cache_set {E} (key text : string) : M E unit :=
  fun w => (inr tt, World (<[key := text]> (cache w)) (knowledge_file w) (calls w)).

(** *** [PDFExtractor.extract_text_from_pdf_bytes] *)

(** [not text.strip()]: the text consists of white space only. The white
    space of [str.strip] is U+0009-000D, U+001C-0020, U+0085, U+00A0,
    U+1680, U+2000-200A, U+2028, U+2029, U+202F, U+205F and U+3000, here
    in UTF-8. *)
Fixpoint blank (l : list ascii) : bool :=
  match l with
  | [] => true
  | c :: l1 =>
      let n := Chars.code c in
      if ((9 <=? n) && (n <=? 13) || (28 <=? n) && (n <=? 32))%N then blank l1
      else
        match l1 with
        | c2 :: l2 =>
            let n2 := Chars.code c2 in
            if (n =? 194)%N then ((n2 =? 133) || (n2 =? 160))%N && blank l2
            else
              match l2 with
              | c3 :: l3 =>
                  let n3 := Chars.code c3 in
                  (((n =? 225) && (n2 =? 154) && (n3 =? 128))
                   || ((n =? 226) && (n2 =? 128)
                       && ((128 <=? n3) && (n3 <=? 138)
                           || (n3 =? 168) || (n3 =? 169) || (n3 =? 175)))
                   || ((n =? 226) && (n2 =? 129) && (n3 =? 159))
                   || ((n =? 227) && (n2 =? 128) && (n3 =? 128)))%N
                  && blank l3
              | [] => false
              end
        | [] => false
        end
  end.

Definition strip_is_empty (text : string) : bool :=
  blank (list_ascii_of_string text).

(** [for page in doc: text += page.get_text("text")] *)
Fixpoint read_pages (doc : list page) (text : string) : M message string :=
  match doc with
  | [] => ret text
  | p :: doc' =>
      t ← invoke (GetText p) (get_text p);
      read_pages doc' (text +:+ t)
  end.

(** [for img in images: text += pytesseract.image_to_string(img, lang="por+eng")] *)
Fixpoint ocr_pages (images : list image) (text : string) : M message string :=
  match images with
  | [] => ret text
  | img :: images' =>
      t ← invoke (Ocr img "por+eng") (image_to_string img "por+eng");
      ocr_pages images' (text +:+ t)
  end.

(** The body of the [try] block, starting from [text = ""]. *)
Definition extraction (pdf_bytes : list Byte.byte) : M message string :=
  let text := "" in
  doc ← invoke (Open pdf_bytes) (fitz_open pdf_bytes);
  text ← read_pages doc text;
  if strip_is_empty text then
    images ← invoke (Rasterize pdf_bytes 200) (convert_from_bytes pdf_bytes 200);
    ocr_pages images text
  else ret text.

Definition extract_text_from_pdf_bytes (pdf_bytes : list Byte.byte) : M message string :=
  let key := md5_hexdigest pdf_bytes in
  hit ← cache_get key;
  match hit with
  | Some text => ret text
  | None =>
      text ← try_except (extraction pdf_bytes)
               (fun e => ret ("__ERROR__ " +:+ e));
      cache_set key text;;
      ret text
  end.

(** *** [KnowledgeBase] *)

Definition kb_load {E} : M E (gmap string (list fields)) :=
  fun w => match knowledge_file w with
           | Some data => (inr data, w)
           | None => (inr ∅, w)
           end.

Definition kb_save {E} (data : gmap string (list fields)) : M E unit :=
  fun w => (inr tt, World (cache w) (Some data) (calls w)).

(** *** [PDFExtractionService.process] *)

Inductive failure : Type :=
| HTTPException (status_code : nat) (detail : string)
| Raised (e : message).

Record response : Type := Response {
  label : string;
  extracted_text : string;
  extracted_fields : fields;
}.

(** [knowledge.setdefault(label, []).append(fields)] *)
Definition append_entry (label : string) (fs : fields)
    (knowledge : gmap string (list fields)) : gmap string (list fields) :=
  <[label := default [] (knowledge !! label) ++ [fs]]> knowledge.

Definition process (label : string) (extraction_schema : gmap string descr)
    (pdf_b64 : string) : M failure response :=
  pdf_bytes ← (fun w => (match b64decode pdf_b64 with
                         | inl e => inl (Raised e)
                         | inr b => inr b
                         end, w));
  if bool_decide (pdf_bytes = []) then
    raise (HTTPException 400 "PDF inválido ou vazio")
  else
    text ← reraise Raised (extract_text_from_pdf_bytes pdf_bytes);
    if contains "__ERROR__" text then
      raise (HTTPException 400 ("Erro na extração de texto: " +:+ text))
    else
      let fields := extract_fields_from_text_generic text extraction_schema in
      let fields := fill_missing fields extraction_schema in
      knowledge ← kb_load;
      let knowledge := append_entry label fields knowledge in
      kb_save knowledge;;
      ret (Response label text fields).

End Service.

(** ** Instances for running the model on concrete inputs *)

(** The decimal digits of Unicode 14.0, the database of CPython 3.11: 66
    runs of ten characters, each given by its zero. *)
Definition decimal_zeros : list N :=
  [ 48; 1632; 1776; 1984; 2406; 2534; 2662; 2790; 2918; 3046; 3174; 3302;
    3430; 3558; 3664; 3792; 3872; 4160; 4240; 6112; 6160; 6470; 6608; 6784;
    6800; 6992; 7088; 7232; 7248; 42528; 43216; 43264; 43472; 43504; 43600;
    44016; 65296; 66720; 68912; 69734; 69872; 69942; 70096; 70384; 70736;
    70864; 71248; 71360; 71472; 71904; 72016; 72784; 73040; 73120; 92768;
    92864; 93008; 120782; 120792; 120802; 120812; 120822; 123200; 123632;
    125264; 130032 ]%N.

Definition unicode_decimal (ch : N) : option Z :=
  match find (fun z => (z <=? ch) && (ch <? z + 10))%N decimal_zeros with
  | Some z => Some (Z.of_N (ch - z))
  | None => None
  end.

(** On ASCII text NFKD changes nothing; the digest and the decoder are
    injective stand-ins (the bytes in hexadecimal, the bytes of the
    string). Used only to evaluate the model at concrete inputs. *)
Definition demo_stdlib : Stdlib := {|
  nfkd s := s;
  md5_hexdigest b := string_of_list_ascii (map ascii_of_byte b);
  b64decode s := inr (list_byte_of_string s);
  to_decimal := unicode_decimal;
|}.

(** A document is the list of its pages, one byte each. The page ["!"]
    cannot be read; the pages [" "] and ["~"] have a blank as embedded
    text, and OCR fails on the image of ["~"] and reads ["OCR"] on that of
    [" "]; any other page has its own character as text. A document that
    starts with ["#"] cannot be opened. Rasterising yields the pages as
    images. *)
Definition demo_backend : Backend := {|
  page := Byte.byte;
  image := Byte.byte;
  fitz_open b :=
    match b with
    | b0 :: _ =>
        if Byte.eqb b0 Byte.x23 then inl "cannot open broken document" else inr b
    | [] => inr b
    end;
  get_text p :=
    if Byte.eqb p Byte.x21 then inl "page unreadable"
    else if Byte.eqb p Byte.x20 || Byte.eqb p Byte.x7e then inr " "
    else inr (String (ascii_of_byte p) "");
  convert_from_bytes b dpi := inr b;
  image_to_string img lang :=
    if Byte.eqb img Byte.x20 then inr "OCR"
    else if Byte.eqb img Byte.x7e then inl "tesseract failed"
    else inr (String (ascii_of_byte img) "");
|}.

(** A world with an empty cache, no knowledge-base file and no call made. *)
Definition fresh `{Backend} : world := World ∅ None [].

(** ** Vocabulary of the statements *)

Definition identity_keys : gset string := {[ "nome"; "numero_oab" ]}.
Definition ledger_keys : gset string :=
  {[ "data_referencia"; "saldo_vencido"; "saldo_a_vencer"; "total" ]}.

(** The keys a schema makes the extractor write. *)
Definition rule_keys {descr} (schema : gmap string descr) : gset string :=
  if bool_decide ("numero_oab" ∈ dom schema) then identity_keys
  else if bool_decide ("data_referencia" ∈ dom schema) then ledger_keys
  else ∅.

(** What [normalize_money] hands to [float]: grouping dots removed, then
    commas turned into points. *)
Definition point_notation (value : string) : string :=
  replace "," "." (replace "." "" value).

(** The schemas the client of the service sends ([test_extract.py]). *)
Definition oab_schema : gmap string string :=
  {[ "nome" := "Nome do advogado"; "numero_oab" := "Número OAB" ]}.

Definition tela_schema : gmap string string :=
  {[ "data_referencia" := "Data de referência das parcelas";
     "saldo_vencido" := "Valor vencido";
     "saldo_a_vencer" := "Valor a vencer";
     "total" := "Valor total" ]}.

Section ServiceVocabulary.
Context `{Stdlib} `{Backend}.

(** The world after the library calls [cs] have been recorded. *)
Definition logged (w : world) (cs : list call) : world :=
  World (cache w) (knowledge_file w) (calls w ++ cs).

(** The library calls made between the worlds [w] and [w']. *)
Definition calls_since (w w' : world) : list call :=
  drop (length (calls w)) (calls w').

Definition is_ocr_call (c : call) : bool :=
  match c with
  | Rasterize _ _ | Ocr _ _ => true
  | _ => false
  end.

(** Concatenation of per-page texts, in page order. *)
Definition join (ts : list string) : string := foldr String.append "" ts.

(** Every page of [doc] yields its text: [ts], page by page. *)
Definition page_texts (doc : list page) (ts : list string) : Prop :=
  Forall2 (fun p t => get_text p = inr t) doc ts.

(** Every image is recognised: [ts], image by image. *)
Definition ocr_texts (images : list image) (ts : list string) : Prop :=
  Forall2 (fun img t => image_to_string img "por+eng" = inr t) images ts.

(** The ways parsing, rasterisation or OCR of [pdf_bytes] can fail with
    message [e]: the document does not open; a page does not yield its
    text after the pages before it did; the pages yield only white space
    and rasterisation fails; or an image is not recognised after the
    images before it were. *)
Inductive engine_fails (pdf_bytes : list Byte.byte) (e : message) : Prop :=
| fails_open :
    fitz_open pdf_bytes = inl e →
    engine_fails pdf_bytes e
| fails_page doc1 p doc2 ts :
    fitz_open pdf_bytes = inr (doc1 ++ p :: doc2) →
    page_texts doc1 ts →
    get_text p = inl e →
    engine_fails pdf_bytes e
| fails_rasterize doc ts :
    fitz_open pdf_bytes = inr doc →
    page_texts doc ts →
    strip_is_empty (join ts) = true →
    convert_from_bytes pdf_bytes 200 = inl e →
    engine_fails pdf_bytes e
| fails_ocr doc ts images1 img images2 os :
    fitz_open pdf_bytes = inr doc →
    page_texts doc ts →
    strip_is_empty (join ts) = true →
    convert_from_bytes pdf_bytes 200 = inr (images1 ++ img :: images2) →
    ocr_texts images1 os →
    image_to_string img "por+eng" = inl e →
    engine_fails pdf_bytes e.

(** What the text of a cache miss is, given the outcome of the [try]
    block. *)
Definition text_of_outcome (r : message + string) : string :=
  match r with
  | inr text => text
  | inl e => "__ERROR__ " +:+ e
  end.

(** A request to the service: a direct text extraction, or [process]. *)
Inductive request {descr : Type} : Type :=
| ExtractText (pdf_bytes : list Byte.byte)
| Process (label : string) (schema : gmap string descr) (pdf_b64 : string).

Definition serve {descr} (r : request (descr:=descr)) (w : world) : world :=
  match r with
  | ExtractText pdf_bytes => snd (extract_text_from_pdf_bytes pdf_bytes w)
  | Process label schema pdf_b64 => snd (process label schema pdf_b64 w)
  end.

(** The world after the requests [rs], served one after the other. *)
Definition serve_all {descr} (rs : list (request (descr:=descr))) (w : world) : world :=
  foldl (fun w r => serve r w) w rs.

(** The knowledge base as [load] returns it. *)
Definition knowledge (w : world) : gmap string (list fields) :=
  default ∅ (knowledge_file w).

End ServiceVocabulary.

(** The name rule in the words of the specification: a run of three or
    more tokens, each of two or more uppercase letters, separated by single
    spaces. *)
Fixpoint tokens_from (cur : list ascii) (l : list ascii) : list (list ascii) :=
  match l with
  | [] => [rev cur]
  | c :: l' =>
      if bool_decide (c = " "%char) then rev cur :: tokens_from [] l'
      else tokens_from (c :: cur) l'
  end.

Definition tokens (w : string) : list (list ascii) :=
  tokens_from [] (list_ascii_of_string w).

Definition uppercase_token (least : nat) (tok : list ascii) : bool :=
  bool_decide (least ≤ length tok) && forallb Chars.is_upper tok.

Definition spec_name_run (w : string) : bool :=
  bool_decide (3 ≤ length (tokens w)) && forallb (uppercase_token 2) (tokens w).

(** ** The endpoint and the client *)

Section Endpoint.
Context `{Stdlib} `{Backend} {descr : Type}.
(** [str(e)] for an [HTTPException] with the given status code and detail;
    it is the web framework's. *)
Variable http_exception_str : nat → string → string.

(** [ExtractionRequest] *)
Record ExtractionRequest : Type := {
  req_label : string;
  req_extraction_schema : gmap string descr;
  req_pdf : string;
}.

(** [str(e)] *)
Definition failure_str (e : failure) : string :=
  match e with
  | HTTPException status_code detail => http_exception_str status_code detail
  | Raised msg => msg
  end.

(** [extract_info]: the handler of [POST /extract]. *)
Definition extract_info (req : ExtractionRequest) : M failure response :=
  try_except
    (process (req_label req) (req_extraction_schema req) (req_pdf req))
    (fun e => raise (HTTPException 400 ("Erro na extração: " +:+ failure_str e))).

End Endpoint.

(** [PDFExtractorClient._detect_schema], with the two schemas of
    [self.schemas]. *)
Definition detect_schema (filename : string) : gmap string string :=
  if String.prefix "oab" filename then oab_schema else tela_schema.

(** The number of field mappings a knowledge base holds, over all labels. *)
Definition entries (kb : gmap string (list fields)) : nat :=
  map_fold (fun _ l n => length l + n) 0 kb.

(** ** Vocabulary for money values *)

(** The number written by the digits of a string; characters that are not
    digits (the grouping dots) are skipped. *)
Definition digits_value (s : string) : Z :=
  fold_left (fun acc c => if Chars.is_digit c
                          then (10 * acc + PyFloat.digit_val c)%Z else acc)
            (list_ascii_of_string s) 0%Z.

(** A string of digits and grouping dots, with at least one digit: the
    integer part of a value in the Brazilian format. *)
Definition grouped_digits (s : string) : Prop :=
  (∀ c, c ∈ list_ascii_of_string s → Chars.is_digit c = true ∨ c = "."%char)
  ∧ ∃ c, c ∈ list_ascii_of_string s ∧ Chars.is_digit c = true.

(** ** What the patterns match *)

Module ReSpec.
Section Semantics.
(** The subject string. *)
Variable s : list ascii.

(** The character at position [i] exists and is in the class [p]. *)
Definition class_at (p : ascii → bool) (i : nat) : Prop :=
  ∃ c, s !! i = Some c ∧ p c = true.

(** Every position from [i] up to [k] (excluded) holds a character of the
    class [p]. *)
Definition run (p : ascii → bool) (i k : nat) : Prop :=
  ∀ q, i ≤ q < k → class_at p q.

(** [m] steps of the relation [R] lead from [i] to [k]. *)
Fixpoint power (R : nat → nat → Prop) (m : nat) (i k : nat) : Prop :=
  match m with
  | 0 => i = k
  | S m' => ∃ j, R i j ∧ power R m' j k
  end.

Definition within (hi : option nat) (m : nat) : Prop :=
  match hi with
  | Some h => m ≤ h
  | None => True
  end.

(** [matches r i k]: the substring from [i] to [k] (excluded) is in the
    language of [r], the assertions being read in the whole of [s]. This is
    the textbook meaning of a pattern; it knows nothing of the order in
    which a matcher explores the alternatives. *)
Fixpoint matches (r : regex) (i k : nat) : Prop :=
  match r with
  | Lit c => class_at (fun x => bool_decide (x = c)) i ∧ k = S i
  | Upper => class_at Chars.is_upper i ∧ k = S i
  | Digit => class_at Chars.is_digit i ∧ k = S i
  | WordBoundary => boundary s i = true ∧ k = i
  | Cat r1 r2 => ∃ j, matches r1 i j ∧ matches r2 j k
  | Repeat r lo hi => ∃ m, lo ≤ m ∧ within hi m ∧ power (matches r) m i k
  end.

(** The least number of characters a match of [r] spans. *)
Fixpoint min_len (r : regex) : nat :=
  match r with
  | Lit _ | Upper | Digit => 1
  | WordBoundary => 0
  | Cat r1 r2 => min_len r1 + min_len r2
  | Repeat r lo _ => lo * min_len r
  end.

(** Every unbounded repetition repeats a pattern that spans at least one
    character. *)
Fixpoint productive (r : regex) : Prop :=
  match r with
  | Cat r1 r2 => productive r1 ∧ productive r2
  | Repeat r _ None => productive r ∧ 0 < min_len r
  | Repeat r _ (Some _) => productive r
  | _ => True
  end.

(** A standalone number: [n] digits from position [a], four to six of
    them, with a word boundary before and after. *)
Definition number_at (a n : nat) : Prop :=
  boundary s a = true ∧ 4 ≤ n ≤ 6 ∧ run Chars.is_digit a (a + n)
  ∧ boundary s (a + n) = true.

(** A date [dd/dd/dddd] at position [a], with a word boundary before and
    after. *)
Definition date_at (a : nat) : Prop :=
  boundary s a = true
  ∧ run Chars.is_digit a (a + 2) ∧ s !! (a + 2) = Some "/"%char
  ∧ run Chars.is_digit (a + 3) (a + 5) ∧ s !! (a + 5) = Some "/"%char
  ∧ run Chars.is_digit (a + 6) (a + 10)
  ∧ boundary s (a + 10) = true.

End Semantics.

(** A value in the Brazilian format, as the currency pattern reads it: one
    to three digits, any number of groups of a dot and three digits, a
    comma and two digits. *)
Definition group_of_three (g : list ascii) : Prop :=
  ∃ x y z, g = ["."%char; x; y; z]
           ∧ Chars.is_digit x = true ∧ Chars.is_digit y = true
           ∧ Chars.is_digit z = true.

Definition valor_shape (w : list ascii) : Prop :=
  ∃ lead groups a b,
    w = lead ++ concat groups ++ [","%char; a; b]
    ∧ 1 ≤ length lead ≤ 3 ∧ Forall (fun c => Chars.is_digit c = true) lead
    ∧ Forall group_of_three groups
    ∧ Chars.is_digit a = true ∧ Chars.is_digit b = true.

(** A name as the name pattern reads it: a token of three or more
    uppercase letters, then at most three further tokens of two or more
    uppercase letters, each after one space. *)
Definition upper_token (least : nat) (tok : list ascii) : Prop :=
  least ≤ length tok ∧ Forall (fun c => Chars.is_upper c = true) tok.

Definition name_shape (w : list ascii) : Prop :=
  ∃ tok0 toks,
    w = tok0 ++ concat (map (cons " "%char) toks)
    ∧ upper_token 3 tok0 ∧ length toks ≤ 3 ∧ Forall (upper_token 2) toks.

End ReSpec.

(** ** Occurrences of names and values in a text *)

(** A name occupies the positions from [a] to [k] (excluded): it has the
    shape of a name and a word boundary on each side. *)
Definition name_at (s : list ascii) (a k : nat) : Prop :=
  boundary s a = true ∧ boundary s k = true ∧ a ≤ k ≤ length s
  ∧ ReSpec.name_shape (slice s a k).

(** A value in the Brazilian format occupies the positions from [a] to [k]
    (excluded). No boundary is asked for. *)
Definition valor_at (s : list ascii) (a k : nat) : Prop :=
  a ≤ k ≤ length s ∧ ReSpec.valor_shape (slice s a k).

(** [successive P pos spans]: reading from position [pos], [spans] lists
    the occurrences of [P] met one after the other, each being the leftmost
    one that starts at or after the end of the one before, until no
    occurrence is left. *)
Inductive successive (P : nat → nat → Prop) : nat → list (nat * nat) → Prop :=
| successive_end pos :
    (∀ a k, pos ≤ a → ¬ P a k) →
    successive P pos []
| successive_next pos a k spans :
    pos ≤ a → a < k → P a k →
    (∀ a' k', pos ≤ a' < a → ¬ P a' k') →
    successive P k spans →
    successive P pos ((a, k) :: spans).

(** A stand-in for the standard library whose digest keeps the first byte
    only, to run the model on two documents with one digest. *)
Definition first_byte_stdlib : Stdlib := {|
  nfkd s := s;
  md5_hexdigest b := string_of_list_ascii (map ascii_of_byte (take 1 b));
  b64decode s := inr (list_byte_of_string s);
  to_decimal := unicode_decimal;
|}.

(* ---- definitions end ---- *)

(** ** Properties of the field extractor *)

Section FieldsFacts.
Context `{Stdlib} {descr : Type}.
Implicit Types (schema : gmap string descr) (text : string) (fs : fields).

Lemma in_schema schema k :
  bool_decide (is_Some (schema !! k)) = bool_decide (k ∈ dom schema).
Proof. apply bool_decide_ext. by rewrite elem_of_dom. Qed.

Lemma setdefault_lookup {V} k (v : V) (d : gmap string V) k' :
  setdefault k v d !! k' =
    match d !! k' with
    | Some x => Some x
    | None => if bool_decide (k' = k) then Some v else None
    end.
Proof.
  unfold setdefault. destruct (d !! k) as [x|] eqn:Hk.
  - destruct (d !! k') eqn:Hk'; [done|].
    case_bool_decide; [congruence | done].
  - destruct (decide (k' = k)) as [->|Hne].
    + by rewrite lookup_insert_eq, Hk, bool_decide_eq_true_2.
    + rewrite lookup_insert_ne by done.
      destruct (d !! k'); [done|]. by rewrite bool_decide_eq_false_2.
Qed.

Lemma foldl_setdefault_lookup fs (ks : list string) k :
  foldl (fun fs field => setdefault field None fs) fs ks !! k =
    match fs !! k with
    | Some v => Some v
    | None => if bool_decide (k ∈ ks) then Some None else None
    end.
Proof.
  revert fs. induction ks as [|k0 ks IH]; intros fs; cbn [foldl].
  - destruct (fs !! k); [done|]. rewrite bool_decide_eq_false_2; [done|].
    apply not_elem_of_nil.
  - rewrite IH, setdefault_lookup. destruct (fs !! k); [done|].
    destruct (decide (k = k0)) as [->|Hne].
    + rewrite !bool_decide_eq_true_2; [done | apply elem_of_cons; by left | done].
    + rewrite (bool_decide_eq_false_2 (k = k0)) by done.
      apply (f_equal (fun b : bool => if b then Some None else None)).
      apply bool_decide_ext. set_solver.
Qed.

Lemma fill_missing_lookup fs schema k :
  fill_missing fs schema !! k =
    match fs !! k with
    | Some v => Some v
    | None => if bool_decide (k ∈ dom schema) then Some None else None
    end.
Proof.
  unfold fill_missing. rewrite foldl_setdefault_lookup.
  destruct (fs !! k); [done|].
  erewrite bool_decide_ext; [done|].
  rewrite elem_of_dom. unfold is_Some.
  change (map fst (map_to_list schema)) with (fst <$> map_to_list schema).
  rewrite list_elem_of_fmap. split.
  - intros [[k' v] [-> Hin]]. exists v. by apply elem_of_map_to_list.
  - intros [v Hv]. exists (k, v). split; [done|]. by apply elem_of_map_to_list.
Qed.

Lemma fill_missing_dom fs schema :
  dom (fill_missing fs schema) = dom fs ∪ dom schema.
Proof.
  apply set_eq. intros k. rewrite elem_of_union, !elem_of_dom.
  rewrite fill_missing_lookup. unfold is_Some.
  destruct (fs !! k) as [v|]; [naive_solver|].
  case_bool_decide as Hk; rewrite elem_of_dom in Hk; unfold is_Some in Hk;
    naive_solver.
Qed.

Lemma extract_fields_dom text schema :
  dom (extract_fields_from_text_generic text schema) = rule_keys schema.
Proof.
  unfold extract_fields_from_text_generic, rule_keys. rewrite !in_schema.
  repeat case_bool_decide; rewrite ?dom_insert_L, ?dom_empty_L;
    unfold identity_keys, ledger_keys; set_solver.
Qed.

End FieldsFacts.

Section FieldsTheorems.
Context `{Stdlib} {descr : Type}.
Implicit Types (schema : gmap string descr) (text : string).

(** C10. The keys of the mapping that [extract_fields_from_text_generic]
    returns depend only on which of the two dispatch keys the schema has:
    with ["numero_oab"] they are exactly ["nome"] and ["numero_oab"];
    otherwise with ["data_referencia"] they are exactly the four ledger
    keys; otherwise there are none. The text and the other keys of the
    schema play no part, so a schema that declares only ["numero_oab"]
    gets the undeclared key ["nome"] back. *)
Theorem extract_fields_keys text schema :
  dom (extract_fields_from_text_generic text schema) = rule_keys schema
  ∧ ∀ d : descr,
      "nome" ∈ dom (extract_fields_from_text_generic text {[ "numero_oab" := d ]})
      ∧ "nome" ∉ dom ({[ "numero_oab" := d ]} : gmap string descr).
Proof.
  split; [apply extract_fields_dom|]. intros d.
  rewrite extract_fields_dom. unfold rule_keys.
  rewrite dom_singleton_L, bool_decide_eq_true_2 by set_solver.
  unfold identity_keys. split; [set_solver|].
  rewrite elem_of_singleton. discriminate.
Qed.

(** C1, as the code has it. The mapping that [process] stores and returns
    is the extractor's result completed by the [setdefault] loop: its keys
    are the keys of the schema together with the keys the rule set wrote;
    a key of the schema that no rule wrote maps to [None]; what a rule
    wrote is left as it is. The extractor alone adds no key for the
    schema. *)
Theorem completed_fields_keys text schema :
  let fs := extract_fields_from_text_generic text schema in
  dom (fill_missing fs schema) = dom schema ∪ rule_keys schema
  ∧ ∀ k, fill_missing fs schema !! k =
           match fs !! k with
           | Some v => Some v
           | None => if bool_decide (k ∈ dom schema) then Some None else None
           end.
Proof.
  intros fs. split.
  - rewrite fill_missing_dom. unfold fs.
    rewrite extract_fields_dom. set_solver.
  - intros k. apply fill_missing_lookup.
Qed.

Lemma ledger_branch text schema :
  schema !! "numero_oab" = None → is_Some (schema !! "data_referencia") →
  let t := normalize_text text in
  let valores := Re.findall re_valor t in
  extract_fields_from_text_generic text schema =
    <["total" := last valores ≫= normalize_money]>
      (<["saldo_a_vencer" := valores !! 1 ≫= normalize_money]>
         (<["saldo_vencido" := valores !! 0 ≫= normalize_money]>
            (<["data_referencia" := Re.search re_data t]> ∅))).
Proof.
  intros Hoab Hdata t valores. unfold extract_fields_from_text_generic.
  rewrite Hoab, bool_decide_eq_false_2 by (by intros []).
  rewrite bool_decide_eq_true_2 by done.
  fold t. fold valores. destruct valores as [|v0 [|v1 vs]]; done.
Qed.

Lemma identity_branch text schema :
  is_Some (schema !! "numero_oab") →
  let t := normalize_text text in
  extract_fields_from_text_generic text schema =
    <["numero_oab" := Re.search re_numero t]>
      (<["nome" := Re.search re_nome t]> ∅).
Proof.
  intros Hoab t. unfold extract_fields_from_text_generic.
  by rewrite bool_decide_eq_true_2.
Qed.

End FieldsTheorems.

(** ** The extractor at concrete inputs *)

Module Demo.

#[local] Existing Instance demo_stdlib.

(** C1 as stated fails: for a schema without a dispatch key the extractor
    returns the empty mapping, whose keys are not the schema's. *)
Lemma extract_fields_misses_schema_keys :
  dom (extract_fields_from_text_generic "" ({[ "cpf" := "CPF" ]} : gmap string string))
    ≠ dom ({[ "cpf" := "CPF" ]} : gmap string string).
Proof.
  rewrite extract_fields_dom. unfold rule_keys. rewrite dom_singleton_L.
  rewrite !bool_decide_eq_false_2 by (rewrite elem_of_singleton; discriminate).
  intros Heq. apply (not_elem_of_empty (C:=gset string) "cpf").
  rewrite Heq. by apply elem_of_singleton.
Qed.

(** C8 as stated fails: a single token of three letters is taken as the
    name although it is no run of three tokens, and a run of three tokens
    of two letters is not taken. *)
Lemma name_is_not_a_run_of_three_tokens :
  (extract_fields_from_text_generic "ABC" oab_schema !! "nome" = Some (Some "ABC")
   ∧ spec_name_run "ABC" = false)
  ∧ (extract_fields_from_text_generic "AB CD EF" oab_schema !! "nome" = Some None
     ∧ spec_name_run "AB CD EF" = true).
Proof. repeat split; by vm_compute. Qed.

End Demo.

(** ** Properties of the text extraction *)

Section ServiceFacts.
Context `{Stdlib} `{Backend}.
#[local] Existing Instance M_ret.
#[local] Existing Instance M_bind.
Implicit Types (w : world) (pdf_bytes : list Byte.byte) (text : string).

Lemma string_app_assoc (a b c : string) : (a +:+ b) +:+ c = a +:+ (b +:+ c).
Proof.
  induction a as [|x a IH]; [reflexivity|].
  change (String x ((a +:+ b) +:+ c) = String x (a +:+ (b +:+ c))).
  by rewrite IH.
Qed.

Lemma string_app_nil_r (a : string) : a +:+ "" = a.
Proof.
  induction a as [|x a IH]; [reflexivity|].
  change (String x (a +:+ "") = String x a). by rewrite IH.
Qed.

Lemma logged_nil w : logged w [] = w.
Proof. destruct w. unfold logged. cbn. by rewrite app_nil_r. Qed.

Lemma logged_logged w cs1 cs2 : logged (logged w cs1) cs2 = logged w (cs1 ++ cs2).
Proof. unfold logged. cbn. by rewrite app_assoc. Qed.

Lemma calls_since_logged w cs : calls_since w (logged w cs) = cs.
Proof. unfold calls_since, logged. cbn. by rewrite drop_app_length. Qed.

Lemma bind_eq {E A B} (m : M E A) (k : A → M E B) w :
  (m ≫= k) w = match m w with
               | (inr a, w') => k a w'
               | (inl e, w') => (inl e, w')
               end.
Proof. reflexivity. Qed.

Lemma invoke_eq {A} (c : call) (r : message + A) w :
  invoke c r w = (r, logged w [c]).
Proof. reflexivity. Qed.

Lemma read_pages_ok doc ts text w :
  page_texts doc ts →
  read_pages doc text w = (inr (text +:+ join ts), logged w (map GetText doc)).
Proof.
  intros Hts. revert text w.
  induction Hts as [|p t doc ts Hp _ IH]; intros text w; cbn [read_pages join foldr map].
  - by rewrite string_app_nil_r, logged_nil.
  - rewrite bind_eq, invoke_eq, Hp, IH, logged_logged.
    by rewrite string_app_assoc.
Qed.

Lemma read_pages_fail doc1 p doc2 ts e text w :
  page_texts doc1 ts → get_text p = inl e →
  read_pages (doc1 ++ p :: doc2) text w
  = (inl e, logged w (map GetText (doc1 ++ [p]))).
Proof.
  intros Hts Hp. revert text w.
  induction Hts as [|q t doc1 ts Hq _ IH]; intros text w; cbn [read_pages app map].
  - by rewrite bind_eq, invoke_eq, Hp.
  - by rewrite bind_eq, invoke_eq, Hq, IH, logged_logged.
Qed.

Lemma ocr_pages_ok images ts text w :
  ocr_texts images ts →
  ocr_pages images text w
  = (inr (text +:+ join ts), logged w (map (fun img => Ocr img "por+eng") images)).
Proof.
  intros Hts. revert text w.
  induction Hts as [|p t images ts Hp _ IH]; intros text w; cbn [ocr_pages join foldr map].
  - by rewrite string_app_nil_r, logged_nil.
  - rewrite bind_eq, invoke_eq, Hp, IH, logged_logged.
    by rewrite string_app_assoc.
Qed.

Lemma ocr_pages_fail images1 img images2 ts e text w :
  ocr_texts images1 ts → image_to_string img "por+eng" = inl e →
  ocr_pages (images1 ++ img :: images2) text w
  = (inl e, logged w (map (fun img => Ocr img "por+eng") (images1 ++ [img]))).
Proof.
  intros Hts Hp. revert text w.
  induction Hts as [|q t images1 ts Hq _ IH]; intros text w; cbn [ocr_pages app map].
  - by rewrite bind_eq, invoke_eq, Hp.
  - by rewrite bind_eq, invoke_eq, Hq, IH, logged_logged.
Qed.

(** The outcome of the [try] block when the embedded text is used. *)
Lemma extraction_embedded pdf_bytes doc ts w :
  fitz_open pdf_bytes = inr doc → page_texts doc ts →
  strip_is_empty (join ts) = false →
  extraction pdf_bytes w
  = (inr (join ts), logged w (Open pdf_bytes :: map GetText doc)).
Proof.
  intros Hopen Hts Hblank. unfold extraction.
  rewrite bind_eq, invoke_eq, Hopen, bind_eq, (read_pages_ok _ ts) by done.
  change ("" +:+ join ts) with (join ts). rewrite Hblank, logged_logged. reflexivity.
Qed.

(** The outcome of the [try] block when OCR is used. *)
Lemma extraction_ocr pdf_bytes doc ts images os w :
  fitz_open pdf_bytes = inr doc → page_texts doc ts →
  strip_is_empty (join ts) = true →
  convert_from_bytes pdf_bytes 200 = inr images → ocr_texts images os →
  extraction pdf_bytes w
  = (inr (join ts +:+ join os),
     logged w (Open pdf_bytes :: map GetText doc
               ++ Rasterize pdf_bytes 200
                  :: map (fun img => Ocr img "por+eng") images)).
Proof.
  intros Hopen Hts Hblank Hconv Hos. unfold extraction.
  rewrite bind_eq, invoke_eq, Hopen, bind_eq, (read_pages_ok _ ts) by done.
  change ("" +:+ join ts) with (join ts). rewrite Hblank, bind_eq, invoke_eq, Hconv.
  rewrite (ocr_pages_ok _ os) by done. rewrite !logged_logged.
  reflexivity.
Qed.

Lemma extraction_fails pdf_bytes e w :
  engine_fails pdf_bytes e →
  ∃ cs, extraction pdf_bytes w = (inl e, logged w cs).
Proof.
  intros [Hopen | doc1 p doc2 ts Hopen Hts Hp | doc ts Hopen Hts Hblank Hconv
          | doc ts images1 img images2 os Hopen Hts Hblank Hconv Hos Himg];
    unfold extraction; rewrite bind_eq, invoke_eq, Hopen.
  - by eexists.
  - rewrite bind_eq, (read_pages_fail _ _ _ ts e) by done.
    rewrite logged_logged. by eexists.
  - rewrite bind_eq, (read_pages_ok _ ts) by done. change ("" +:+ join ts) with (join ts).
    rewrite Hblank, bind_eq, invoke_eq, Hconv, !logged_logged. by eexists.
  - rewrite bind_eq, (read_pages_ok _ ts) by done. change ("" +:+ join ts) with (join ts).
    rewrite Hblank, bind_eq, invoke_eq, Hconv.
    rewrite (ocr_pages_fail _ _ _ os e) by done.
    rewrite !logged_logged. by eexists.
Qed.

(** The [try] block only adds library calls to the world. *)
Lemma read_pages_logged doc text w :
  ∃ cs, snd (read_pages doc text w) = logged w cs.
Proof.
  revert text w. induction doc as [|p doc IH]; intros text w; cbn [read_pages].
  - exists []. by rewrite logged_nil.
  - rewrite bind_eq, invoke_eq. destruct (get_text p) as [e|t].
    + by eexists.
    + destruct (IH (text +:+ t) (logged w [GetText p])) as [cs ->].
      rewrite logged_logged. by eexists.
Qed.

Lemma ocr_pages_logged images text w :
  ∃ cs, snd (ocr_pages images text w) = logged w cs.
Proof.
  revert text w. induction images as [|p images IH]; intros text w; cbn [ocr_pages].
  - exists []. by rewrite logged_nil.
  - rewrite bind_eq, invoke_eq. destruct (image_to_string p "por+eng") as [e|t].
    + by eexists.
    + destruct (IH (text +:+ t) (logged w [Ocr p "por+eng"])) as [cs ->].
      rewrite logged_logged. by eexists.
Qed.

Lemma extraction_logged pdf_bytes w :
  ∃ cs, snd (extraction pdf_bytes w) = logged w cs.
Proof.
  unfold extraction. rewrite bind_eq, invoke_eq.
  destruct (fitz_open pdf_bytes) as [e|doc]; [by eexists|].
  rewrite bind_eq.
  destruct (read_pages_logged doc "" (logged w [Open pdf_bytes])) as [cs Hcs].
  destruct (read_pages doc "" (logged w [Open pdf_bytes])) as [[e|text] w1];
    cbn in Hcs; subst w1; rewrite logged_logged; [by eexists|].
  destruct (strip_is_empty text); [|by eexists].
  rewrite bind_eq, invoke_eq.
  destruct (convert_from_bytes pdf_bytes 200) as [e|images];
    rewrite logged_logged; [by eexists|].
  destruct (ocr_pages_logged images text
              (logged w (([Open pdf_bytes] ++ cs) ++ [Rasterize pdf_bytes 200])))
    as [cs' ->].
  rewrite logged_logged. by eexists.
Qed.

Lemma extract_text_hit pdf_bytes w text :
  cache w !! md5_hexdigest pdf_bytes = Some text →
  extract_text_from_pdf_bytes pdf_bytes w = (inr text, w).
Proof.
  intros Hhit. unfold extract_text_from_pdf_bytes.
  rewrite bind_eq. unfold cache_get. by rewrite Hhit.
Qed.

Lemma extract_text_miss pdf_bytes w :
  cache w !! md5_hexdigest pdf_bytes = None →
  extract_text_from_pdf_bytes pdf_bytes w
  = let '(r, w1) := extraction pdf_bytes w in
    (inr (text_of_outcome r),
     World (<[md5_hexdigest pdf_bytes := text_of_outcome r]> (cache w1))
           (knowledge_file w1) (calls w1)).
Proof.
  intros Hmiss. unfold extract_text_from_pdf_bytes.
  rewrite bind_eq. unfold cache_get. rewrite Hmiss.
  rewrite bind_eq. unfold try_except.
  destruct (extraction pdf_bytes w) as [[e|text] w1]; reflexivity.
Qed.

End ServiceFacts.

Section ServiceTheorems.
Context `{Stdlib} `{Backend} {descr : Type}.
Implicit Types (w : world) (pdf_bytes : list Byte.byte) (text : string).
Implicit Types (schema : gmap string descr).

Lemma extract_text_returns pdf_bytes w :
  ∃ text cs,
    extract_text_from_pdf_bytes pdf_bytes w
    = (inr text,
       World (<[md5_hexdigest pdf_bytes := text]> (cache w))
             (knowledge_file w) (calls w ++ cs))
    ∧ (∀ t, cache w !! md5_hexdigest pdf_bytes = Some t → t = text ∧ cs = []).
Proof.
  destruct (cache w !! md5_hexdigest pdf_bytes) as [t|] eqn:Hc.
  - exists t, []. rewrite (extract_text_hit _ _ t) by done. split.
    + rewrite insert_id by done. by rewrite <- (logged_nil w) at 1.
    + by intros ? [= ->].
  - rewrite extract_text_miss by done.
    destruct (extraction_logged pdf_bytes w) as [cs Hcs].
    destruct (extraction pdf_bytes w) as [r w1]. cbn in Hcs. subst w1.
    exists (text_of_outcome r), cs. split; [done|]. intros ? [=].
Qed.

Lemma extract_text_stores pdf_bytes w text w1 :
  extract_text_from_pdf_bytes pdf_bytes w = (inr text, w1) →
  cache w1 !! md5_hexdigest pdf_bytes = Some text
  ∧ knowledge_file w1 = knowledge_file w.
Proof.
  destruct (extract_text_returns pdf_bytes w) as (t & cs & -> & _).
  intros [= <- <-]. cbn. by rewrite lookup_insert_eq.
Qed.

Lemma extract_text_keeps pdf_bytes w key t :
  cache w !! key = Some t →
  cache (snd (extract_text_from_pdf_bytes pdf_bytes w)) !! key = Some t.
Proof.
  intros Hkey.
  destruct (extract_text_returns pdf_bytes w) as (text & cs & -> & Hhit). cbn.
  destruct (decide (md5_hexdigest pdf_bytes = key)) as [<-|Hne].
  - destruct (Hhit _ Hkey) as [-> _]. by rewrite lookup_insert_eq.
  - by rewrite lookup_insert_ne.
Qed.

(** [process], outcome by outcome. *)
Lemma process_eq label schema pdf_b64 w :
  process label schema pdf_b64 w =
    match b64decode pdf_b64 with
    | inl e => (inl (Raised e), w)
    | inr pdf_bytes =>
        if bool_decide (pdf_bytes = []) then
          (inl (HTTPException 400 "PDF inválido ou vazio"), w)
        else
          match extract_text_from_pdf_bytes pdf_bytes w with
          | (inl e, w1) => (inl (Raised e), w1)
          | (inr text, w1) =>
              if contains "__ERROR__" text then
                (inl (HTTPException 400 ("Erro na extração de texto: " +:+ text)), w1)
              else
                let fs := fill_missing
                            (extract_fields_from_text_generic text schema) schema in
                (inr (Response label text fs),
                 World (cache w1)
                       (Some (append_entry label fs (knowledge w1))) (calls w1))
          end
    end.
Proof.
  unfold process. rewrite bind_eq.
  destruct (b64decode pdf_b64) as [e|pdf_bytes]; [done|].
  case_bool_decide; [done|].
  rewrite bind_eq. unfold reraise, try_except.
  destruct (extract_text_from_pdf_bytes pdf_bytes w) as [[e|text] w1]; [done|].
  destruct (contains "__ERROR__" text); [done|].
  rewrite bind_eq. unfold kb_load, knowledge.
  destruct (knowledge_file w1); reflexivity.
Qed.

Lemma process_keeps label schema pdf_b64 w key t :
  cache w !! key = Some t →
  cache (snd (process label schema pdf_b64 w)) !! key = Some t.
Proof.
  intros Hkey. rewrite process_eq.
  destruct (b64decode pdf_b64) as [e|pdf_bytes]; [done|].
  case_bool_decide; [done|].
  pose proof (extract_text_keeps pdf_bytes w key t Hkey) as Hk.
  destruct (extract_text_from_pdf_bytes pdf_bytes w) as [[e|text] w1]; [done|].
  destruct (contains "__ERROR__" text); done.
Qed.

Lemma serve_all_keeps (rs : list (request (descr:=descr))) w key t :
  cache w !! key = Some t → cache (serve_all rs w) !! key = Some t.
Proof.
  revert w. induction rs as [|r rs IH]; intros w Hkey; [done|].
  cbn. apply IH. destruct r; cbn.
  - by apply extract_text_keeps.
  - by apply process_keeps.
Qed.

(** C2. [extract_text_from_pdf_bytes] returns a text whatever the bytes
    and the state of the cache; and when the extraction runs (cache miss)
    and parsing, rasterisation or OCR fails with message [e], the text
    returned and cached is exactly ["__ERROR__ "] followed by [e], with
    nothing of the pages read before the failure. *)
Theorem extract_text_never_raises pdf_bytes w :
  (∃ text w', extract_text_from_pdf_bytes pdf_bytes w = (inr text, w'))
  ∧ ∀ e,
      cache w !! md5_hexdigest pdf_bytes = None →
      engine_fails pdf_bytes e →
      ∃ w', extract_text_from_pdf_bytes pdf_bytes w = (inr ("__ERROR__ " +:+ e), w')
            ∧ cache w' !! md5_hexdigest pdf_bytes = Some ("__ERROR__ " +:+ e).
Proof.
  split.
  - destruct (extract_text_returns pdf_bytes w) as (text & cs & -> & _). eauto.
  - intros e Hmiss Hfail. rewrite extract_text_miss by done.
    destruct (extraction_fails pdf_bytes e w Hfail) as [cs ->].
    eexists. split; [reflexivity|]. cbn. by rewrite lookup_insert_eq.
Qed.

(** C7. When the decoded bytes are empty, [process] raises the 400 error
    and the world is untouched: nothing was extracted, cached or stored.
    When the extracted text contains ["__ERROR__"], [process] raises the
    400 error carrying that text and the knowledge base is left as it
    was. *)
Theorem process_rejects_bad_input label schema pdf_b64 w :
  (b64decode pdf_b64 = inr [] →
     process label schema pdf_b64 w
     = (inl (HTTPException 400 "PDF inválido ou vazio"), w))
  ∧ (∀ pdf_bytes text w1,
       b64decode pdf_b64 = inr pdf_bytes → pdf_bytes ≠ [] →
       extract_text_from_pdf_bytes pdf_bytes w = (inr text, w1) →
       contains "__ERROR__" text = true →
       process label schema pdf_b64 w
       = (inl (HTTPException 400 ("Erro na extração de texto: " +:+ text)), w1)
       ∧ knowledge_file w1 = knowledge_file w).
Proof.
  split.
  - intros Hdec. by rewrite process_eq, Hdec.
  - intros pdf_bytes text w1 Hdec Hne Hext Herr.
    rewrite process_eq, Hdec, bool_decide_eq_false_2, Hext, Herr by done.
    split; [done|]. by apply (extract_text_stores pdf_bytes w text).
Qed.

Lemma process_success label schema pdf_b64 w r w' :
  process label schema pdf_b64 w = (inr r, w') →
  knowledge_file w'
  = Some (append_entry label (extracted_fields r) (knowledge w)).
Proof.
  rewrite process_eq.
  destruct (b64decode pdf_b64) as [e|pdf_bytes]; [done|].
  case_bool_decide; [done|].
  destruct (extract_text_from_pdf_bytes pdf_bytes w) as [[e|text] w1] eqn:Hext;
    [done|].
  destruct (contains "__ERROR__" text); [done|].
  intros [= <- <-]. cbn. unfold knowledge.
  by destruct (extract_text_stores _ _ _ _ Hext) as [_ ->].
Qed.

(** C9. A successful [process] call leaves the knowledge base with the
    returned field mapping appended at the end of the sequence of its
    label (a new sequence when the label was absent) and every other
    label as it was; after a second successful call under the same label
    the sequence ends with the two mappings in call order. *)
Theorem process_appends label schema pdf_b64 w r w' :
  process label schema pdf_b64 w = (inr r, w') →
  knowledge w' !! label
  = Some (default [] (knowledge w !! label) ++ [extracted_fields r])
  ∧ (∀ l, l ≠ label → knowledge w' !! l = knowledge w !! l)
  ∧ (∀ schema2 pdf_b64' r2 w'',
       process label schema2 pdf_b64' w' = (inr r2, w'') →
       knowledge w'' !! label
       = Some (default [] (knowledge w !! label)
               ++ [extracted_fields r; extracted_fields r2])).
Proof.
  intros Hp. apply process_success in Hp as Hk.
  assert (Hl : knowledge w' !! label
               = Some (default [] (knowledge w !! label) ++ [extracted_fields r])).
  { unfold knowledge at 1. rewrite Hk. cbn. unfold append_entry.
    by rewrite lookup_insert_eq. }
  split; [exact Hl|]. split.
  - intros l Hne. unfold knowledge at 1. rewrite Hk. cbn. unfold append_entry.
    by rewrite lookup_insert_ne.
  - intros schema2 pdf_b64' r2 w'' Hp2. apply process_success in Hp2 as Hk2.
    unfold knowledge at 1. rewrite Hk2. cbn. unfold append_entry.
    rewrite lookup_insert_eq, Hl. cbn. by rewrite <- app_assoc.
Qed.

End ServiceTheorems.

(** ** The service at concrete inputs *)

Module DemoService.

#[local] Existing Instance demo_stdlib.
#[local] Existing Instance demo_backend.

Lemma extract_text_never_raises_witness :
  ∃ w', extract_text_from_pdf_bytes (list_byte_of_string "AB!C") fresh
        = (inr ("__ERROR__ " +:+ "page unreadable"), w')
        ∧ cache w' !! md5_hexdigest (list_byte_of_string "AB!C")
          = Some ("__ERROR__ " +:+ "page unreadable").
Proof.
  apply (extract_text_never_raises (list_byte_of_string "AB!C") fresh).
  - reflexivity.
  - apply (@fails_page demo_backend _ _ (list_byte_of_string "AB") Byte.x21
             (list_byte_of_string "C") ["A"; "B"]).
    + reflexivity.
    + repeat constructor.
    + reflexivity.
Defined.

(** C3 as stated fails: the second call for a document without embedded
    text is answered from the cache, so although its embedded text is
    blank neither rasterisation nor OCR runs. *)
Lemma no_ocr_on_cache_hit :
  let pdf_bytes := list_byte_of_string " " in
  let w1 := snd (extract_text_from_pdf_bytes pdf_bytes fresh) in
  let w2 := snd (extract_text_from_pdf_bytes pdf_bytes w1) in
  fitz_open pdf_bytes = inr pdf_bytes
  ∧ page_texts pdf_bytes [" "]
  ∧ strip_is_empty (join [" "]) = true
  ∧ ¬ ∃ c, c ∈ calls_since w1 w2 ∧ is_ocr_call c = true.
Proof.
  intros pdf_bytes w1 w2. split; [reflexivity|]. split; [repeat constructor|].
  split; [reflexivity|]. intros (c & Hc & _).
  assert (Hno : calls_since w1 w2 = []) by (vm_compute; reflexivity).
  rewrite Hno in Hc. by apply elem_of_nil in Hc.
Qed.

Lemma process_rejects_bad_input_witness :
  let w1 := snd (extract_text_from_pdf_bytes (list_byte_of_string "#1") fresh) in
  process "oab_1" oab_schema "" fresh
  = (inl (HTTPException 400 "PDF inválido ou vazio"), fresh)
  ∧ process "oab_1" oab_schema "#1" fresh
    = (inl (HTTPException 400
              ("Erro na extração de texto: "
               +:+ "__ERROR__ cannot open broken document")), w1)
  ∧ knowledge_file w1 = knowledge_file fresh.
Proof.
  intros w1. split.
  - apply (process_rejects_bad_input "oab_1" oab_schema "" fresh).
    vm_compute. reflexivity.
  - apply (proj2 (process_rejects_bad_input "oab_1" oab_schema "#1" fresh)
             (list_byte_of_string "#1")
             "__ERROR__ cannot open broken document" w1).
    + vm_compute. reflexivity.
    + discriminate.
    + vm_compute. reflexivity.
    + vm_compute. reflexivity.
Defined.

Lemma process_appends_witness :
  let r := Response "oab_1" "JOAO DA SILVA 123456"
             {[ "nome" := Some "JOAO DA SILVA"; "numero_oab" := Some "123456" ]} in
  let w1 := snd (process "oab_1" oab_schema "JOAO DA SILVA 123456" fresh) in
  knowledge w1 !! "oab_1"
  = Some (default [] (knowledge fresh !! "oab_1") ++ [extracted_fields r]).
Proof.
  intros r w1.
  apply (process_appends "oab_1" oab_schema "JOAO DA SILVA 123456" fresh r w1).
  vm_compute. reflexivity.
Defined.

End DemoService.

(** ** Further properties of the service *)

Section ServiceInvariants.
Context `{Stdlib} `{Backend} {descr : Type}.
#[local] Existing Instance M_ret.
#[local] Existing Instance M_bind.
Implicit Types (w : world) (pdf_bytes : list Byte.byte) (text : string).
Implicit Types (schema : gmap string descr).

Lemma contains_unfold needle hay :
  contains needle hay
  = String.prefix needle hay
    || match hay with
       | EmptyString => false
       | String _ hay' => contains needle hay'
       end.
Proof. by destruct hay. Qed.

Lemma prefix_cons c1 s1 c2 s2 :
  String.prefix (String c1 s1) (String c2 s2)
  = if ascii_dec c1 c2 then String.prefix s1 s2 else false.
Proof. reflexivity. Qed.

Lemma prefix_contains needle rest : contains needle (needle +:+ rest) = true.
Proof.
  assert (Hp : String.prefix needle (needle +:+ rest) = true).
  { induction needle as [|c needle IH]; [by destruct rest|].
    change (String c needle +:+ rest) with (String c (needle +:+ rest)).
    rewrite prefix_cons, IH. by destruct (ascii_dec c c). }
  by rewrite contains_unfold, Hp.
Qed.

Lemma contains_marker_underscore text :
  contains "__ERROR__" text = true → "_"%char ∈ list_ascii_of_string text.
Proof.
  induction text as [|c text IH]; [done|]. cbn [contains list_ascii_of_string].
  intros [Hp|Hc]%orb_true_iff.
  - destruct (ascii_dec "_" c) as [<-|Hne]; [apply elem_of_cons; by left|].
    exfalso. rewrite prefix_cons in Hp. by destruct (ascii_dec "_" c).
  - apply elem_of_cons. right. by apply IH.
Qed.

Lemma blank_no_underscore (n : nat) (l : list ascii) :
  length l ≤ n → blank l = true → "_"%char ∉ l.
Proof.
  revert l. induction n as [|n IH]; intros l Hn Hb.
  { destruct l; [apply not_elem_of_nil | cbn in Hn; lia]. }
  destruct l as [|c l1]; [apply not_elem_of_nil|].
  cbn [blank] in Hb. cbn in Hn.
  destruct ((9 <=? Chars.code c) && (Chars.code c <=? 13)
            || (28 <=? Chars.code c) && (Chars.code c <=? 32))%N eqn:Hws.
  { intros [<-|Hin]%elem_of_cons; [done|]. revert Hin. apply IH; [lia | done]. }
  destruct l1 as [|c2 l2]; [done|]. cbn in Hn.
  destruct (Chars.code c =? 194)%N eqn:H194.
  { apply andb_true_iff in Hb as [Hc2 Hb].
    intros [<-|[<-|Hin]%elem_of_cons]%elem_of_cons; [done|done|].
    revert Hin. apply IH; [lia | done]. }
  destruct l2 as [|c3 l3]; [done|]. cbn in Hn.
  apply andb_true_iff in Hb as [Hc3 Hb].
  intros [<-|[<-|[<-|Hin]%elem_of_cons]%elem_of_cons]%elem_of_cons.
  - done.
  - cbn in Hc3. by rewrite !andb_false_r in Hc3.
  - cbn in Hc3. by rewrite !andb_false_r in Hc3.
  - revert Hin. apply IH; [lia | done].
Qed.

Lemma marked_text_not_blank text :
  contains "__ERROR__" text = true → strip_is_empty text = false.
Proof.
  intros Hc%contains_marker_underscore. unfold strip_is_empty.
  destruct (blank (list_ascii_of_string text)) eqn:Hb; [|done].
  exfalso. by eapply blank_no_underscore.
Qed.

Lemma extract_text_grows pdf_bytes w :
  let w' := snd (extract_text_from_pdf_bytes pdf_bytes w) in
  cache w ⊆ cache w' ∧ calls w `prefix_of` calls w'
  ∧ knowledge_file w' = knowledge_file w.
Proof.
  destruct (extract_text_returns pdf_bytes w) as (text & cs & Heq & Hhit).
  rewrite Heq. cbn. split; [|split; [by apply prefix_app_r | done]].
  destruct (cache w !! md5_hexdigest pdf_bytes) as [t|] eqn:Hc.
  - destruct (Hhit t eq_refl) as [-> _]. by rewrite insert_id.
  - by apply insert_subseteq.
Qed.

(** X1. Whatever its outcome, [process] keeps every cache entry and every
    recorded library call; the knowledge-base file changes only when a
    response is returned, and then by the appended mapping alone. *)
Theorem process_frame label schema pdf_b64 w :
  let r := fst (process label schema pdf_b64 w) in
  let w' := snd (process label schema pdf_b64 w) in
  cache w ⊆ cache w'
  ∧ calls w `prefix_of` calls w'
  ∧ knowledge_file w'
    = match r with
      | inl _ => knowledge_file w
      | inr resp => Some (append_entry label (extracted_fields resp) (knowledge w))
      end.
Proof.
  cbn zeta. rewrite process_eq.
  destruct (b64decode pdf_b64) as [e|pdf_bytes]; [done|].
  case_bool_decide; [done|].
  pose proof (extract_text_grows pdf_bytes w) as (Hc & Hl & Hk).
  destruct (extract_text_from_pdf_bytes pdf_bytes w) as [[e|text] w1];
    cbn in Hc, Hl, Hk; [done|].
  destruct (contains "__ERROR__" text); [done|]. cbn.
  split; [done|]. split; [done|]. unfold knowledge. by rewrite Hk.
Qed.

Lemma entries_insert label (l : list fields) (kb : gmap string (list fields)) :
  kb !! label = None → entries (<[label := l]> kb) = length l + entries kb.
Proof.
  intros Hl. unfold entries. rewrite map_fold_insert_L; [done| |done].
  intros. lia.
Qed.

Lemma entries_append label (fs : fields) (kb : gmap string (list fields)) :
  entries (append_entry label fs kb) = S (entries kb).
Proof.
  unfold append_entry. destruct (kb !! label) as [old|] eqn:Hl; cbn.
  - rewrite <- (insert_delete_eq kb).
    rewrite <- (insert_id kb label old) at 2 by done.
    rewrite <- (insert_delete_eq kb label old).
    rewrite !entries_insert by apply lookup_delete_eq.
    rewrite length_app. cbn. lia.
  - by rewrite entries_insert.
Qed.

(** X2. A successful [process] call adds exactly one field mapping to the
    knowledge base; a failed one adds none. *)
Theorem process_entries label schema pdf_b64 w :
  entries (knowledge (snd (process label schema pdf_b64 w)))
  = match fst (process label schema pdf_b64 w) with
    | inr _ => S (entries (knowledge w))
    | inl _ => entries (knowledge w)
    end.
Proof.
  rewrite process_eq.
  destruct (b64decode pdf_b64) as [e|pdf_bytes]; [done|].
  case_bool_decide; [done|].
  pose proof (extract_text_grows pdf_bytes w) as (_ & _ & Hk).
  destruct (extract_text_from_pdf_bytes pdf_bytes w) as [[e|text] w1];
    cbn in Hk; cbn; [by unfold knowledge; rewrite Hk|].
  destruct (contains "__ERROR__" text); cbn; [by unfold knowledge; rewrite Hk|].
  unfold knowledge at 1. cbn. rewrite entries_append.
  unfold knowledge. by rewrite Hk.
Qed.

(** X3. A failure is remembered: once the extraction for [pdf_bytes] has
    failed with message [e], every later [process] call for these bytes,
    under any label and schema and after any other requests, is refused
    with status 400 and the cached error text, and leaves the world as it
    is: no library is called again and nothing is stored. *)
Theorem failed_extraction_is_remembered pdf_bytes w e
    (rs : list (request (descr:=descr))) label schema pdf_b64 :
  cache w !! md5_hexdigest pdf_bytes = None →
  engine_fails pdf_bytes e →
  b64decode pdf_b64 = inr pdf_bytes → pdf_bytes ≠ [] →
  let w1 := snd (extract_text_from_pdf_bytes pdf_bytes w) in
  let w2 := serve_all rs w1 in
  process label schema pdf_b64 w2
  = (inl (HTTPException 400
            ("Erro na extração de texto: " +:+ ("__ERROR__ " +:+ e))), w2).
Proof.
  intros Hmiss Hfail Hdec Hne w1 w2.
  assert (Hhit : cache w2 !! md5_hexdigest pdf_bytes = Some ("__ERROR__ " +:+ e)).
  { apply serve_all_keeps. unfold w1. rewrite extract_text_miss by done.
    destruct (extraction_fails pdf_bytes e w Hfail) as [cs ->]. cbn.
    by rewrite lookup_insert_eq. }
  rewrite process_eq, Hdec, bool_decide_eq_false_2 by done.
  rewrite (extract_text_hit _ _ ("__ERROR__ " +:+ e)) by done.
  change ("__ERROR__ " +:+ e) with ("__ERROR__" +:+ (" " +:+ e)) at 1.
  by rewrite prefix_contains.
Qed.

(** X4. The error marker is looked for anywhere in the text: a document
    that is read without any failure but whose embedded text contains
    ["__ERROR__"] is refused with status 400 all the same, nothing is added
    to the knowledge base, and its text stays in the cache. *)
Theorem marker_in_document_is_refused pdf_bytes doc ts w label schema pdf_b64 :
  cache w !! md5_hexdigest pdf_bytes = None →
  fitz_open pdf_bytes = inr doc → page_texts doc ts →
  contains "__ERROR__" (join ts) = true →
  b64decode pdf_b64 = inr pdf_bytes → pdf_bytes ≠ [] →
  ∃ w', process label schema pdf_b64 w
        = (inl (HTTPException 400 ("Erro na extração de texto: " +:+ join ts)), w')
        ∧ knowledge_file w' = knowledge_file w
        ∧ cache w' !! md5_hexdigest pdf_bytes = Some (join ts).
Proof.
  intros Hmiss Hopen Hts Hmark Hdec Hne.
  rewrite process_eq, Hdec, bool_decide_eq_false_2 by done.
  rewrite extract_text_miss by done.
  rewrite (extraction_embedded _ doc ts) by (done || by apply marked_text_not_blank).
  cbn. rewrite Hmark. eexists. split; [done|]. cbn.
  split; [done|]. by rewrite lookup_insert_eq.
Qed.

(** X5. What a successful [process] call returns: the label it was given,
    the text that is now cached for the document (as extracted, not
    normalised, and free of the marker), and the fields extracted from that
    text and completed with the schema's keys; the mapping returned is the
    one stored last under the label. *)
Theorem process_response lbl schema pdf_b64 w r w' :
  process lbl schema pdf_b64 w = (inr r, w') →
  ∃ pdf_bytes,
    b64decode pdf_b64 = inr pdf_bytes ∧ pdf_bytes ≠ []
    ∧ label r = lbl
    ∧ cache w' !! md5_hexdigest pdf_bytes = Some (extracted_text r)
    ∧ contains "__ERROR__" (extracted_text r) = false
    ∧ extracted_fields r
      = fill_missing
          (extract_fields_from_text_generic (extracted_text r) schema) schema
    ∧ (knowledge w' !! lbl) ≫= last = Some (extracted_fields r).
Proof.
  rewrite process_eq.
  destruct (b64decode pdf_b64) as [e|pdf_bytes]; [done|].
  case_bool_decide as Hne; [done|].
  destruct (extract_text_from_pdf_bytes pdf_bytes w) as [[e|text] w1] eqn:Hx; [done|].
  destruct (contains "__ERROR__" text) eqn:Hm; [done|].
  intros [= <- <-]. exists pdf_bytes. cbn.
  destruct (extract_text_stores _ _ _ _ Hx) as [Hc _].
  repeat split; try done.
  unfold knowledge. cbn. unfold append_entry. rewrite lookup_insert_eq. cbn.
  by rewrite last_snoc.
Qed.

Section EndpointFacts.
Variable http_exception_str : nat → string → string.

(** X6. The endpoint answers with a response exactly when the request
    decodes to bytes that are not empty and whose text, cached or
    extracted, is free of the marker. Every other request is answered with
    status 400 and a detail that starts with ["Erro na extração: "], never
    with another status or another exception, and leaves the knowledge base
    as it was: a decoding error gives its message; the empty document and
    the marked text give the 400 error of [process] wrapped a second time,
    its status and detail inside the new detail. *)
Theorem extract_info_outcome (req : ExtractionRequest (descr:=descr)) w :
  let out := extract_info http_exception_str req w in
  ((∃ r w', out = (inr r, w'))
   ↔ ∃ pdf_bytes text,
       b64decode (req_pdf req) = inr pdf_bytes ∧ pdf_bytes ≠ []
       ∧ fst (extract_text_from_pdf_bytes pdf_bytes w) = inr text
       ∧ contains "__ERROR__" text = false)
  ∧ (∀ e w',
       out = (inl e, w') →
       (∃ detail, e = HTTPException 400 ("Erro na extração: " +:+ detail))
       ∧ knowledge_file w' = knowledge_file w)
  ∧ (∀ e,
       b64decode (req_pdf req) = inl e →
       out = (inl (HTTPException 400 ("Erro na extração: " +:+ e)), w))
  ∧ (b64decode (req_pdf req) = inr [] →
     out = (inl (HTTPException 400
                   ("Erro na extração: "
                    +:+ http_exception_str 400 "PDF inválido ou vazio")), w))
  ∧ (∀ pdf_bytes text w1,
       b64decode (req_pdf req) = inr pdf_bytes → pdf_bytes ≠ [] →
       extract_text_from_pdf_bytes pdf_bytes w = (inr text, w1) →
       contains "__ERROR__" text = true →
       out = (inl (HTTPException 400
                     ("Erro na extração: "
                      +:+ http_exception_str 400
                            ("Erro na extração de texto: " +:+ text))), w1)).
Proof.
  intros out. subst out. unfold extract_info, try_except.
  rewrite process_eq.
  destruct (b64decode (req_pdf req)) as [e0|pdf_bytes] eqn:Hdec.
  { unfold raise. cbn [failure_str]. split_and!.
    - split; [by intros (r & w' & ?) | by intros (? & ? & ? & _)].
    - intros e w' [= <- <-]. split; [by eexists | done].
    - by intros e [= <-].
    - done.
    - done. }
  case_bool_decide as Hempty.
  { subst pdf_bytes. unfold raise. cbn [failure_str]. split_and!.
    - split; [by intros (r & w' & ?) | by intros (? & ? & [= <-] & ? & _)].
    - intros e w' [= <- <-]. split; [by eexists | done].
    - done.
    - done.
    - by intros b t w1 [= <-]. }
  destruct (extract_text_returns pdf_bytes w) as (text & cs & Hext & _).
  rewrite Hext.
  destruct (contains "__ERROR__" text) eqn:Hmark.
  - unfold raise. cbn [failure_str]. split_and!.
    + split; [by intros (r & w' & ?)|].
      intros (b & t & [= <-] & _ & Ht & Hfree).
      rewrite Hext in Ht. cbn in Ht. injection Ht as <-. congruence.
    + intros e w' [= <- <-]. split; [by eexists | done].
    + done.
    + by intros [= ->].
    + intros b t w1 [= <-] _ Hb _. rewrite Hext in Hb. by injection Hb as <- <-.
  - split_and!.
    + split; [|by eexists _, _].
      intros _. exists pdf_bytes, text. by rewrite Hext.
    + done.
    + done.
    + by intros [= ->].
    + intros b t w1 [= <-] _ Hb Hm. rewrite Hext in Hb. injection Hb as <- <-.
      congruence.
Qed.

End EndpointFacts.

End ServiceInvariants.

(** ** The further properties at concrete inputs *)

Module DemoInvariants.

#[local] Existing Instance demo_stdlib.
#[local] Existing Instance demo_backend.

Lemma failed_extraction_is_remembered_witness :
  let pdf_bytes := list_byte_of_string "AB!C" in
  let w1 := snd (extract_text_from_pdf_bytes pdf_bytes fresh) in
  let w2 := serve_all [ Process "tela" tela_schema "1.000,00" ] w1 in
  process "oab_2" oab_schema "AB!C" w2
  = (inl (HTTPException 400
            ("Erro na extração de texto: " +:+ ("__ERROR__ " +:+ "page unreadable"))),
     w2).
Proof.
  intros pdf_bytes w1 w2.
  apply (failed_extraction_is_remembered pdf_bytes fresh "page unreadable"
           [ Process "tela" tela_schema "1.000,00" ] "oab_2" oab_schema "AB!C").
  - vm_compute. reflexivity.
  - apply (@fails_page demo_backend _ _ (list_byte_of_string "AB") Byte.x21
             (list_byte_of_string "C") ["A"; "B"]);
      [reflexivity | repeat constructor | reflexivity].
  - reflexivity.
  - discriminate.
Defined.

Lemma marker_in_document_is_refused_witness :
  ∃ w', process "oab_3" oab_schema "X __ERROR__ Y" fresh
        = (inl (HTTPException 400
                  ("Erro na extração de texto: " +:+ "X __ERROR__ Y")), w')
        ∧ knowledge_file w' = knowledge_file fresh
        ∧ cache w' !! md5_hexdigest (list_byte_of_string "X __ERROR__ Y")
          = Some "X __ERROR__ Y".
Proof.
  apply (@marker_in_document_is_refused demo_stdlib demo_backend string
           (list_byte_of_string "X __ERROR__ Y")
           (list_byte_of_string "X __ERROR__ Y")
           ["X"; " "; "_"; "_"; "E"; "R"; "R"; "O"; "R"; "_"; "_"; " "; "Y"]
           fresh "oab_3" oab_schema "X __ERROR__ Y").
  - vm_compute. reflexivity.
  - reflexivity.
  - repeat constructor.
  - vm_compute. reflexivity.
  - reflexivity.
  - discriminate.
Defined.

Lemma process_response_witness :
  let r := Response "oab_1" "JOAO DA SILVA 123456"
             {[ "nome" := Some "JOAO DA SILVA"; "numero_oab" := Some "123456" ]} in
  let w1 := snd (process "oab_1" oab_schema "JOAO DA SILVA 123456" fresh) in
  ∃ pdf_bytes,
    b64decode "JOAO DA SILVA 123456" = inr pdf_bytes ∧ pdf_bytes ≠ []
    ∧ label r = "oab_1"
    ∧ cache w1 !! md5_hexdigest pdf_bytes = Some (extracted_text r)
    ∧ contains "__ERROR__" (extracted_text r) = false
    ∧ extracted_fields r
      = fill_missing
          (extract_fields_from_text_generic (extracted_text r) oab_schema)
          oab_schema
    ∧ (knowledge w1 !! "oab_1") ≫= last = Some (extracted_fields r).
Proof.
  intros r w1.
  apply (process_response "oab_1" oab_schema "JOAO DA SILVA 123456" fresh r w1).
  vm_compute. reflexivity.
Defined.

Lemma extract_info_outcome_witness :
  extract_info (fun status detail => detail)
    {| req_label := "oab_1"; req_extraction_schema := oab_schema; req_pdf := "" |}
    fresh
  = (inl (HTTPException 400 ("Erro na extração: " +:+ "PDF inválido ou vazio")),
     fresh).
Proof.
  apply (extract_info_outcome (fun status detail => detail)
           {| req_label := "oab_1"; req_extraction_schema := oab_schema;
              req_pdf := "" |} fresh).
  reflexivity.
Defined.

End DemoInvariants.

(** ** Further properties of the field extractor and of the normaliser *)

Section NormalizeFacts.
Context `{Stdlib}.

Lemma upper_ascii c :
  Chars.is_ascii c = true →
  Chars.is_ascii (Chars.upper c) = true ∧ Chars.is_lower (Chars.upper c) = false.
Proof. destruct c as [[] [] [] [] [] [] [] []]; by vm_compute. Qed.

Lemma upper_fixed c : Chars.is_lower c = false → Chars.upper c = c.
Proof. unfold Chars.upper. by intros ->. Qed.

Lemma string_filter_In p (s : string) c :
  c ∈ list_ascii_of_string (string_filter p s) →
  p c = true ∧ c ∈ list_ascii_of_string s.
Proof.
  induction s as [|x s IH]; cbn; [by intros ?%elem_of_nil|].
  destruct (p x) eqn:Hx; cbn.
  - intros [->|Hin]%elem_of_cons.
    + split; [done | apply elem_of_cons; by left].
    + destruct (IH Hin). split; [done | apply elem_of_cons; by right].
  - intros Hin. destruct (IH Hin). split; [done | apply elem_of_cons; by right].
Qed.

Lemma string_map_In f (s : string) c :
  c ∈ list_ascii_of_string (string_map f s) →
  ∃ x, c = f x ∧ x ∈ list_ascii_of_string s.
Proof.
  induction s as [|x s IH]; cbn; [by intros ?%elem_of_nil|].
  intros [->|Hin]%elem_of_cons.
  - exists x. split; [done | apply elem_of_cons; by left].
  - destruct (IH Hin) as (y & -> & Hy). exists y.
    split; [done | apply elem_of_cons; by right].
Qed.

Lemma string_filter_id p (s : string) :
  (∀ c, c ∈ list_ascii_of_string s → p c = true) → string_filter p s = s.
Proof.
  induction s as [|x s IH]; cbn; [done|]. intros Hall.
  rewrite (Hall x) by (apply elem_of_cons; by left).
  f_equal. apply IH. intros c Hc. apply Hall. apply elem_of_cons. by right.
Qed.

Lemma string_map_id f (s : string) :
  (∀ c, c ∈ list_ascii_of_string s → f c = c) → string_map f s = s.
Proof.
  induction s as [|x s IH]; cbn; [done|]. intros Hall.
  rewrite (Hall x) by (apply elem_of_cons; by left).
  f_equal. apply IH. intros c Hc. apply Hall. apply elem_of_cons. by right.
Qed.

(** X7. The normalised text holds 7-bit characters only and no lowercase
    letter. *)
Theorem normalize_text_chars text c :
  c ∈ list_ascii_of_string (normalize_text text) →
  Chars.is_ascii c = true ∧ Chars.is_lower c = false.
Proof.
  unfold normalize_text, encode_ascii_ignore.
  intros (x & -> & Hx)%string_map_In.
  apply string_filter_In in Hx as [Hx _]. by apply upper_ascii.
Qed.

(** X8. When NFKD leaves 7-bit text as it is, normalising is idempotent,
    so the fields extracted from a text are those extracted from its
    normalised form. *)
Theorem normalize_text_idempotent {descr} text (schema : gmap string descr) :
  (∀ s, (∀ c, c ∈ list_ascii_of_string s → Chars.is_ascii c = true) → nfkd s = s) →
  normalize_text (normalize_text text) = normalize_text text
  ∧ extract_fields_from_text_generic (normalize_text text) schema
    = extract_fields_from_text_generic text schema.
Proof.
  intros Hnfkd.
  assert (Hidem : normalize_text (normalize_text text) = normalize_text text).
  { unfold normalize_text at 1. unfold encode_ascii_ignore.
    rewrite Hnfkd by (intros c Hc; by apply (normalize_text_chars text)).
    rewrite string_filter_id by (intros c Hc; by apply (normalize_text_chars text)).
    apply string_map_id. intros c Hc. apply upper_fixed.
    by apply (normalize_text_chars text). }
  split; [done|]. unfold extract_fields_from_text_generic. by rewrite Hidem.
Qed.

End NormalizeFacts.

Section SchemaFacts.
Context `{Stdlib}.

Lemma fill_missing_covered {descr} (fs : fields) (schema : gmap string descr) :
  dom schema ⊆ dom fs → fill_missing fs schema = fs.
Proof.
  intros Hsub. apply map_eq. intros k. rewrite fill_missing_lookup.
  destruct (fs !! k) as [v|] eqn:Hk; [done|].
  rewrite bool_decide_eq_false_2; [done|].
  intros Hin%Hsub. apply elem_of_dom in Hin as [? ?]. congruence.
Qed.

(** X9. For the schema that the client picks from a file name (the OAB
    schema for names starting with ["oab"], the ledger schema otherwise)
    the extractor writes exactly the keys of the schema, whatever the text,
    so the [setdefault] loop of [process] has nothing to add. *)
Theorem client_schema_is_covered filename text :
  let schema := detect_schema filename in
  let fs := extract_fields_from_text_generic text schema in
  dom fs = dom schema ∧ fill_missing fs schema = fs.
Proof.
  intros schema fs.
  assert (Hdom : dom fs = dom schema).
  { unfold fs. rewrite extract_fields_dom. unfold schema, detect_schema.
    destruct (String.prefix "oab" filename); unfold rule_keys.
    - unfold oab_schema. rewrite !dom_insert_L, dom_singleton_L.
      rewrite bool_decide_eq_true_2 by set_solver.
      unfold identity_keys. set_solver.
    - unfold tela_schema. rewrite !dom_insert_L, dom_singleton_L.
      rewrite bool_decide_eq_false_2.
      2:{ rewrite !elem_of_union, !elem_of_singleton.
          intros [?|[?|[?|?]]]; discriminate. }
      rewrite bool_decide_eq_true_2 by set_solver.
      unfold ledger_keys. set_solver. }
  split; [done|]. apply fill_missing_covered. by rewrite Hdom.
Qed.

(** X10. The identity rules take precedence and exclude the ledger rules:
    for a schema with ["numero_oab"], every other key of the schema except
    ["nome"] (in particular ["data_referencia"] and the balances) is
    [None] in the completed fields, whatever the text; and for a schema
    with neither dispatch key every key of the schema is [None]. *)
Theorem dispatch_precedence {descr} text (schema : gmap string descr) k :
  k ∈ dom schema →
  let fs := fill_missing (extract_fields_from_text_generic text schema) schema in
  (is_Some (schema !! "numero_oab") → k ≠ "nome" → k ≠ "numero_oab" →
     fs !! k = Some None)
  ∧ (schema !! "numero_oab" = None → schema !! "data_referencia" = None →
     fs !! k = Some None).
Proof.
  intros Hk fs. unfold fs.
  assert (Hout : k ∉ rule_keys schema →
            fill_missing (extract_fields_from_text_generic text schema) schema !! k
            = Some None).
  { intros Hnot. rewrite fill_missing_lookup.
    rewrite <- extract_fields_dom with (text := text) in Hnot.
    apply not_elem_of_dom in Hnot as ->. by rewrite bool_decide_eq_true_2. }
  split.
  - intros Hoab Hn1 Hn2. apply Hout. unfold rule_keys.
    rewrite bool_decide_eq_true_2 by (by apply elem_of_dom).
    unfold identity_keys. set_solver.
  - intros Hoab Hdata. apply Hout. unfold rule_keys.
    rewrite !bool_decide_eq_false_2 by (by apply not_elem_of_dom).
    set_solver.
Qed.

End SchemaFacts.

Module DemoFields.

#[local] Existing Instance demo_stdlib.

Lemma normalize_text_chars_witness :
  Chars.is_ascii "J" = true ∧ Chars.is_lower "J" = false.
Proof.
  apply (normalize_text_chars "joao" "J").
  vm_compute. apply elem_of_cons. by left.
Defined.

Lemma normalize_text_idempotent_witness :
  normalize_text (normalize_text "Joao 1.000,00") = normalize_text "Joao 1.000,00"
  ∧ extract_fields_from_text_generic (normalize_text "Joao 1.000,00") tela_schema
    = extract_fields_from_text_generic "Joao 1.000,00" tela_schema.
Proof.
  apply (normalize_text_idempotent "Joao 1.000,00" tela_schema).
  intros s _. reflexivity.
Defined.

Lemma dispatch_precedence_witness :
  let schema : gmap string string :=
    {[ "numero_oab" := "Número OAB"; "data_referencia" := "Data" ]} in
  fill_missing
    (extract_fields_from_text_generic "JOAO DA SILVA 01/03/2024 123456" schema)
    schema !! "data_referencia"
  = Some None.
Proof.
  intros schema.
  refine (proj1 (dispatch_precedence "JOAO DA SILVA 01/03/2024 123456" schema
                   "data_referencia" _) _ _ _).
  - apply elem_of_dom. eexists. reflexivity.
  - eexists. reflexivity.
  - discriminate.
  - discriminate.
Defined.

End DemoFields.

(** ** [normalize_money] on values in the Brazilian format *)

Section MoneyFacts.
Local Open Scope Z_scope.
Import PyFloat.

Lemma round_half_even_near a b :
  0 < b → 2 * Z.abs (a - round_half_even (a, b) * b) ≤ b.
Proof.
  intros Hb. unfold round_half_even.
  pose proof (Z.div_mod a b ltac:(lia)) as Hdm.
  pose proof (Z.mod_pos_bound a b Hb) as Hm.
  destruct (2 * (a mod b) <? b) eqn:H1; [apply Z.ltb_lt in H1; nia|].
  apply Z.ltb_ge in H1.
  destruct (b <? 2 * (a mod b)) eqn:H2; [apply Z.ltb_lt in H2; nia|].
  apply Z.ltb_ge in H2. destruct (Z.even (a / b)); nia.
Qed.

Lemma round_half_even_unique a b n :
  0 < b → 2 * Z.abs (a - n * b) < b → round_half_even (a, b) = n.
Proof.
  intros Hb Hn. unfold round_half_even.
  pose proof (Z.div_mod a b ltac:(lia)) as Hdm.
  pose proof (Z.mod_pos_bound a b Hb) as Hm.
  assert (Hcases : a / b = n ∨ a / b = n - 1) by nia.
  destruct Hcases as [Hq|Hq]; rewrite Hq in *.
  - rewrite (proj2 (Z.ltb_lt _ _)) by nia. done.
  - rewrite (proj2 (Z.ltb_ge _ _)) by nia.
    rewrite (proj2 (Z.ltb_lt b _)) by nia. lia.
Qed.

Lemma floor_log2_range d :
  1 ≤ d < 100 * 2 ^ 46 → -7 ≤ floor_log2 d 100 ≤ 45.
Proof.
  intros [Hd1 Hd2]. unfold floor_log2.
  assert (Hl : 0 ≤ Z.log2 d ≤ 52).
  { split; [apply Z.log2_nonneg|].
    assert (Z.log2 d < 53); [|lia]. apply Z.log2_lt_pow2; lia. }
  change (Z.log2 100) with 6.
  destruct (scaled d 100 (Z.log2 d - 6)) as [a b] eqn:Hs.
  destruct (b <=? a) eqn:Hba; [|lia].
  apply Z.leb_le in Hba. split; [lia|].
  destruct (decide (Z.log2 d = 52)) as [H52|]; [|lia].
  exfalso. rewrite H52 in Hs. unfold scaled in Hs. cbn in Hs.
  injection Hs as <- <-. lia.
Qed.

(** Within the range the rounding to binary64 and then to hundredths gives
    the hundredths back. *)
Lemma format_round_exact d :
  0 ≤ d < 100 * 2 ^ 46 →
  format_2f (round_binary64 false d 100)
  = decimal (d / 100) +:+ "." +:+ two_digits (d mod 100).
Proof.
  intros [Hd0 Hd]. unfold round_binary64.
  destruct (d =? 0) eqn:Hz.
  { apply Z.eqb_eq in Hz as ->. reflexivity. }
  apply Z.eqb_neq in Hz.
  pose proof (floor_log2_range d ltac:(lia)) as Hk.
  set (k := floor_log2 d 100) in *.
  rewrite Z.max_l by lia.
  set (E := 52 - k).
  assert (HE : 7 ≤ E ≤ 59) by (unfold E; lia).
  assert (Hsc : scaled d 100 (k - 52) = (d * 2 ^ E, 100)).
  { unfold scaled. rewrite (proj2 (Z.leb_gt _ _)) by lia.
    do 3 f_equal. unfold E. lia. }
  rewrite Hsc.
  set (m := round_half_even (d * 2 ^ E, 100)).
  pose proof (round_half_even_near (d * 2 ^ E) 100 ltac:(lia)) as Hm. fold m in Hm.
  assert (HpE : 128 ≤ 2 ^ E).
  { change 128 with (2 ^ 7). apply Z.pow_le_mono_r; lia. }
  assert (HpE' : 2 ^ E ≤ 2 ^ 59) by (apply Z.pow_le_mono_r; lia).
  assert (Hm0 : 0 ≤ m) by nia.
  assert (Hmlog : Z.log2 m < 120).
  { destruct (decide (m = 0)) as [->|]; [done|].
    apply Z.log2_lt_pow2; [lia|].
    assert (d * 2 ^ E < 2 ^ 53 * 2 ^ 59) by nia.
    change (2 ^ 120) with (2 ^ 53 * 2 ^ 59 * 2 ^ 8). nia. }
  rewrite (proj2 (Z.leb_gt _ _)) by lia.
  unfold format_2f.
  assert (Hsc2 : scaled (m * 100) 1 (- (k - 52)) = (m * 100, 2 ^ E)).
  { unfold scaled. rewrite (proj2 (Z.leb_le _ _)) by lia.
    f_equal. rewrite Z.mul_1_l. f_equal. unfold E. lia. }
  rewrite Hsc2.
  rewrite (round_half_even_unique (m * 100) (2 ^ E) d) by nia.
  reflexivity.
Qed.

End MoneyFacts.

Section MoneyParse.
Local Open Scope Z_scope.
Import PyFloat.

Lemma digit_char_facts c :
  Chars.is_digit c = true →
  c ≠ "."%char ∧ c ≠ ","%char ∧ c ≠ "_"%char ∧ c ≠ "-"%char ∧ c ≠ "+"%char
  ∧ is_space c = false ∧ lower c ≠ "e"%char
  ∧ 0 ≤ digit_val c ≤ 9 ∧ digit_char (digit_val c) = c.
Proof.
  destruct c as [[] [] [] [] [] [] [] []]; intros Hd; try discriminate Hd;
    repeat split; (done || by vm_compute).
Qed.

Lemma empty_app (s : string) : "" +:+ s = s.
Proof. reflexivity. Qed.

Lemma cons_app c (s1 s2 : string) : String c s1 +:+ s2 = String c (s1 +:+ s2).
Proof. reflexivity. Qed.

Lemma point_notation_digit c s :
  Chars.is_digit c = true → point_notation (String c s) = String c (point_notation s).
Proof.
  intros (Hdot & Hcomma & _)%digit_char_facts. unfold point_notation.
  cbn [replace]. rewrite (bool_decide_eq_false_2 (c = "."%char)) by done.
  cbn [replace]. by rewrite (bool_decide_eq_false_2 (c = ","%char)) by done.
Qed.

Lemma point_notation_dot s : point_notation (String "." s) = point_notation s.
Proof. reflexivity. Qed.

Lemma point_notation_grouped ip rest :
  (∀ c, c ∈ list_ascii_of_string ip → Chars.is_digit c = true ∨ c = "."%char) →
  point_notation (ip +:+ rest)
  = string_filter Chars.is_digit ip +:+ point_notation rest.
Proof.
  induction ip as [|c ip IH]; intros Hall; [reflexivity|].
  rewrite cons_app. cbn [string_filter].
  assert (Hip : ∀ x, x ∈ list_ascii_of_string ip →
                     Chars.is_digit x = true ∨ x = "."%char).
  { intros x Hx. apply Hall. cbn. apply elem_of_cons. by right. }
  destruct (Hall c) as [Hd| ->]; [cbn; apply elem_of_cons; by left| |].
  - rewrite Hd, point_notation_digit, IH by done. reflexivity.
  - rewrite point_notation_dot, IH by done. reflexivity.
Qed.

Lemma point_notation_decimals a b :
  Chars.is_digit a = true → Chars.is_digit b = true →
  point_notation (String "," (String a (String b "")))
  = String "." (String a (String b "")).
Proof.
  intros Ha Hb. unfold point_notation. cbn [replace].
  rewrite (bool_decide_eq_false_2 (","%char = "."%char)) by done.
  cbn [replace].
  destruct (digit_char_facts a Ha) as (Ha1 & Ha2 & _).
  destruct (digit_char_facts b Hb) as (Hb1 & Hb2 & _).
  rewrite (bool_decide_eq_false_2 (a = "."%char)) by done. cbn [replace].
  rewrite (bool_decide_eq_false_2 (b = "."%char)) by done. cbn [replace].
  rewrite (bool_decide_eq_true_2 (","%char = ","%char)) by done.
  rewrite (bool_decide_eq_false_2 (a = ","%char)) by done.
  rewrite (bool_decide_eq_false_2 (b = ","%char)) by done.
  reflexivity.
Qed.

Lemma list_of_app (s1 s2 : string) :
  list_ascii_of_string (s1 +:+ s2)
  = (list_ascii_of_string s1 ++ list_ascii_of_string s2)%list.
Proof.
  induction s1 as [|c s1 IH]; [reflexivity|].
  rewrite cons_app. cbn. by rewrite IH.
Qed.

Lemma underscores_plain prev (l : list ascii) :
  prev ≠ "_"%char → "_"%char ∉ l → underscores prev l = Some l.
Proof.
  revert prev. induction l as [|c l IH]; intros prev Hprev Hl; cbn [underscores].
  - by rewrite bool_decide_eq_false_2.
  - assert (Hc : c ≠ "_"%char).
    { intros ->. apply Hl. apply elem_of_cons. by left. }
    rewrite (bool_decide_eq_false_2 (c = "_"%char)) by done.
    rewrite (bool_decide_eq_false_2 (prev = "_"%char)) by done. cbn.
    rewrite IH; [done|done|]. intros Hin. apply Hl. apply elem_of_cons. by right.
Qed.

Lemma lstrip_plain c (l : list ascii) :
  is_space c = false → lstrip (c :: l) = c :: l.
Proof. intros Hc. cbn. by rewrite Hc. Qed.

Lemma digits_run (D rest : list ascii) acc n :
  (∀ c, c ∈ D → Chars.is_digit c = true) →
  match rest with c :: _ => Chars.is_digit c = false | [] => True end →
  digits acc n (D ++ rest)%list
  = (fold_left (fun acc c => if Chars.is_digit c
                             then 10 * acc + digit_val c else acc) D acc,
     n + Z.of_nat (length D), rest).
Proof.
  revert acc n. induction D as [|c D IH]; intros acc n HD Hrest.
  - cbn [app fold_left length]. rewrite Z.add_0_r.
    destruct rest as [|c rest]; [done|]. cbn. by rewrite Hrest.
  - cbn [app digits fold_left].
    rewrite (HD c) by (apply elem_of_cons; by left).
    rewrite IH; [|intros x Hx; apply HD; apply elem_of_cons; by right|done].
    f_equal. f_equal. cbn [length]. lia.
Qed.

Lemma fold_digits_filter (l : list ascii) acc :
  fold_left (fun acc c => if Chars.is_digit c
                          then 10 * acc + digit_val c else acc)
            (list_ascii_of_string
               (string_filter Chars.is_digit (string_of_list_ascii l))) acc
  = fold_left (fun acc c => if Chars.is_digit c
                            then 10 * acc + digit_val c else acc) l acc.
Proof.
  revert acc. induction l as [|c l IH]; intros acc; [done|].
  cbn [string_of_list_ascii string_filter fold_left].
  destruct (Chars.is_digit c) eqn:Hc; cbn [list_ascii_of_string fold_left].
  - by rewrite Hc, IH.
  - by rewrite IH.
Qed.

Lemma fold_digits_nonneg (l : list ascii) acc :
  0 ≤ acc →
  0 ≤ fold_left (fun acc c => if Chars.is_digit c
                              then 10 * acc + digit_val c else acc) l acc.
Proof.
  revert acc. induction l as [|c l IH]; intros acc Hacc; [done|].
  cbn [fold_left]. apply IH. destruct (Chars.is_digit c) eqn:Hc; [|done].
  destruct (digit_char_facts c Hc) as (_ & _ & _ & _ & _ & _ & _ & Hv & _). lia.
Qed.

Lemma two_digits_chars a b :
  Chars.is_digit a = true → Chars.is_digit b = true →
  two_digits (10 * digit_val a + digit_val b) = String a (String b "").
Proof.
  intros (_ & _ & _ & _ & _ & _ & _ & Ha & Hca)%digit_char_facts
         (_ & _ & _ & _ & _ & _ & _ & Hb & Hcb)%digit_char_facts.
  rewrite <- Hca at 2. rewrite <- Hcb at 2.
  assert (Hx : ∀ x, 0 ≤ x ≤ 9 →
            x = 0 ∨ x = 1 ∨ x = 2 ∨ x = 3 ∨ x = 4 ∨ x = 5 ∨ x = 6 ∨ x = 7
            ∨ x = 8 ∨ x = 9) by (intros; lia).
  destruct (Hx _ Ha) as [->|[->|[->|[->|[->|[->|[->|[->|[->| ->]]]]]]]]];
    destruct (Hx _ Hb) as [->|[->|[->|[->|[->|[->|[->|[->|[->| ->]]]]]]]]];
    reflexivity.
Qed.

End MoneyParse.

Section MoneyTheorems.
Local Open Scope Z_scope.
Import PyFloat.

Lemma sign_digit c (l : list ascii) :
  Chars.is_digit c = true → sign (c :: l) = (false, c :: l).
Proof.
  destruct c as [[] [] [] [] [] [] [] []]; intros Hd; try discriminate Hd;
    reflexivity.
Qed.

Lemma digit_is_ascii c : Chars.is_digit c = true → Chars.is_ascii c = true.
Proof.
  destruct c as [[] [] [] [] [] [] [] []]; intros Hd; try discriminate Hd;
    reflexivity.
Qed.

(** A text that is all 7-bit reaches the number reader as it is, whatever
    the digit table. *)
Lemma transform_ascii td (l : list ascii) :
  (∀ c, c ∈ l → Chars.is_ascii c = true) → transform td l = l.
Proof.
  intros Hall. unfold transform.
  replace (forallb Chars.is_ascii l) with true; [done|].
  symmetry. apply forallb_forall. intros c Hc. apply Hall.
  by apply list_elem_of_In.
Qed.

Lemma of_string_decimal td (D : string) a b :
  D ≠ "" →
  (∀ c, c ∈ list_ascii_of_string D → Chars.is_digit c = true) →
  Chars.is_digit a = true → Chars.is_digit b = true →
  of_string td (D +:+ String "." (String a (String b "")))
  = Some (round_binary64 false
            (100 * fold_left (fun acc c => if Chars.is_digit c
                                           then 10 * acc + digit_val c else acc)
                             (list_ascii_of_string D) 0
             + 10 * digit_val a + digit_val b) 100).
Proof.
  intros Hne HD Ha Hb. unfold of_string. rewrite list_of_app.
  cbn [list_ascii_of_string].
  set (LD := list_ascii_of_string D) in *.
  rewrite transform_ascii.
  2:{ intros c [Hin|Hin]%elem_of_app; [by apply digit_is_ascii, HD|].
      apply elem_of_cons in Hin as [->|Hin]; [done|].
      apply elem_of_cons in Hin as [->|Hin]; [by apply digit_is_ascii|].
      apply elem_of_cons in Hin as [->|Hin]; [by apply digit_is_ascii|].
      by apply elem_of_nil in Hin. }
  destruct (digit_char_facts a Ha) as (_ & _ & Ha_ & _ & _ & Hsa & _).
  destruct (digit_char_facts b Hb) as (_ & _ & Hb_ & _ & _ & Hsb & _).
  assert (Hplain : "_"%char ∉ (LD ++ ["."%char; a; b])%list).
  { intros [Hin|Hin]%elem_of_app.
    - by destruct (digit_char_facts _ (HD _ Hin)) as (_ & _ & ? & _).
    - apply elem_of_cons in Hin as [?|Hin]; [done|].
      apply elem_of_cons in Hin as [?|Hin]; [done|].
      apply elem_of_cons in Hin as [?|Hin]; [done|]. by apply elem_of_nil in Hin. }
  rewrite underscores_plain by done.
  destruct LD as [|c0 LD'] eqn:HLD.
  { exfalso. apply Hne. rewrite <- (string_of_list_ascii_of_string D).
    fold LD. by rewrite HLD. }
  assert (Hc0 : Chars.is_digit c0 = true) by (apply HD, elem_of_cons; by left).
  destruct (digit_char_facts c0 Hc0) as (_ & _ & _ & _ & _ & Hs0 & _).
  assert (Hstrip : strip ((c0 :: LD') ++ ["."%char; a; b])%list
                   = ((c0 :: LD') ++ ["."%char; a; b])%list).
  { unfold strip. cbn [app]. rewrite lstrip_plain by done.
    change (c0 :: (LD' ++ ["."%char; a; b]))%list
      with ((c0 :: LD') ++ ["."%char; a; b])%list.
    rewrite rev_app_distr. cbn [rev app]. rewrite lstrip_plain by done.
    cbn [rev]. rewrite !rev_app_distr, rev_involutive. cbn [rev app].
    by rewrite <- !app_assoc. }
  rewrite Hstrip.
  assert (Hparse : parse_number ((c0 :: LD') ++ ["."%char; a; b])%list
            = Some (of_decimal false
                      (10 * (10 * fold_left
                                    (fun acc c => if Chars.is_digit c
                                                  then 10 * acc + digit_val c
                                                  else acc) (c0 :: LD') 0
                             + digit_val a) + digit_val b)
                      (0 - (0 + 1 + 1)))).
  { unfold parse_number.
    change ((c0 :: LD') ++ ["."%char; a; b])%list
      with (c0 :: (LD' ++ ["."%char; a; b]))%list at 1.
    rewrite sign_digit by done.
    change (c0 :: (LD' ++ ["."%char; a; b]))%list
      with ((c0 :: LD') ++ ["."%char; a; b])%list.
    rewrite digits_run by (done || reflexivity).
    cbn [digits]. rewrite Ha. cbn [digits]. rewrite Hb.
    rewrite (proj2 (Z.eqb_neq _ _)) by lia.
    reflexivity. }
  rewrite Hparse. f_equal. unfold of_decimal.
  change (0 <=? 0 - (0 + 1 + 1)) with false. cbv iota.
  change (10 ^ (- (0 - (0 + 1 + 1)))) with 100. f_equal. lia.
Qed.

Context `{Stdlib}.

Lemma normalize_money_accepts ip a b :
  grouped_digits ip → Chars.is_digit a = true → Chars.is_digit b = true →
  normalize_money (ip +:+ String "," (String a (String b "")))
  = Some (format_2f
            (round_binary64 false
               (100 * digits_value ip + 10 * digit_val a + digit_val b) 100)).
Proof.
  intros [Hall (c1 & Hc1 & Hd1)] Ha Hb. unfold normalize_money.
  rewrite bool_decide_eq_false_2.
  2:{ destruct ip; [by apply elem_of_nil in Hc1 | done]. }
  fold (point_notation (ip +:+ String "," (String a (String b "")))).
  rewrite point_notation_grouped, point_notation_decimals by done.
  rewrite of_string_decimal; try done.
  - unfold digits_value.
    rewrite <- (string_of_list_ascii_of_string ip) at 1.
    by rewrite fold_digits_filter.
  - clear -Hc1 Hd1. induction ip as [|c ip IH]; [by apply elem_of_nil in Hc1|].
    cbn in Hc1. apply elem_of_cons in Hc1 as [<-|Hin].
    + cbn. by rewrite Hd1.
    + cbn. destruct (Chars.is_digit c); [done | by apply IH].
  - intros c Hc. by apply string_filter_In in Hc as [? _].
Qed.

Lemma format_cents_exact ip a b :
  Chars.is_digit a = true → Chars.is_digit b = true →
  digits_value ip < 2 ^ 46 →
  format_2f (round_binary64 false
               (100 * digits_value ip + 10 * digit_val a + digit_val b) 100)
  = decimal (digits_value ip) +:+ "." +:+ String a (String b "").
Proof.
  intros Ha Hb Hsmall.
  set (cents := 100 * digits_value ip + 10 * digit_val a + digit_val b).
  assert (H0 : 0 ≤ digits_value ip) by (by apply fold_digits_nonneg).
  destruct (digit_char_facts a Ha) as (_ & _ & _ & _ & _ & _ & _ & Hva & _).
  destruct (digit_char_facts b Hb) as (_ & _ & _ & _ & _ & _ & _ & Hvb & _).
  rewrite format_round_exact by (unfold cents; lia).
  assert (Hq : cents / 100 = digits_value ip).
  { symmetry. apply (Z.div_unique cents 100 _ (10 * digit_val a + digit_val b));
      unfold cents; lia. }
  assert (Hr : cents mod 100 = 10 * digit_val a + digit_val b).
  { symmetry. apply (Z.mod_unique cents 100 (digits_value ip)); unfold cents; lia. }
  by rewrite Hq, Hr, two_digits_chars.
Qed.

(** X11. On a value in the Brazilian format (an integer part of digits and
    grouping dots, a comma, two decimals) [float] always accepts the
    rewritten string, so the [except] branch is not taken: the result is
    the nearest double of the value, printed with two decimals. While the
    integer part is below [2^46] that is the value itself: the integer part
    without dots and leading zeros, a point, and the two decimals. *)
Theorem normalize_money_exact ip a b :
  grouped_digits ip → Chars.is_digit a = true → Chars.is_digit b = true →
  let value := ip +:+ String "," (String a (String b "")) in
  let cents := 100 * digits_value ip + 10 * digit_val a + digit_val b in
  normalize_money value = Some (format_2f (round_binary64 false cents 100))
  ∧ (digits_value ip < 2 ^ 46 →
     normalize_money value
     = Some (decimal (digits_value ip) +:+ "." +:+ String a (String b ""))).
Proof.
  intros Hip Ha Hb value cents.
  assert (Hnm : normalize_money value
                = Some (format_2f (round_binary64 false cents 100))).
  { by apply normalize_money_accepts. }
  split; [exact Hnm|]. intros Hsmall. rewrite Hnm. f_equal.
  by apply format_cents_exact.
Qed.

End MoneyTheorems.

Module DemoMoney.

#[local] Existing Instance demo_stdlib.

(** The value of the specification's example, and the first value above
    the bound, where the nearest double is no longer the value. *)
Lemma normalize_money_exact_witness :
  normalize_money "1.234.567,89" = Some "1234567.89"
  ∧ normalize_money "70.368.744.177.664,01" = Some "70368744177664.02".
Proof.
  split.
  - refine (proj2 (normalize_money_exact "1.234.567" "8" "9" _ _ _) _).
    + split.
      * intros c Hc. cbn in Hc.
        repeat (apply elem_of_cons in Hc as [->|Hc]; [by (left + right)|]).
        by apply elem_of_nil in Hc.
      * exists "1"%char. split; [apply elem_of_cons; by left | reflexivity].
    + reflexivity.
    + reflexivity.
    + reflexivity.
  - vm_compute. reflexivity.
Defined.

End DemoMoney.

(** ** [normalize_money], case by case *)

Section MoneyCases.
Local Open Scope Z_scope.
Import PyFloat.
Context `{Stdlib}.

Lemma point_notation_length (s : string) :
  (String.length (point_notation s) ≤ String.length s)%nat.
Proof.
  unfold point_notation. induction s as [|c s IH]; [done|].
  cbn [replace]. case_bool_decide as Hdot.
  - change ("" +:+ ?x) with x. cbn [String.length]. lia.
  - cbn [replace]. case_bool_decide.
    + change ("." +:+ ?x) with (String "." x). cbn [String.length]. lia.
    + cbn [String.length]. lia.
Qed.

Lemma point_notation_cons c (s : string) :
  point_notation (String c s)
  = if bool_decide (c = "."%char) then point_notation s
    else if bool_decide (c = ","%char) then String "." (point_notation s)
    else String c (point_notation s).
Proof.
  unfold point_notation. cbn [replace]. case_bool_decide; [done|].
  cbn [replace]. by case_bool_decide.
Qed.

(** The rewritten string is the input exactly when the input has neither
    a dot nor a comma. *)
Lemma point_notation_fixed (value : string) :
  point_notation value = value
  ↔ ∀ c, c ∈ list_ascii_of_string value → c ≠ "."%char ∧ c ≠ ","%char.
Proof.
  induction value as [|c s IH]; [split; [by intros _ c ?%elem_of_nil | done]|].
  rewrite point_notation_cons. cbn [list_ascii_of_string].
  case_bool_decide as Hdot; [|case_bool_decide as Hcomma].
  - subst c. split.
    + intros Heq. pose proof (point_notation_length s) as Hlen.
      rewrite Heq in Hlen. cbn in Hlen. lia.
    + intros Hall. destruct (Hall "."%char) as [? _]; [apply elem_of_cons; by left|].
      done.
  - subst c. split; [done|].
    intros Hall. destruct (Hall ","%char) as [_ ?]; [apply elem_of_cons; by left|].
    done.
  - split.
    + intros [= Heq] x [->|Hx]%elem_of_cons; [done|]. by apply IH.
    + intros Hall. f_equal. apply IH. intros x Hx. apply Hall.
      apply elem_of_cons. by right.
Qed.

(** C5, as the code has it. The empty string gives [None]. A value in the
    Brazilian format (digits with grouping dots, a comma, two decimals) is
    always accepted by [float] and comes back as its nearest double printed
    with two decimals, which below [2^46] is the value itself: the digits
    of the integer part without dots and leading zeros, a point, the two
    decimals; so for the two examples. In general, when [float] accepts the
    rewritten string (dots removed, commas turned into points) the result
    is that number printed with two decimals, and when [float] rejects it
    the result is the rewritten string, which is the input only if the
    input has neither a dot nor a comma. *)
Theorem normalize_money_cases :
  normalize_money "" = None
  ∧ (∀ ip a b,
       grouped_digits ip → Chars.is_digit a = true → Chars.is_digit b = true →
       normalize_money (ip +:+ String "," (String a (String b "")))
       = Some (format_2f
                 (round_binary64 false
                    (100 * digits_value ip + 10 * digit_val a + digit_val b) 100))
       ∧ (digits_value ip < 2 ^ 46 →
          normalize_money (ip +:+ String "," (String a (String b "")))
          = Some (decimal (digits_value ip) +:+ "." +:+ String a (String b ""))))
  ∧ normalize_money "76.871,20" = Some "76871.20"
  ∧ normalize_money "1.234.567,89" = Some "1234567.89"
  ∧ (∀ value x,
       value ≠ "" → of_string to_decimal (point_notation value) = Some x →
       normalize_money value = Some (format_2f x))
  ∧ (∀ value,
       value ≠ "" → of_string to_decimal (point_notation value) = None →
       normalize_money value = Some (point_notation value))
  ∧ (∀ value,
       point_notation value = value
       ↔ ∀ c, c ∈ list_ascii_of_string value → c ≠ "."%char ∧ c ≠ ","%char).
Proof.
  assert (Hvalue : ∀ ip a b,
    grouped_digits ip → Chars.is_digit a = true → Chars.is_digit b = true →
    normalize_money (ip +:+ String "," (String a (String b "")))
    = Some (format_2f
              (round_binary64 false
                 (100 * digits_value ip + 10 * digit_val a + digit_val b) 100))
    ∧ (digits_value ip < 2 ^ 46 →
       normalize_money (ip +:+ String "," (String a (String b "")))
       = Some (decimal (digits_value ip) +:+ "." +:+ String a (String b "")))).
  { intros ip a b Hip Ha Hb. rewrite normalize_money_accepts by done.
    split; [done|]. intros Hsmall. f_equal. by apply format_cents_exact. }
  assert (Hgrouped : ∀ ip : string,
    forallb (fun c => Chars.is_digit c || bool_decide (c = "."%char))
            (list_ascii_of_string ip) = true →
    existsb Chars.is_digit (list_ascii_of_string ip) = true →
    grouped_digits ip).
  { intros ip Hall Hex. split.
    - intros c Hc%list_elem_of_In.
      apply (proj1 (forallb_forall _ _) Hall) in Hc.
      apply orb_true_iff in Hc as [?|?%bool_decide_eq_true]; by (left + right).
    - apply existsb_exists in Hex as (c & Hc%list_elem_of_In & Hd). by exists c. }
  split_and!.
  - reflexivity.
  - exact Hvalue.
  - apply (proj2 (Hvalue "76.871" "2"%char "0"%char
                    ltac:(by apply Hgrouped) eq_refl eq_refl)).
    by vm_compute.
  - apply (proj2 (Hvalue "1.234.567" "8"%char "9"%char
                    ltac:(by apply Hgrouped) eq_refl eq_refl)).
    by vm_compute.
  - intros value x Hne Hok. unfold normalize_money.
    rewrite bool_decide_eq_false_2 by done.
    fold (point_notation value). by rewrite Hok.
  - intros value Hne Hfail. unfold normalize_money.
    rewrite bool_decide_eq_false_2 by done.
    fold (point_notation value). by rewrite Hfail.
  - apply point_notation_fixed.
Qed.

End MoneyCases.

Module DemoCases.

#[local] Existing Instance demo_stdlib.

(** A value with leading zeros; a value written with Arabic-Indic digits,
    which [float] reads; a string [float] rejects. *)
Lemma normalize_money_cases_witness :
  normalize_money "007,50" = Some "7.50"
  ∧ normalize_money "١٢,٥" = Some "12.50"
  ∧ normalize_money "1,2,3" = Some (point_notation "1,2,3").
Proof.
  destruct (@normalize_money_cases demo_stdlib)
    as (_ & Hvalue & _ & _ & Haccept & Hreject & _).
  split_and!.
  - refine (proj2 (Hvalue "007" "5"%char "0"%char _ _ _) _).
    + split.
      * intros c Hc. cbn in Hc.
        repeat (apply elem_of_cons in Hc as [->|Hc]; [by (left + right)|]).
        by apply elem_of_nil in Hc.
      * exists "0"%char. split; [apply elem_of_cons; by left | reflexivity].
    + reflexivity.
    + reflexivity.
    + reflexivity.
  - apply (Haccept "١٢,٥" (PyFloat.Fin false 7036874417766400 (-49))); [discriminate|].
    vm_compute. reflexivity.
  - apply Hreject; [discriminate|]. vm_compute. reflexivity.
Defined.

(** C5 as stated fails: [float] rejects ["1.2.3"], and what comes back is
    that string, not the input ["1,2,3"]. *)
Lemma normalize_money_not_original :
  PyFloat.of_string to_decimal (point_notation "1,2,3") = None
  ∧ normalize_money "1,2,3" = Some "1.2.3"
  ∧ normalize_money "1,2,3" ≠ Some "1,2,3".
Proof.
  split; [vm_compute; reflexivity|]. split; [vm_compute; reflexivity|].
  vm_compute. discriminate.
Qed.

End DemoCases.

(** ** The matcher finds what the patterns match *)

Section ReFacts.
Import ReSpec.
Variable s : list ascii.

Lemma elem_of_flat_map (f : nat → list nat) (l : list nat) k :
  k ∈ flat_map f l ↔ ∃ j, j ∈ l ∧ k ∈ f j.
Proof.
  induction l as [|x l IH]; cbn [flat_map].
  - split; [by intros ?%elem_of_nil | by intros (j & ?%elem_of_nil & _)].
  - rewrite elem_of_app, IH. split.
    + intros [Hk|(j & Hj & Hk)].
      * exists x. split; [apply elem_of_cons; by left | done].
      * exists j. split; [apply elem_of_cons; by right | done].
    + intros (j & [->|Hj]%elem_of_cons & Hk); [by left | right; eauto].
Qed.

Lemma one_spec p i k : k ∈ one s p i ↔ class_at s p i ∧ k = S i.
Proof.
  unfold one, class_at. destruct (s !! i) as [c|]; [destruct (p c) eqn:Hp|].
  - rewrite list_elem_of_singleton. split; [intros ->; eauto | by intros [_ ->]].
  - split; [by intros ?%elem_of_nil | intros [(c' & [= <-] & ?) _]; congruence].
  - split; [by intros ?%elem_of_nil | by intros [(c' & [=] & _) _]].
Qed.

Lemma stop_spec (lo i k : nat) :
  k ∈ (if decide (lo = 0) then [i] else []) ↔ lo = 0 ∧ k = i.
Proof.
  destruct (decide (lo = 0)).
  - rewrite list_elem_of_singleton. naive_solver.
  - split; [by intros ?%elem_of_nil | naive_solver].
Qed.

Lemma rep_spec (step : nat → list nat) n lo i k :
  k ∈ rep step n lo i
  ↔ ∃ m, lo ≤ m ≤ n ∧ power (fun a b => b ∈ step a) m i k.
Proof.
  revert lo i. induction n as [|n IH]; intros lo i; cbn [rep].
  - rewrite stop_spec. split.
    + intros [-> ->]. exists 0. by split; [lia|].
    + intros (m & Hm & Hp). assert (m = 0) as -> by lia. cbn in Hp. split; [lia|done].
  - rewrite elem_of_app, elem_of_flat_map, stop_spec. split.
    + intros [(j & Hj & Hk)|[-> ->]].
      * apply IH in Hk as (m & Hm & Hp). exists (S m). split; [lia|].
        cbn. eauto.
      * exists 0. by split; [lia|].
    + intros (m & Hm & Hp). destruct m as [|m].
      * cbn in Hp. right. split; [lia|done].
      * cbn in Hp. destruct Hp as (j & Hj & Hp). left. exists j. split; [done|].
        apply IH. exists m. split; [lia|done].
Qed.

Lemma power_mono (R R' : nat → nat → Prop) m i k :
  (∀ a b, R a b → R' a b) → power R m i k → power R' m i k.
Proof.
  intros HR. revert i. induction m as [|m IH]; intros i; cbn; [done|].
  intros (j & Hj & Hp). eauto.
Qed.

(** Whatever the matcher returns is a match. *)
Lemma ends_sound r i k : k ∈ ends s r i → matches s r i k.
Proof.
  revert i k. induction r as [c| | | |r1 IH1 r2 IH2|r IH lo hi]; intros i k;
    cbn [ends matches].
  - by rewrite one_spec.
  - by rewrite one_spec.
  - by rewrite one_spec.
  - destruct (boundary s i); [|by intros ?%elem_of_nil].
    rewrite list_elem_of_singleton. by intros ->.
  - rewrite elem_of_flat_map. intros (j & Hj & Hk). eauto.
  - rewrite rep_spec. intros (m & Hm & Hp). exists m. split; [lia|]. split.
    + destruct hi; cbn; [lia|done].
    + by apply (power_mono (fun a b => b ∈ ends s r a)).
Qed.

Lemma matches_range r i k :
  matches s r i k → i ≤ k ∧ (i < k → k ≤ length s).
Proof.
  revert i k. induction r as [c| | | |r1 IH1 r2 IH2|r IH lo hi]; intros i k;
    cbn [matches].
  1-3: intros [(c' & Hc & _) ->]; apply lookup_lt_Some in Hc; lia.
  - intros [_ ->]. lia.
  - intros (j & H1%IH1 & H2%IH2). lia.
  - intros (m & _ & _ & Hp). revert i Hp.
    induction m as [|m IHm]; intros i; cbn; [intros ->; lia|].
    intros (j & Hj%IH & Hp%IHm). lia.
Qed.

Lemma power_min_len (R : nat → nat → Prop) d m i k :
  (∀ a b, R a b → a + d ≤ b) → power R m i k → i + m * d ≤ k.
Proof.
  intros HR. revert i. induction m as [|m IH]; intros i; cbn; [intros ->; lia|].
  intros (j & Hj%HR & Hp%IH). lia.
Qed.

Lemma matches_min_len r i k : matches s r i k → i + min_len r ≤ k.
Proof.
  revert i k. induction r as [c| | | |r1 IH1 r2 IH2|r IH lo hi]; intros i k;
    cbn [matches min_len].
  1-3: intros [_ ->]; lia.
  - intros [_ ->]. lia.
  - intros (j & H1%IH1 & H2%IH2). lia.
  - intros (m & Hlo & _ & Hp).
    apply (power_min_len _ (min_len r)) in Hp; [nia|done].
Qed.

Lemma power_steps (R : nat → nat → Prop) m i k :
  (∀ a b, R a b → a < b ∧ b ≤ length s) → power R m i k → m ≤ length s.
Proof.
  intros HR Hp.
  assert (Hgen : i + m ≤ k ∧ (0 < m → k ≤ length s)).
  { revert i Hp. induction m as [|m IH]; intros i; cbn; [intros ->; lia|].
    intros (j & Hj%HR & Hp). destruct m as [|m].
    - cbn in Hp. subst. lia.
    - apply IH in Hp. lia. }
  destruct m; lia.
Qed.

(** Every match is returned by the matcher. *)
Lemma ends_complete r i k :
  productive r → matches s r i k → k ∈ ends s r i.
Proof.
  revert i k. induction r as [c| | | |r1 IH1 r2 IH2|r IH lo hi]; intros i k;
    cbn [ends matches productive].
  - by rewrite one_spec.
  - by rewrite one_spec.
  - by rewrite one_spec.
  - intros _ [-> ->]. by apply list_elem_of_singleton.
  - intros [Hp1 Hp2] (j & H1 & H2). apply elem_of_flat_map. eauto.
  - intros Hprod (m & Hlo & Hhi & Hp). apply rep_spec.
    exists m. split.
    + destruct hi as [h|]; cbn in Hhi; [lia|]. destruct Hprod as [_ Hmin].
      split; [done|]. apply (power_steps (matches s r) m i k); [|done].
      intros a b Hab. pose proof (matches_min_len _ _ _ Hab).
      pose proof (matches_range _ _ _ Hab). lia.
    + apply (power_mono (matches s r)); [|done].
      intros a b. apply IH. by destruct hi as [h|]; [|destruct Hprod].
Qed.

Lemma ends_spec r i k : productive r → k ∈ ends s r i ↔ matches s r i k.
Proof. split; [apply ends_sound | by apply ends_complete]. Qed.

Lemma scan_some r fuel i a b :
  scan s r fuel i = Some (a, b)
  ↔ i ≤ a < i + fuel ∧ head (ends s r a) = Some b
    ∧ ∀ a', i ≤ a' < a → ends s r a' = [].
Proof.
  revert i. induction fuel as [|fuel IH]; intros i; cbn [scan].
  - split; [done | lia].
  - unfold match_at. destruct (ends s r i) as [|j js] eqn:He; cbn [head].
    + rewrite IH. split.
      * intros (Ha & Hb & Hno). split; [lia|]. split; [done|].
        intros a' Ha'. destruct (decide (a' = i)) as [->|]; [done|]. apply Hno. lia.
      * intros (Ha & Hb & Hno). destruct (decide (a = i)) as [->|].
        { rewrite He in Hb. done. }
        split; [lia|]. split; [done|]. intros a' Ha'. apply Hno. lia.
    + split.
      * intros [= <- <-]. rewrite He. split; [lia|]. split; [done|]. lia.
      * intros (Ha & Hb & Hno). destruct (decide (a = i)) as [->|].
        { rewrite He in Hb. by injection Hb as ->. }
        rewrite Hno in He by lia. done.
Qed.

Lemma scan_none r fuel i :
  scan s r fuel i = None ↔ ∀ a, i ≤ a < i + fuel → ends s r a = [].
Proof.
  revert i. induction fuel as [|fuel IH]; intros i; cbn [scan].
  - split; [lia | done].
  - unfold match_at. destruct (ends s r i) as [|j js] eqn:He; cbn [head].
    + rewrite IH. split.
      * intros Hno a Ha. destruct (decide (a = i)) as [->|]; [done|]. apply Hno. lia.
      * intros Hno a Ha. apply Hno. lia.
    + split; [done|]. intros Hno. rewrite Hno in He by lia. done.
Qed.

End ReFacts.

Section SearchFacts.
Import ReSpec.
Variable s : list ascii.

Lemma power_class (R : nat → nat → Prop) p m i k :
  (∀ a b, R a b ↔ class_at s p a ∧ b = S a) →
  power R m i k ↔ k = i + m ∧ run s p i k.
Proof.
  intros HR. revert i. induction m as [|m IH]; intros i; cbn [power].
  - split; [intros ->; split; [lia | intros q Hq; lia] | intros [-> _]; lia].
  - split.
    + intros (j & [Hc ->]%HR & [-> Hrun]%IH). split; [lia|].
      intros q Hq. destruct (decide (q = i)) as [->|]; [done|]. apply Hrun. lia.
    + intros [-> Hrun]. exists (S i). split.
      * apply HR. split; [apply Hrun; lia | done].
      * apply IH. split; [lia|]. intros q Hq. apply Hrun. lia.
Qed.

Lemma repeat_class r p lo hi i k :
  (∀ a b, matches s r a b ↔ class_at s p a ∧ b = S a) →
  matches s (Repeat r lo hi) i k
  ↔ ∃ n, lo ≤ n ∧ within hi n ∧ k = i + n ∧ run s p i k.
Proof.
  intros Hr. cbn [matches]. split.
  - intros (m & Hlo & Hhi & Hp). apply (power_class _ p) in Hp as [-> Hrun]; [|done].
    exists m. done.
  - intros (n & Hlo & Hhi & -> & Hrun). exists n. split; [done|]. split; [done|].
    apply (power_class _ p); done.
Qed.

Lemma digit_is_word_at i : class_at s Chars.is_digit i → word_at s i = true.
Proof.
  intros (c & Hc & Hd). unfold word_at. rewrite Hc. unfold Chars.is_word.
  by rewrite Hd.
Qed.

Lemma upper_is_word_at i : class_at s Chars.is_upper i → word_at s i = true.
Proof.
  intros (c & Hc & Hd). unfold word_at. rewrite Hc. unfold Chars.is_word.
  rewrite Hd. by rewrite orb_true_r.
Qed.

(** No word boundary between two word characters. *)
Lemma no_boundary_inside i :
  word_at s i = true → word_at s (S i) = true → boundary s (S i) = false.
Proof. intros H1 H2. unfold boundary. by rewrite H1, H2. Qed.

Lemma search_span_some r a b :
  productive r →
  search_span s r = Some (a, b) →
  a ≤ b ≤ length s ∧ matches s r a b ∧ head (ends s r a) = Some b
  ∧ ∀ a' b', a' < a → ¬ matches s r a' b'.
Proof.
  intros Hprod (Ha & Hb & Hno)%scan_some.
  assert (Hm : matches s r a b).
  { apply ends_sound. apply head_Some in Hb as [l' ->]. apply elem_of_cons. by left. }
  pose proof (matches_range _ _ _ _ Hm).
  split; [lia|]. split; [done|]. split; [done|].
  intros a' b' Ha' Hm'%(ends_complete s r a' b' Hprod).
  rewrite Hno in Hm' by lia. by apply elem_of_nil in Hm'.
Qed.

Lemma search_span_none r :
  productive r → 0 < min_len r →
  search_span s r = None ↔ ∀ a b, ¬ matches s r a b.
Proof.
  intros Hprod Hmin. unfold search_span. rewrite scan_none. split.
  - intros Hno a b Hm. pose proof (matches_min_len _ _ _ _ Hm).
    pose proof (matches_range _ _ _ _ Hm).
    apply (ends_complete s r a b Hprod) in Hm.
    rewrite Hno in Hm by lia. by apply elem_of_nil in Hm.
  - intros Hno a _. destruct (ends s r a) as [|j js] eqn:He; [done|].
    exfalso. apply (Hno a j). apply ends_sound. rewrite He. apply elem_of_cons. by left.
Qed.

Lemma length_slice a b : b ≤ length s → length (slice s a b) = b - a.
Proof. intros Hb. unfold slice. rewrite length_take, length_drop. lia. Qed.

Lemma lookup_slice a b q : q < b - a → slice s a b !! q = s !! (a + q).
Proof. intros Hq. unfold slice. by rewrite lookup_take_lt, lookup_drop. Qed.

Lemma slice_split a j b :
  a ≤ j ≤ b → slice s a b = slice s a j ++ slice s j b.
Proof.
  intros Hj. unfold slice.
  replace (drop j s) with (drop (j - a) (drop a s))
    by (rewrite drop_drop; f_equal; lia).
  rewrite take_take_drop. f_equal. lia.
Qed.

End SearchFacts.

Section NumberAndDate.
Import ReSpec.
Variable s : list ascii.

Lemma digit_atom a b :
  matches s Digit a b ↔ class_at s Chars.is_digit a ∧ b = S a.
Proof. reflexivity. Qed.

Lemma upper_atom a b :
  matches s Upper a b ↔ class_at s Chars.is_upper a ∧ b = S a.
Proof. reflexivity. Qed.

Lemma lit_at c i :
  class_at s (fun x => bool_decide (x = c)) i ↔ s !! i = Some c.
Proof.
  unfold class_at. split.
  - intros (x & Hx & Hc). apply bool_decide_eq_true in Hc. by subst.
  - intros Hc. exists c. split; [done|]. by apply bool_decide_eq_true.
Qed.

Lemma times_digit n i k :
  matches s (times n Digit) i k ↔ k = i + n ∧ run s Chars.is_digit i k.
Proof.
  unfold times. rewrite (repeat_class s Digit Chars.is_digit) by apply digit_atom.
  cbn [within]. split.
  - intros (m & H1 & H2 & -> & Hrun). assert (m = n) as -> by lia. done.
  - intros [-> Hrun]. exists n. repeat split; (lia || done).
Qed.

Lemma run_split p i j k :
  i ≤ j ≤ k → run s p i k ↔ run s p i j ∧ run s p j k.
Proof.
  intros Hj. unfold run. split.
  - intros Hr. split; intros q Hq; apply Hr; lia.
  - intros [H1 H2] q Hq. destruct (decide (q < j)); [apply H1 | apply H2]; lia.
Qed.

Lemma matches_numero a k :
  matches s re_numero a k ↔ ∃ n, k = a + n ∧ number_at s a n.
Proof.
  change (matches s re_numero a k)
    with (∃ j, (boundary s a = true ∧ j = a)
               ∧ ∃ j', matches s (Repeat Digit 4 (Some 6)) j j'
                       ∧ (boundary s j' = true ∧ k = j')).
  unfold number_at. split.
  - intros (j & [Hb ->] & j' & Hrep & Hb' & ->).
    apply (repeat_class s Digit Chars.is_digit) in Hrep
      as (n & Hlo & Hhi & -> & Hrun); [|apply digit_atom].
    cbn in Hhi. exists n. repeat split; (lia || done).
  - intros (n & -> & Hb & Hn & Hrun & Hb').
    exists a. split; [done|]. exists (a + n). split; [|done].
    apply (repeat_class s Digit Chars.is_digit); [apply digit_atom|].
    exists n. cbn. repeat split; (lia || done).
Qed.

Lemma number_at_longer a n n' : number_at s a n → number_at s a n' → ¬ n < n'.
Proof.
  intros (_ & Hn & Hrun & Hb) (_ & _ & Hrun' & _) Hlt.
  assert (Hw1 : word_at s (a + n - 1) = true).
  { apply digit_is_word_at. apply Hrun. lia. }
  assert (Hw2 : word_at s (S (a + n - 1)) = true).
  { apply digit_is_word_at. apply Hrun'. lia. }
  pose proof (no_boundary_inside s _ Hw1 Hw2) as Hnb.
  replace (S (a + n - 1)) with (a + n) in Hnb by lia. congruence.
Qed.

(** From a given position there is at most one standalone number. *)
Lemma number_at_unique a n n' : number_at s a n → number_at s a n' → n = n'.
Proof.
  intros H1 H2. pose proof (number_at_longer _ _ _ H1 H2).
  pose proof (number_at_longer _ _ _ H2 H1). lia.
Qed.

Lemma matches_data a k :
  matches s re_data a k ↔ k = a + 10 ∧ date_at s a.
Proof.
  change (matches s re_data a k)
    with (∃ j0, (boundary s a = true ∧ j0 = a)
          ∧ ∃ j1, matches s (times 2 Digit) j0 j1
          ∧ ∃ j2, (class_at s (fun x => bool_decide (x = "/"%char)) j1 ∧ j2 = S j1)
          ∧ ∃ j3, matches s (times 2 Digit) j2 j3
          ∧ ∃ j4, (class_at s (fun x => bool_decide (x = "/"%char)) j3 ∧ j4 = S j3)
          ∧ ∃ j5, matches s (times 4 Digit) j4 j5
          ∧ (boundary s j5 = true ∧ k = j5)).
  unfold date_at. split.
  - intros (j0 & [Hb ->] & j1 & [-> H1]%times_digit & j2 & [H2%lit_at ->]
            & j3 & [-> H3]%times_digit & j4 & [H4%lit_at ->]
            & j5 & [-> H5]%times_digit & Hb' & ->).
    replace (S (a + 2)) with (a + 3) in * by lia.
    replace (a + 3 + 2) with (a + 5) in * by lia.
    replace (S (a + 5)) with (a + 6) in * by lia.
    replace (a + 6 + 4) with (a + 10) in * by lia. done.
  - intros (-> & Hb & H1 & H2 & H3 & H4 & H5 & Hb').
    exists a. split; [done|].
    exists (a + 2). split; [by apply times_digit|].
    exists (a + 3). split; [split; [by apply lit_at | lia]|].
    exists (a + 5). split; [apply times_digit; split; [lia | done]|].
    exists (a + 6). split; [split; [by apply lit_at | lia]|].
    exists (a + 10). split; [apply times_digit; split; [lia | done]|]. done.
Qed.

End NumberAndDate.

Section FieldsFound.
Import ReSpec.
Context `{Stdlib} {descr : Type}.
Implicit Types (schema : gmap string descr) (text : string).

Lemma productive_numero : productive re_numero ∧ 0 < min_len re_numero.
Proof. cbn. lia. Qed.

Lemma productive_data : productive re_data ∧ 0 < min_len re_data.
Proof. cbn. lia. Qed.

Lemma length_string_of (l : list ascii) :
  list_ascii_of_string (string_of_list_ascii l) = l.
Proof. apply list_ascii_of_string_of_list_ascii. Qed.

(** X12. In the identity branch ["numero_oab"] is the leftmost standalone
    number of the normalised text: four to six digits between two word
    boundaries (so neither part of a longer digit run nor glued to a letter
    or an underscore); it is [None] exactly when the text has no standalone
    number. *)
Theorem numero_oab_is_leftmost_number text schema :
  is_Some (schema !! "numero_oab") →
  let l := list_ascii_of_string (normalize_text text) in
  match extract_fields_from_text_generic text schema !! "numero_oab" with
  | Some (Some w) =>
      let n := length (list_ascii_of_string w) in
      ∃ a, number_at l a n
           ∧ list_ascii_of_string w = slice l a (a + n)
           ∧ ∀ a' n', a' < a → ¬ number_at l a' n'
  | Some None => ∀ a n, ¬ number_at l a n
  | None => False
  end.
Proof.
  intros Hoab l. rewrite identity_branch by done. rewrite lookup_insert_eq.
  unfold Re.search. fold l.
  destruct productive_numero as [Hprod Hmin].
  destruct (search_span l re_numero) as [[a b]|] eqn:Hs.
  - apply search_span_some in Hs as (Hab & Hm & _ & Hleft); [|done].
    apply matches_numero in Hm as (n & -> & Hnum).
    rewrite length_string_of, length_slice by lia.
    replace (a + n - a) with n by lia.
    exists a. split; [done|]. split; [done|].
    intros a' n' Ha' Hn'. apply (Hleft a' (a' + n') Ha').
    apply matches_numero. eauto.
  - pose proof (proj1 (search_span_none l re_numero Hprod Hmin) Hs) as Hno.
    intros a n Hn. apply (Hno a (a + n)). apply matches_numero. eauto.
Qed.

(** X13. In the ledger branch ["data_referencia"] is the leftmost
    occurrence in the normalised text of a date [dd/dd/dddd] between two
    word boundaries; it is [None] exactly when there is none. Only the
    shape is checked, not the calendar. *)
Theorem data_referencia_is_leftmost_date text schema :
  schema !! "numero_oab" = None → is_Some (schema !! "data_referencia") →
  let l := list_ascii_of_string (normalize_text text) in
  match extract_fields_from_text_generic text schema !! "data_referencia" with
  | Some (Some w) =>
      ∃ a, date_at l a
           ∧ list_ascii_of_string w = slice l a (a + 10)
           ∧ ∀ a', a' < a → ¬ date_at l a'
  | Some None => ∀ a, ¬ date_at l a
  | None => False
  end.
Proof.
  intros Hoab Hdata l. rewrite ledger_branch by done.
  rewrite !lookup_insert_ne, lookup_insert_eq by done.
  unfold Re.search. fold l.
  destruct productive_data as [Hprod Hmin].
  destruct (search_span l re_data) as [[a b]|] eqn:Hs.
  - apply search_span_some in Hs as (Hab & Hm & _ & Hleft); [|done].
    apply matches_data in Hm as (-> & Hdate).
    rewrite length_string_of.
    exists a. split; [done|]. split; [done|].
    intros a' Ha' Hd'. apply (Hleft a' (a' + 10) Ha'). by apply matches_data.
  - pose proof (proj1 (search_span_none l re_data Hprod Hmin) Hs) as Hno.
    intros a Hd. apply (Hno a (a + 10)). by apply matches_data.
Qed.

End FieldsFound.

Section ValorFacts.
Import ReSpec.
Variable s : list ascii.

Lemma slice_nil a : slice s a a = [].
Proof. unfold slice. by rewrite Nat.sub_diag. Qed.

Lemma slice_cons a b c :
  s !! a = Some c → a < b → slice s a b = c :: slice s (S a) b.
Proof.
  intros Hc Hab. unfold slice. rewrite (drop_S s c a) by done.
  replace (b - a) with (S (b - S a)) by lia. reflexivity.
Qed.

Lemma run_bound p i k : run s p i k → i < k → k ≤ length s.
Proof.
  intros Hrun Hik. destruct (Hrun (k - 1)) as (c & Hc & _); [lia|].
  apply lookup_lt_Some in Hc. lia.
Qed.

Lemma run_slice p i k :
  run s p i k → i ≤ k →
  Forall (fun c => p c = true) (slice s i k) ∧ length (slice s i k) = k - i.
Proof.
  intros Hrun Hik.
  assert (Hlen : length (slice s i k) = k - i).
  { destruct (decide (i = k)) as [->|]; [by rewrite slice_nil, Nat.sub_diag|].
    apply length_slice. apply (run_bound p i); [done | lia]. }
  split; [|done]. apply Forall_lookup. intros q c Hq.
  assert (q < k - i) by (apply lookup_lt_Some in Hq; lia).
  rewrite lookup_slice in Hq by done.
  destruct (Hrun (i + q)) as (c' & Hc' & Hp); [lia|]. congruence.
Qed.

Lemma group_slice i j :
  matches s (Cat (Lit ".") (times 3 Digit)) i j →
  j = i + 4 ∧ j ≤ length s ∧ group_of_three (slice s i j).
Proof.
  intros (j1 & [Hdot%lit_at ->] & [-> Hrun]%times_digit).
  assert (Hb : S i + 3 ≤ length s) by (apply (run_bound _ _ _ Hrun); lia).
  split; [lia|]. split; [lia|].
  destruct (Hrun (S i)) as (x & Hx & Hdx); [lia|].
  destruct (Hrun (S (S i))) as (y & Hy & Hdy); [lia|].
  destruct (Hrun (S (S (S i)))) as (z & Hz & Hdz); [lia|].
  exists x, y, z. split; [|done].
  rewrite (slice_cons _ _ "."%char), (slice_cons _ _ x), (slice_cons _ _ y),
    (slice_cons _ _ z) by (done || lia).
  replace (S (S (S (S i)))) with (S i + 3) by lia. by rewrite slice_nil.
Qed.

Lemma groups_slice m i j :
  power (matches s (Cat (Lit ".") (times 3 Digit))) m i j →
  i ≤ j ∧ (i < j → j ≤ length s)
  ∧ ∃ groups, slice s i j = concat groups ∧ Forall group_of_three groups.
Proof.
  revert i. induction m as [|m IH]; intros i; cbn [power].
  - intros ->. split; [lia|]. split; [lia|]. exists []. by rewrite slice_nil.
  - intros (j1 & (-> & Hlen & Hg)%group_slice & (Hle & Hb & groups & Hs & Hgs)%IH).
    split; [lia|]. split; [lia|].
    exists (slice s i (i + 4) :: groups). split; [|by constructor].
    rewrite (slice_split s i (i + 4) j) by lia. cbn. by rewrite Hs.
Qed.

(** What the currency pattern matches has the Brazilian format. *)
Lemma matches_valor a k :
  matches s re_valor a k → a < k ≤ length s ∧ valor_shape (slice s a k).
Proof.
  change (matches s re_valor a k)
    with (∃ j1, matches s (Repeat Digit 1 (Some 3)) a j1
          ∧ ∃ j2, matches s (Repeat (Cat (Lit ".") (times 3 Digit)) 0 None) j1 j2
          ∧ ∃ j3, (class_at s (fun x => bool_decide (x = ","%char)) j2 ∧ j3 = S j2)
          ∧ matches s (times 2 Digit) j3 k).
  intros (j1 & Hlead & j2 & (m & _ & _ & Hgroups) & j3 & [Hcomma%lit_at ->]
          & [-> Hdec]%times_digit).
  apply (repeat_class s Digit Chars.is_digit) in Hlead
    as (n & Hlo & Hhi & -> & Hrun); [|apply digit_atom]. cbn in Hhi.
  apply groups_slice in Hgroups as (Hle & _ & groups & Hs & Hgs).
  assert (Hk : S j2 + 2 ≤ length s) by (apply (run_bound _ _ _ Hdec); lia).
  split; [lia|].
  destruct (Hdec (S j2)) as (x & Hx & Hdx); [lia|].
  destruct (Hdec (S (S j2))) as (y & Hy & Hdy); [lia|].
  destruct (run_slice _ _ _ Hrun ltac:(lia)) as [Hall Hlen].
  exists (slice s a (a + n)), groups, x, y. split.
  - rewrite (slice_split s a (a + n) (S j2 + 2)) by lia. f_equal.
    rewrite (slice_split s (a + n) j2 (S j2 + 2)) by lia. rewrite Hs. f_equal.
    rewrite (slice_cons _ _ ","%char), (slice_cons _ _ x), (slice_cons _ _ y)
      by (done || lia).
    replace (S (S (S j2))) with (S j2 + 2) by lia. by rewrite slice_nil.
  - split; [lia|]. done.
Qed.

Lemma findall_spans_sound r fuel pos a b :
  (a, b) ∈ findall_spans s r fuel pos → pos ≤ a ∧ b ∈ ends s r a.
Proof.
  revert pos. induction fuel as [|fuel IH]; intros pos; cbn [findall_spans];
    [by intros ?%elem_of_nil|].
  destruct (scan s r (S (length s) - pos) pos) as [[i j]|] eqn:Hs;
    [|by intros ?%elem_of_nil].
  apply scan_some in Hs as (Hi & Hj & _).
  intros [[= -> ->]|Hin]%elem_of_cons.
  - split; [lia|]. apply head_Some in Hj as [l' ->]. apply elem_of_cons. by left.
  - apply IH in Hin as [Hpos Hb]. split; [|done].
    assert (i ≤ j).
    { apply head_Some in Hj as [l' Hl].
      assert (Hm : matches s r i j).
      { apply ends_sound. rewrite Hl. apply elem_of_cons. by left. }
      apply matches_range in Hm. lia. }
    destruct (decide (i = j)); lia.
Qed.

End ValorFacts.

Section ValorShape.
Import ReSpec.
Local Open Scope Z_scope.

Lemma string_of_app (l1 l2 : list ascii) :
  string_of_list_ascii (l1 ++ l2)
  = string_of_list_ascii l1 +:+ string_of_list_ascii l2.
Proof. induction l1 as [|c l1 IH]; [done|]. cbn. by rewrite IH. Qed.

Lemma elem_of_concat (c : ascii) (groups : list (list ascii)) :
  c ∈ concat groups → ∃ g, c ∈ g ∧ g ∈ groups.
Proof.
  induction groups as [|g groups IH]; cbn; [by intros ?%elem_of_nil|].
  intros [Hc|Hc]%elem_of_app.
  - exists g. split; [done | apply elem_of_cons; by left].
  - destruct (IH Hc) as (g' & ? & ?). exists g'.
    split; [done | apply elem_of_cons; by right].
Qed.

(** A value of the Brazilian format is an integer part of digits and dots
    with a digit, a comma and two digits. *)
Lemma valor_shape_grouped (w : list ascii) :
  valor_shape w →
  ∃ ip a b,
    string_of_list_ascii w = ip +:+ String "," (String a (String b ""))
    ∧ grouped_digits ip ∧ Chars.is_digit a = true ∧ Chars.is_digit b = true.
Proof.
  intros (lead & groups & a & b & -> & Hlen & Hlead & Hgroups & Ha & Hb).
  exists (string_of_list_ascii (lead ++ concat groups)), a, b.
  split; [by rewrite app_assoc, string_of_app|]. split; [|done].
  unfold grouped_digits. rewrite list_ascii_of_string_of_list_ascii. split.
  - intros c [Hc|Hc]%elem_of_app.
    + left. by apply (proj1 (Forall_forall _ _) Hlead).
    + apply elem_of_concat in Hc as (g & Hcg & Hg).
      apply (proj1 (Forall_forall _ _) Hgroups) in Hg
        as (x & y & z & -> & Hx & Hy & Hz).
      repeat (apply elem_of_cons in Hcg as [->|Hcg]; [by (left + right)|]).
      by apply elem_of_nil in Hcg.
  - destruct lead as [|c lead]; [cbn in Hlen; lia|].
    exists c. split; [apply elem_of_cons; by left|].
    by apply Forall_cons in Hlead as [? _].
Qed.

End ValorShape.

Section LedgerBalances.
Import ReSpec.
Context `{Stdlib} {descr : Type}.
Implicit Types (schema : gmap string descr) (text : string).
Local Open Scope Z_scope.

Lemma productive_valor : productive re_valor ∧ (0 < min_len re_valor)%nat.
Proof. cbn. lia. Qed.

Lemma findall_valor_shape (t v : string) :
  v ∈ Re.findall re_valor t → valor_shape (list_ascii_of_string v).
Proof.
  unfold Re.findall. set (l := list_ascii_of_string t).
  change (map ?f ?x) with (f <$> x).
  intros ([a b] & -> & Hin)%list_elem_of_fmap.
  apply findall_spans_sound in Hin as [_ Hb].
  apply ends_sound, matches_valor in Hb as [_ Hshape].
  by rewrite list_ascii_of_string_of_list_ascii.
Qed.

(** X14. In the ledger branch a balance that is not [None] comes from a
    value found in the normalised text in the Brazilian format, and it is
    that value's nearest double printed with two decimals, never the raw
    or half-rewritten text; while the integer part is below [2^46] it is
    the value itself with the dots removed and a decimal point. *)
Theorem ledger_balance_is_normalised text schema key r :
  schema !! "numero_oab" = None → is_Some (schema !! "data_referencia") →
  key ∈ ["saldo_vencido"; "saldo_a_vencer"; "total"] →
  extract_fields_from_text_generic text schema !! key = Some (Some r) →
  ∃ ip a b,
    ip +:+ String "," (String a (String b ""))
      ∈ Re.findall re_valor (normalize_text text)
    ∧ valor_shape
        (list_ascii_of_string (ip +:+ String "," (String a (String b ""))))
    ∧ grouped_digits ip ∧ Chars.is_digit a = true ∧ Chars.is_digit b = true
    ∧ r = PyFloat.format_2f
            (PyFloat.round_binary64 false
               (100 * digits_value ip + 10 * PyFloat.digit_val a
                + PyFloat.digit_val b) 100)
    ∧ (digits_value ip < 2 ^ 46 →
       r = PyFloat.decimal (digits_value ip) +:+ "." +:+ String a (String b "")).
Proof.
  intros Hoab Hdata Hkey Hr. rewrite ledger_branch in Hr by done.
  set (V := Re.findall re_valor (normalize_text text)) in *.
  assert (Hv : ∃ v, v ∈ V ∧ normalize_money v = Some r).
  { apply elem_of_cons in Hkey as [->|Hkey];
      [|apply elem_of_cons in Hkey as [->|Hkey];
        [|apply elem_of_cons in Hkey as [->|Hkey];
          [|by apply elem_of_nil in Hkey]]].
    - rewrite !lookup_insert_ne, lookup_insert_eq in Hr by done.
      injection Hr as Hr. apply bind_Some in Hr as (v & Hv & Hn).
      exists v. split; [by eapply list_elem_of_lookup_2 | done].
    - rewrite !lookup_insert_ne, lookup_insert_eq in Hr by done.
      injection Hr as Hr. apply bind_Some in Hr as (v & Hv & Hn).
      exists v. split; [by eapply list_elem_of_lookup_2 | done].
    - rewrite lookup_insert_eq in Hr.
      injection Hr as Hr. apply bind_Some in Hr as (v & Hv & Hn).
      exists v. split; [by apply last_Some_elem_of | done]. }
  destruct Hv as (v & Hin & Hn).
  pose proof (findall_valor_shape _ _ Hin) as Hshape.
  destruct (valor_shape_grouped _ Hshape) as (ip & a & b & Hv & Hip & Ha & Hb).
  rewrite string_of_list_ascii_of_string in Hv. subst v.
  rewrite normalize_money_accepts in Hn by done. injection Hn as <-.
  exists ip, a, b. split_and!; try done.
  intros Hsmall. by apply format_cents_exact.
Qed.

End LedgerBalances.

Module DemoPatterns.
Import ReSpec.

#[local] Existing Instance demo_stdlib.

Lemma numero_oab_is_leftmost_number_witness :
  let l := list_ascii_of_string (normalize_text "OAB 1234567 x12345 Joao 123456 9999") in
  ∃ a, number_at l a 6
       ∧ list_ascii_of_string "123456" = slice l a (a + 6)
       ∧ ∀ a' n', a' < a → ¬ number_at l a' n'.
Proof.
  intros l.
  pose proof (numero_oab_is_leftmost_number
                "OAB 1234567 x12345 Joao 123456 9999" oab_schema
                ltac:(eexists; reflexivity)) as X.
  assert (Hf : extract_fields_from_text_generic
                 "OAB 1234567 x12345 Joao 123456 9999" oab_schema !! "numero_oab"
               = Some (Some "123456")) by (vm_compute; reflexivity).
  cbn zeta in X. rewrite Hf in X. exact X.
Defined.

Lemma data_referencia_is_leftmost_date_witness :
  let l := list_ascii_of_string (normalize_text "em 1/03/2024 e 01/03/2024.") in
  ∃ a, date_at l a
       ∧ list_ascii_of_string "01/03/2024" = slice l a (a + 10)
       ∧ ∀ a', a' < a → ¬ date_at l a'.
Proof.
  intros l.
  pose proof (data_referencia_is_leftmost_date
                "em 1/03/2024 e 01/03/2024." tela_schema
                ltac:(reflexivity) ltac:(eexists; reflexivity)) as X.
  assert (Hf : extract_fields_from_text_generic
                 "em 1/03/2024 e 01/03/2024." tela_schema !! "data_referencia"
               = Some (Some "01/03/2024")) by (vm_compute; reflexivity).
  cbn zeta in X. rewrite Hf in X. exact X.
Defined.

Lemma ledger_balance_is_normalised_witness :
  ∃ ip a b,
    ip +:+ String "," (String a (String b ""))
      ∈ Re.findall re_valor
          (normalize_text "Ref. 01/03/2024 vencido 1.000,00 a vencer 500,50")
    ∧ valor_shape
        (list_ascii_of_string (ip +:+ String "," (String a (String b ""))))
    ∧ grouped_digits ip ∧ Chars.is_digit a = true ∧ Chars.is_digit b = true
    ∧ "500.50" = PyFloat.format_2f
            (PyFloat.round_binary64 false
               (100 * digits_value ip + 10 * PyFloat.digit_val a
                + PyFloat.digit_val b) 100)
    ∧ (digits_value ip < 2 ^ 46 →
       "500.50"
       = PyFloat.decimal (digits_value ip) +:+ "." +:+ String a (String b ""))%Z.
Proof.
  apply (ledger_balance_is_normalised
           "Ref. 01/03/2024 vencido 1.000,00 a vencer 500,50" tela_schema "total").
  - reflexivity.
  - eexists. reflexivity.
  - do 2 (apply elem_of_cons; right). apply elem_of_cons. by left.
  - vm_compute. reflexivity.
Defined.

End DemoPatterns.

(** ** The name pattern: the first match found is the longest *)

Section Greedy.
Import ReSpec.
Variable s : list ascii.

Local Abbreviation desc := (StronglySorted (flip lt)).
Local Abbreviation tok := (Cat (Lit " ") (Repeat Upper 2 None)).

Lemma desc_head (l : list nat) b k : desc l → head l = Some b → k ∈ l → k ≤ b.
Proof.
  intros Hd Hb Hk. destruct l as [|x l]; [done|]. injection Hb as ->.
  apply StronglySorted_inv in Hd as [_ Hall].
  apply elem_of_cons in Hk as [->|Hk]; [lia|].
  apply (proj1 (Forall_forall _ _) Hall) in Hk. unfold flip in Hk. lia.
Qed.

Lemma desc_flat_map (f : nat → list nat) (l : list nat) :
  desc l →
  (∀ j, j ∈ l → desc (f j)) →
  (∀ j k, j ∈ l → k ∈ f j → j ≤ k) →
  (∀ j1 j2 k, j1 ∈ l → j2 ∈ l → j2 < j1 → k ∈ f j2 → k = j2) →
  desc (flat_map f l).
Proof.
  induction l as [|x l IH]; intros Hd Hf Hge Hin; cbn [flat_map]; [constructor|].
  apply StronglySorted_inv in Hd as [Hdl Hall].
  apply StronglySorted_app. split; [|split].
  - intros k1 k2 Hk1 (j2 & Hj2 & Hk2)%elem_of_flat_map. unfold flip.
    assert (j2 < x) by (apply (proj1 (Forall_forall _ _) Hall) in Hj2; done).
    assert (k2 = j2).
    { apply (Hin x j2); [apply elem_of_cons; by left | apply elem_of_cons; by right
                         | done | done]. }
    assert (x ≤ k1) by (apply Hge; [apply elem_of_cons; by left | done]). lia.
  - apply Hf. apply elem_of_cons. by left.
  - apply IH; [done | | |].
    + intros j Hj. apply Hf. apply elem_of_cons. by right.
    + intros j k Hj. apply Hge. apply elem_of_cons. by right.
    + intros j1 j2 k Hj1 Hj2. apply Hin; apply elem_of_cons; by right.
Qed.

Lemma rep_class_spec p n lo i k :
  k ∈ rep (one s p) n lo i ↔ ∃ m, lo ≤ m ≤ n ∧ k = i + m ∧ run s p i k.
Proof.
  rewrite rep_spec. split.
  - intros (m & Hm & Hp). exists m. split; [done|].
    apply (power_class s _ p) in Hp; [done|]. intros a b. apply one_spec.
  - intros (m & Hm & Hk & Hrun). exists m. split; [done|].
    apply (power_class s _ p); [|done]. intros a b. apply one_spec.
Qed.

Lemma desc_rep_class p n lo i : desc (rep (one s p) n lo i).
Proof.
  revert lo i. induction n as [|n IH]; intros lo i; cbn [rep].
  - destruct (decide (lo = 0)); repeat constructor.
  - apply StronglySorted_app. split; [|split].
    + intros k1 k2 (j & Hj & Hk1)%elem_of_flat_map Hk2. unfold flip.
      apply one_spec in Hj as [_ ->].
      apply rep_class_spec in Hk1 as (m & _ & -> & _).
      apply stop_spec in Hk2 as [_ ->]. lia.
    + unfold one. destruct (s !! i) as [c|]; [destruct (p c)|]; cbn [flat_map];
        rewrite ?app_nil_r; (apply IH || constructor).
    + destruct (decide (lo = 0)); repeat constructor.
Qed.

Lemma one_cases p i : one s p i = [] ∨ one s p i = [S i].
Proof. unfold one. destruct (s !! i) as [c|]; [destruct (p c)|]; auto. Qed.

Lemma ends_tok_upper j : class_at s Chars.is_upper j → ends s tok j = [].
Proof.
  intros (c & Hc & Hu).
  assert (Hone : one s (fun c' => bool_decide (c' = " "%char)) j = []).
  { unfold one. rewrite Hc. rewrite bool_decide_eq_false_2; [done|].
    intros ->. done. }
  cbn [ends]. by rewrite Hone.
Qed.

Lemma rep_tok_upper n j :
  class_at s Chars.is_upper j → rep (ends s tok) n 0 j = [j].
Proof. intros Hj. destruct n; cbn [rep]; [done|]. by rewrite ends_tok_upper. Qed.

Lemma ends_tok_spec j k :
  k ∈ ends s tok j
  ↔ s !! j = Some " "%char
    ∧ ∃ m, 2 ≤ m ∧ k = S j + m ∧ run s Chars.is_upper (S j) k.
Proof.
  rewrite ends_spec by (cbn; lia).
  change (matches s tok j k)
    with (∃ j', (class_at s (fun x => bool_decide (x = " "%char)) j ∧ j' = S j)
                ∧ matches s (Repeat Upper 2 None) j' k).
  split.
  - intros (j' & [Hsp%lit_at ->] & Hrep). split; [done|].
    apply (repeat_class s Upper Chars.is_upper) in Hrep
      as (m & Hm & _ & -> & Hrun); [|apply upper_atom]. eauto.
  - intros (Hsp & m & Hm & -> & Hrun). exists (S j). split; [by rewrite lit_at|].
    apply (repeat_class s Upper Chars.is_upper); [apply upper_atom|].
    exists m. done.
Qed.

Lemma desc_ends_tok j : desc (ends s tok j).
Proof.
  cbn [ends].
  destruct (one_cases (fun c' => bool_decide (c' = " "%char)) j) as [-> | ->];
    cbn [flat_map]; [constructor|].
  rewrite app_nil_r. apply (desc_rep_class Chars.is_upper).
Qed.

Lemma rep_tok_ge n j k : k ∈ rep (ends s tok) n 0 j → j ≤ k.
Proof.
  revert j. induction n as [|n IH]; intros j; cbn [rep].
  - intros ->%list_elem_of_singleton. lia.
  - intros [(e & He & Hk)%elem_of_flat_map| ->%list_elem_of_singleton]%elem_of_app;
      [|lia].
    apply ends_tok_spec in He as (_ & m & _ & -> & _). apply IH in Hk. lia.
Qed.

Lemma desc_rep_tok n j : desc (rep (ends s tok) n 0 j).
Proof.
  revert j. induction n as [|n IH]; intros j; cbn [rep]; [repeat constructor|].
  apply StronglySorted_app. split; [|split].
  - intros k1 k2 (e & He & Hk1)%elem_of_flat_map ->%list_elem_of_singleton.
    unfold flip. apply ends_tok_spec in He as (_ & m & _ & -> & _).
    apply rep_tok_ge in Hk1. lia.
  - apply desc_flat_map.
    + apply desc_ends_tok.
    + intros e _. apply IH.
    + intros e k _. apply rep_tok_ge.
    + intros e1 e2 k He1 He2 Hlt Hk.
      apply ends_tok_spec in He1 as (_ & m1 & _ & -> & Hrun1).
      apply ends_tok_spec in He2 as (_ & m2 & _ & -> & _).
      rewrite rep_tok_upper in Hk by (apply Hrun1; lia).
      by apply list_elem_of_singleton in Hk.
  - repeat constructor.
Qed.

Lemma desc_boundary_filter (l : list nat) :
  desc l → desc (flat_map (ends s WordBoundary) l).
Proof.
  induction l as [|x l IH]; intros Hd; cbn [flat_map]; [constructor|].
  apply StronglySorted_inv in Hd as [Hdl Hall].
  apply StronglySorted_app. split; [|split].
  - intros k1 k2 Hk1 (j & Hj & Hk2)%elem_of_flat_map. unfold flip.
    cbn [ends] in Hk1, Hk2.
    destruct (boundary s x); [|by apply elem_of_nil in Hk1].
    destruct (boundary s j); [|by apply elem_of_nil in Hk2].
    apply list_elem_of_singleton in Hk1 as ->.
    apply list_elem_of_singleton in Hk2 as ->.
    by apply (proj1 (Forall_forall _ _) Hall) in Hj.
  - cbn [ends]. destruct (boundary s x); repeat constructor.
  - by apply IH.
Qed.

Local Abbreviation tail_nome := (Cat (Repeat tok 0 (Some 3)) WordBoundary).

Lemma desc_ends_tail j : desc (ends s tail_nome j).
Proof. cbn [ends]. apply desc_boundary_filter, desc_rep_tok. Qed.

Lemma ends_tail_ge j k : k ∈ ends s tail_nome j → j ≤ k.
Proof.
  cbn [ends]. intros (e & He & Hk)%elem_of_flat_map.
  destruct (boundary s e); [|by apply elem_of_nil in Hk].
  apply list_elem_of_singleton in Hk as ->. by apply rep_tok_ge in He.
Qed.

Lemma ends_tail_inside j :
  class_at s Chars.is_upper j → class_at s Chars.is_upper (S j) →
  ends s tail_nome (S j) = [].
Proof.
  intros Hj HSj. cbn [ends]. rewrite rep_tok_upper by done. cbn [flat_map].
  rewrite no_boundary_inside; [done| |]; by apply upper_is_word_at.
Qed.

(** From any start the ends of the name pattern come out longest first. *)
Lemma desc_ends_nome a : desc (ends s re_nome a).
Proof.
  change (ends s re_nome a)
    with (flat_map (fun j => flat_map (ends s tail_nome)
                               (rep (one s Chars.is_upper) (length s) 3 j))
            (if boundary s a then [a] else [])).
  destruct (boundary s a); cbn [flat_map]; [|constructor]. rewrite app_nil_r.
  apply desc_flat_map.
  - apply desc_rep_class.
  - intros j _. apply desc_ends_tail.
  - intros j k _. apply ends_tail_ge.
  - intros j1 j2 k Hj1 Hj2 Hlt Hk. exfalso.
    apply rep_class_spec in Hj1 as (m1 & _ & -> & Hrun).
    apply rep_class_spec in Hj2 as (m2 & Hm2 & -> & _).
    destruct m2 as [|m2]; [lia|].
    replace (a + S m2) with (S (a + m2)) in Hk by lia.
    rewrite ends_tail_inside in Hk; [by apply elem_of_nil in Hk | |];
      apply Hrun; lia.
Qed.

End Greedy.

(** ** Names and values, position by position *)

Section Occurrences.
Import ReSpec.
Variable s : list ascii.

Local Abbreviation tok := (Cat (Lit " ") (Repeat Upper 2 None)).
Local Abbreviation grp := (Cat (Lit ".") (times 3 Digit)).

Lemma power_range r m i j :
  power (matches s r) m i j → i ≤ j ∧ (i < j → j ≤ length s).
Proof.
  revert i. induction m as [|m IHm]; intros i; cbn [power]; [intros ->; lia|].
  intros (y & Hy%matches_range & Hp%IHm). lia.
Qed.

Lemma slice_app_inv a k (x y : list ascii) :
  a ≤ k ≤ length s → slice s a k = x ++ y →
  a + length x ≤ k ∧ slice s a (a + length x) = x ∧ slice s (a + length x) k = y.
Proof.
  intros Hk Heq.
  assert (Hlen : length x + length y = k - a).
  { rewrite <- length_app, <- Heq. apply length_slice. lia. }
  split; [lia|].
  rewrite (slice_split s a (a + length x) k) in Heq by lia.
  apply app_inj_1 in Heq; [done|]. rewrite length_slice by lia. lia.
Qed.

Lemma slice_run p i k :
  i ≤ k ≤ length s → Forall (fun c => p c = true) (slice s i k) → run s p i k.
Proof.
  intros Hk Hall q Hq. unfold class_at.
  destruct (s !! q) as [c|] eqn:Hc.
  - exists c. split; [done|].
    apply (proj1 (Forall_lookup _ _) Hall (q - i)).
    rewrite lookup_slice by lia. by replace (i + (q - i)) with q by lia.
  - apply lookup_ge_None in Hc. lia.
Qed.

Lemma slice_head a k c (x : list ascii) :
  a ≤ k ≤ length s → slice s a k = c :: x →
  s !! a = Some c ∧ a < k ∧ slice s (S a) k = x.
Proof.
  intros Hk Heq.
  assert (Hlt : a < k).
  { assert (length (slice s a k) = k - a) by (apply length_slice; lia).
    rewrite Heq in *. cbn in *. lia. }
  assert (Hc : s !! a = Some c).
  { rewrite <- (Nat.add_0_r a), <- (lookup_slice s a k 0) by lia. by rewrite Heq. }
  split; [done|]. split; [done|].
  rewrite (slice_cons s a k c) in Heq by done. by injection Heq.
Qed.

Lemma matches_tok i k :
  matches s tok i k
  ↔ s !! i = Some " "%char
    ∧ ∃ m, 2 ≤ m ∧ k = S i + m ∧ run s Chars.is_upper (S i) k.
Proof.
  change (matches s tok i k)
    with (∃ j', (class_at s (fun x => bool_decide (x = " "%char)) i ∧ j' = S i)
                ∧ matches s (Repeat Upper 2 None) j' k).
  split.
  - intros (j' & [Hsp%lit_at ->] & Hrep). split; [done|].
    apply (repeat_class s Upper Chars.is_upper) in Hrep
      as (m & Hm & _ & -> & Hrun); [|apply upper_atom]. eauto.
  - intros (Hsp & m & Hm & -> & Hrun). exists (S i). split; [by rewrite lit_at|].
    apply (repeat_class s Upper Chars.is_upper); [apply upper_atom|].
    exists m. done.
Qed.

(** Tokens read forwards: [m] matches of a space and a token from [i] to
    [j] are [m] tokens in the text. *)
Lemma power_tok m i j :
  i ≤ j ≤ length s →
  power (matches s tok) m i j
  ↔ ∃ toks, length toks = m ∧ slice s i j = concat (map (cons " "%char) toks)
            ∧ Forall (upper_token 2) toks.
Proof.
  revert i. induction m as [|m IH]; intros i Hij; cbn [power].
  - split.
    + intros ->. exists []. by rewrite slice_nil.
    + intros (toks & Hlen & Hs & _). destruct toks; [|done]. cbn in Hs.
      assert (length (slice s i j) = j - i) by (apply length_slice; lia).
      rewrite Hs in *. cbn in *. lia.
  - split.
    + intros (j1 & (Hsp & n & Hn & -> & Hrun)%matches_tok & Hp).
      assert (Hb : S i + n ≤ length s) by (apply (run_bound s _ _ _ Hrun); lia).
      assert (Hle : S i + n ≤ j) by (apply power_range in Hp; lia).
      apply IH in Hp as (toks & Hlen & Hs & Hall); [|lia].
      destruct (run_slice s _ _ _ Hrun ltac:(lia)) as [Hup Hl].
      exists (slice s (S i) (S i + n) :: toks). split; [cbn; lia|]. split.
      * rewrite (slice_split s i (S i + n) j) by lia. cbn [map concat].
        rewrite <- Hs. rewrite (slice_cons s i (S i + n) " "%char) by (done || lia).
        reflexivity.
      * constructor; [|done]. split; [lia | done].
    + intros (toks & Hlen & Hs & Hall). destruct toks as [|t toks]; [done|].
      cbn [map concat] in Hs. apply Forall_cons in Hall as [[Ht Hup] Hall].
      change ((" "%char :: t) ++ concat (map (cons " "%char) toks))
        with (" "%char :: (t ++ concat (map (cons " "%char) toks))) in Hs.
      apply slice_head in Hs as (Hsp & Hlt & Hs); [|done].
      apply slice_app_inv in Hs as (Hle & Ht' & Hrest); [|lia].
      exists (S i + length t). split.
      * apply matches_tok. split; [done|]. exists (length t).
        split; [done|]. split; [done|].
        apply slice_run; [lia|]. by rewrite Ht'.
      * apply IH; [lia|]. exists toks. cbn in Hlen. split; [lia|]. done.
Qed.

(** The name pattern matches exactly the names. *)
Lemma matches_nome a k : matches s re_nome a k ↔ name_at s a k.
Proof.
  change (matches s re_nome a k)
    with (∃ j0, (boundary s a = true ∧ j0 = a)
          ∧ ∃ j1, matches s (Repeat Upper 3 None) j0 j1
          ∧ ∃ j2, matches s (Repeat tok 0 (Some 3)) j1 j2
          ∧ (boundary s j2 = true ∧ k = j2)).
  unfold name_at, name_shape. split.
  - intros (j0 & [Hb ->] & j1 & Hfirst & j2 & (m & _ & Hm & Hp) & Hb' & ->).
    apply (repeat_class s Upper Chars.is_upper) in Hfirst
      as (n & Hn & _ & -> & Hrun); [|apply upper_atom]. cbn in Hm.
    assert (Hb1 : a + n ≤ length s) by (apply (run_bound s _ _ _ Hrun); lia).
    assert (Hle : a + n ≤ j2 ∧ (a + n < j2 → j2 ≤ length s))
      by (by apply power_range in Hp).
    assert (Hj2 : j2 ≤ length s) by (destruct (decide (a + n = j2)); lia).
    apply power_tok in Hp as (toks & Hlen & Hs & Hall); [|lia].
    destruct (run_slice s _ _ _ Hrun ltac:(lia)) as [Hup Hl].
    split; [done|]. split; [done|]. split; [lia|].
    exists (slice s a (a + n)), toks. split.
    + rewrite (slice_split s a (a + n) j2) by lia. by rewrite Hs.
    + split; [split; [lia | done]|]. split; [lia | done].
  - intros (Hb & Hb' & Hk & tok0 & toks & Hs & [Hlen0 Hup0] & Hlen & Hall).
    apply slice_app_inv in Hs as (Hle & Ht0 & Hrest); [|done].
    exists a. split; [done|]. exists (a + length tok0). split.
    + apply (repeat_class s Upper Chars.is_upper); [apply upper_atom|].
      exists (length tok0). split; [done|]. split; [done|]. split; [done|].
      apply slice_run; [lia|]. by rewrite Ht0.
    + exists k. split; [|done]. exists (length toks). split; [lia|].
      split; [done|]. apply power_tok; [lia|]. exists toks. done.
Qed.

End Occurrences.

Section NameFound.
Import ReSpec.
Context `{Stdlib} {descr : Type}.
Implicit Types (schema : gmap string descr) (text : string).

Lemma productive_nome : productive re_nome ∧ 0 < min_len re_nome.
Proof. cbn. lia. Qed.

(** X15. In the identity branch ["nome"] is the leftmost name of the
    normalised text (a token of three or more uppercase letters, then at
    most three tokens of two or more, single spaces between, a word
    boundary on each side) and, of the names that start there, the longest;
    it is [None] exactly when the text holds no name. *)
Theorem nome_is_leftmost_longest_name text schema :
  is_Some (schema !! "numero_oab") →
  let l := list_ascii_of_string (normalize_text text) in
  match extract_fields_from_text_generic text schema !! "nome" with
  | Some (Some w) =>
      ∃ a k, list_ascii_of_string w = slice l a k
             ∧ name_at l a k
             ∧ (∀ a' k', a' < a → ¬ name_at l a' k')
             ∧ (∀ k', name_at l a k' → k' ≤ k)
  | Some None => ∀ a k, ¬ name_at l a k
  | None => False
  end.
Proof.
  intros Hoab l. rewrite identity_branch by done.
  rewrite lookup_insert_ne, lookup_insert_eq by done.
  unfold Re.search. fold l.
  destruct productive_nome as [Hprod Hmin].
  destruct (search_span l re_nome) as [[a b]|] eqn:Hs.
  - apply search_span_some in Hs as (Hab & Hm & Hhead & Hleft); [|done].
    rewrite length_string_of. exists a, b. split; [done|].
    split; [by apply matches_nome|]. split.
    + intros a' k' Ha' Hn%matches_nome. by apply (Hleft a' k').
    + intros k' Hn%matches_nome. apply (ends_complete l _ _ _ Hprod) in Hn.
      by apply (desc_head (ends l re_nome a) b k' (desc_ends_nome l a)).
  - pose proof (proj1 (search_span_none l re_nome Hprod Hmin) Hs) as Hno.
    intros a k Hn%matches_nome. by apply (Hno a k).
Qed.

End NameFound.

Module DemoName.
Import ReSpec.

#[local] Existing Instance demo_stdlib.

Lemma nome_is_leftmost_longest_name_witness :
  let l := list_ascii_of_string (normalize_text "n. 7 Joao da Silva e Souza 123456") in
  ∃ a k, list_ascii_of_string "JOAO DA SILVA" = slice l a k
         ∧ name_at l a k
         ∧ (∀ a' k', a' < a → ¬ name_at l a' k')
         ∧ (∀ k', name_at l a k' → k' ≤ k).
Proof.
  intros l.
  pose proof (nome_is_leftmost_longest_name
                "n. 7 Joao da Silva e Souza 123456" oab_schema
                ltac:(eexists; reflexivity)) as X.
  assert (Hf : extract_fields_from_text_generic
                 "n. 7 Joao da Silva e Souza 123456" oab_schema !! "nome"
               = Some (Some "JOAO DA SILVA")) by (vm_compute; reflexivity).
  cbn zeta in X. rewrite Hf in X. exact X.
Defined.

End DemoName.

Section ValorOccurrences.
Import ReSpec.
Variable s : list ascii.

Local Abbreviation grp := (Cat (Lit ".") (times 3 Digit)).

Lemma matches_grp i k :
  matches s grp i k
  ↔ s !! i = Some "."%char ∧ k = i + 4 ∧ run s Chars.is_digit (S i) k.
Proof.
  change (matches s grp i k)
    with (∃ j', (class_at s (fun x => bool_decide (x = "."%char)) i ∧ j' = S i)
                ∧ matches s (times 3 Digit) j' k).
  split.
  - intros (j' & [Hdot%lit_at ->] & [-> Hrun]%times_digit).
    split; [done|]. split; [lia | done].
  - intros (Hdot & -> & Hrun). exists (S i). split; [by rewrite lit_at|].
    apply times_digit. split; [lia | done].
Qed.

(** Groups read forwards: [m] matches of a dot and three digits from [i]
    to [j] are [m] groups in the text. *)
Lemma power_grp m i j :
  i ≤ j ≤ length s →
  power (matches s grp) m i j
  ↔ ∃ groups, length groups = m ∧ slice s i j = concat groups
              ∧ Forall group_of_three groups.
Proof.
  revert i. induction m as [|m IH]; intros i Hij; cbn [power].
  - split.
    + intros ->. exists []. by rewrite slice_nil.
    + intros (groups & Hlen & Hs & _). destruct groups; [|done]. cbn in Hs.
      assert (length (slice s i j) = j - i) by (apply length_slice; lia).
      rewrite Hs in *. cbn in *. lia.
  - split.
    + intros (j1 & Hg & Hp).
      pose proof (group_slice s _ _ Hg) as (-> & Hb & Hthree).
      assert (Hle : i + 4 ≤ j) by (apply power_range in Hp; lia).
      apply IH in Hp as (groups & Hlen & Hs & Hall); [|lia].
      exists (slice s i (i + 4) :: groups). split; [cbn; lia|]. split.
      * rewrite (slice_split s i (i + 4) j) by lia. cbn [concat]. by rewrite Hs.
      * by constructor.
    + intros (groups & Hlen & Hs & Hall). destruct groups as [|g groups]; [done|].
      cbn [concat] in Hs. apply Forall_cons in Hall as [(x & y & z & -> & Hx & Hy & Hz) Hall].
      apply slice_app_inv in Hs as (Hle & Hg & Hrest); [|done].
      cbn [length] in Hle, Hg, Hrest.
      exists (i + 4). split.
      * apply matches_grp. split.
        { by apply slice_head in Hg as (Hdot & _); [|lia]. }
        split; [done|].
        apply slice_head in Hg as (_ & _ & Hg); [|lia].
        apply slice_run; [lia|]. rewrite Hg. by repeat constructor.
      * apply IH; [lia|]. exists groups. cbn in Hlen. split; [lia|]. done.
Qed.

(** The currency pattern matches exactly the values in the Brazilian
    format. *)
Lemma matches_valor_iff a k : matches s re_valor a k ↔ valor_at s a k.
Proof.
  split.
  - intros [Hk Hshape]%matches_valor. split; [lia | done].
  - intros (Hk & lead & groups & x & y & Hs & Hlen & Hlead & Hgroups & Hx & Hy).
    change (matches s re_valor a k)
      with (∃ j1, matches s (Repeat Digit 1 (Some 3)) a j1
            ∧ ∃ j2, matches s (Repeat grp 0 None) j1 j2
            ∧ ∃ j3, (class_at s (fun c => bool_decide (c = ","%char)) j2 ∧ j3 = S j2)
            ∧ matches s (times 2 Digit) j3 k).
    apply slice_app_inv in Hs as (Hle & Hl & Hrest); [|done].
    apply slice_app_inv in Hrest as (Hle2 & Hg & Htail); [|lia].
    set (j1 := a + length lead) in *. set (j2 := j1 + length (concat groups)) in *.
    assert (Hlt : length (slice s j2 k) = k - j2) by (apply length_slice; lia).
    rewrite Htail in Hlt. cbn [length] in Hlt.
    apply slice_head in Htail as (Hcomma & _ & Htail); [|lia].
    exists j1. split.
    + apply (repeat_class s Digit Chars.is_digit); [apply digit_atom|].
      exists (length lead). cbn [within]. split; [lia|]. split; [lia|].
      split; [done|]. apply slice_run; [lia|]. by rewrite Hl.
    + exists j2. split.
      * exists (length groups). split; [lia|]. split; [done|].
        apply power_grp; [lia|]. exists groups. done.
      * exists (S j2). split; [by rewrite lit_at|].
        apply times_digit. split; [lia|].
        apply slice_run; [lia|]. rewrite Htail. by repeat constructor.
Qed.

Lemma power_grp_dots m i j :
  power (matches s grp) m i j →
  j = i + 4 * m ∧ ∀ q, q < m → s !! (i + 4 * q) = Some "."%char.
Proof.
  revert i. induction m as [|m IH]; intros i; cbn [power].
  - intros ->. split; [lia|]. intros q Hq. lia.
  - intros (j1 & (Hdot & -> & _)%matches_grp & [-> Hdots]%IH).
    split; [lia|]. intros [|q] Hq.
    + by replace (i + 4 * 0) with i by lia.
    + replace (i + 4 * S q) with (i + 4 + 4 * q) by lia. apply Hdots. lia.
Qed.

(** The places of a value: [n] leading digits, [m] groups that each start
    with a dot, then the comma. *)
Lemma valor_places a k :
  matches s re_valor a k →
  ∃ n m, run s Chars.is_digit a (a + n)
         ∧ (∀ q, q < m → s !! (a + n + 4 * q) = Some "."%char)
         ∧ s !! (a + n + 4 * m) = Some ","%char
         ∧ k = a + n + 4 * m + 3.
Proof.
  change (matches s re_valor a k)
    with (∃ j1, matches s (Repeat Digit 1 (Some 3)) a j1
          ∧ ∃ j2, matches s (Repeat grp 0 None) j1 j2
          ∧ ∃ j3, (class_at s (fun c => bool_decide (c = ","%char)) j2 ∧ j3 = S j2)
          ∧ matches s (times 2 Digit) j3 k).
  intros (j1 & Hlead & j2 & (m & _ & _ & Hgroups) & j3 & [Hcomma%lit_at ->]
          & [-> _]%times_digit).
  apply (repeat_class s Digit Chars.is_digit) in Hlead
    as (n & _ & _ & -> & Hrun); [|apply digit_atom].
  apply power_grp_dots in Hgroups as [-> Hdots].
  exists n, m. split; [done|]. split; [done|]. split; [done | lia].
Qed.

Lemma valor_places_le a n m n' m' :
  run s Chars.is_digit a (a + n) →
  (∀ q, q < m → s !! (a + n + 4 * q) = Some "."%char) →
  s !! (a + n + 4 * m) = Some ","%char →
  (∀ q, q < m' → s !! (a + n' + 4 * q) = Some "."%char) →
  s !! (a + n' + 4 * m') = Some ","%char →
  n ≤ n' ∧ (n = n' → m ≤ m').
Proof.
  intros Hrun Hdots Hcomma Hdots' Hcomma'. split.
  - destruct (decide (n ≤ n')) as [|Hn]; [done|]. exfalso.
    destruct (Hrun (a + n')) as (c & Hc & Hd); [lia|].
    destruct m' as [|m'].
    + replace (a + n' + 4 * 0) with (a + n') in Hcomma' by lia.
      rewrite Hcomma' in Hc. injection Hc as <-. by vm_compute in Hd.
    + specialize (Hdots' 0 ltac:(lia)).
      replace (a + n' + 4 * 0) with (a + n') in Hdots' by lia.
      rewrite Hdots' in Hc. injection Hc as <-. by vm_compute in Hd.
  - intros ->. destruct (decide (m ≤ m')) as [|Hm]; [done|]. exfalso.
    specialize (Hdots m' ltac:(lia)). rewrite Hcomma' in Hdots. discriminate.
Qed.

(** A value that starts at a position ends at one place only. *)
Lemma valor_at_unique a k k' : valor_at s a k → valor_at s a k' → k = k'.
Proof.
  intros (n & m & Hrun & Hdots & Hcomma & ->)%matches_valor_iff%valor_places
         (n' & m' & Hrun' & Hdots' & Hcomma' & ->)%matches_valor_iff%valor_places.
  pose proof (valor_places_le a n m n' m' Hrun Hdots Hcomma Hdots' Hcomma').
  pose proof (valor_places_le a n' m' n m Hrun' Hdots' Hcomma' Hdots Hcomma).
  lia.
Qed.

Lemma successive_iff (P Q : nat → nat → Prop) pos spans :
  (∀ a k, P a k ↔ Q a k) → successive P pos spans → successive Q pos spans.
Proof.
  intros HPQ. induction 1 as [pos Hno|pos a k spans Hpos Hak HP Hleft _ IH].
  - constructor. intros a k Ha HQ%HPQ. by apply (Hno a k).
  - constructor; [done | done | by apply HPQ | | done].
    intros a' k' Ha' HQ%HPQ. by apply (Hleft a' k').
Qed.

(** [findall] lists the successive leftmost matches. *)
Lemma findall_spans_successive r fuel pos :
  productive r → 0 < min_len r → length s + 1 ≤ fuel + pos →
  successive (matches s r) pos (findall_spans s r fuel pos).
Proof.
  intros Hprod Hmin. revert pos.
  assert (Hin : ∀ a k, matches s r a k → a < k ≤ length s).
  { intros a k Hm. pose proof (matches_min_len _ _ _ _ Hm).
    pose proof (matches_range _ _ _ _ Hm). lia. }
  induction fuel as [|fuel IH]; intros pos Hfuel; cbn [findall_spans].
  - constructor. intros a k Ha Hm%Hin. lia.
  - destruct (scan s r (S (length s) - pos) pos) as [[i j]|] eqn:Hs.
    + apply scan_some in Hs as (Hi & Hj & Hno).
      assert (Hm : matches s r i j).
      { apply ends_sound. apply head_Some in Hj as [l' ->]. apply elem_of_cons. by left. }
      pose proof (Hin _ _ Hm). destruct (decide (i = j)); [lia|].
      constructor; [lia | lia | done | | apply IH; lia].
      intros a' k' Ha' Hm'. apply (ends_complete s r a' k' Hprod) in Hm'.
      rewrite (Hno a' Ha') in Hm'. by apply elem_of_nil in Hm'.
    + pose proof (proj1 (scan_none s r _ _) Hs) as Hno.
      constructor. intros a k Ha Hm. pose proof (Hin _ _ Hm).
      apply (ends_complete s r a k Hprod) in Hm.
      rewrite (Hno a) in Hm by lia. by apply elem_of_nil in Hm.
Qed.

End ValorOccurrences.

Section LedgerOccurrences.
Import ReSpec.
Context `{Stdlib} {descr : Type}.
Implicit Types (schema : gmap string descr) (text : string).

Lemma valor_spans_successive (l : list ascii) :
  successive (valor_at l) 0 (findall_spans l re_valor (S (length l)) 0).
Proof.
  apply (successive_iff (matches l re_valor)); [apply matches_valor_iff|].
  destruct productive_valor as [Hprod Hmin].
  apply findall_spans_successive; [done | done | lia].
Qed.

Lemma ledger_fields_at_spans text schema :
  schema !! "numero_oab" = None → is_Some (schema !! "data_referencia") →
  let l := list_ascii_of_string (normalize_text text) in
  let fs := extract_fields_from_text_generic text schema in
  let money := fun '(a, k) => normalize_money (string_of_list_ascii (slice l a k)) in
  let spans := findall_spans l re_valor (S (length l)) 0 in
  fs !! "saldo_vencido" = Some (spans !! 0 ≫= money)
  ∧ fs !! "saldo_a_vencer" = Some (spans !! 1 ≫= money)
  ∧ fs !! "total" = Some (last spans ≫= money).
Proof.
  intros Hoab Hdata l fs money spans. subst fs spans.
  rewrite ledger_branch by done. unfold Re.findall. fold l.
  set (spans := findall_spans l re_valor (S (length l)) 0).
  change (map ?f ?x) with (f <$> x).
  rewrite !list_lookup_fmap, fmap_last.
  split_and!.
  - rewrite !lookup_insert_ne, lookup_insert_eq by done.
    f_equal. by destruct (spans !! 0) as [[a k]|].
  - rewrite lookup_insert_ne, lookup_insert_eq by done.
    f_equal. by destruct (spans !! 1) as [[a k]|].
  - rewrite lookup_insert_eq.
    f_equal. by destruct (last spans) as [[a k]|].
Qed.

Lemma successive_Forall (P : nat → nat → Prop) pos spans :
  successive P pos spans → Forall (fun sp => P sp.1 sp.2) spans.
Proof. induction 1; constructor; done. Qed.

Lemma normalize_money_valor (w : list ascii) :
  valor_shape w → is_Some (normalize_money (string_of_list_ascii w)).
Proof.
  intros (ip & a & b & -> & Hip & Ha & Hb)%valor_shape_grouped.
  by rewrite normalize_money_accepts.
Qed.

(** X16. In the ledger branch the three balances are read at the values
    met in the normalised text from left to right, each value being the
    leftmost one that starts at or after the end of the one before (so no
    two overlap, and a value that starts at a place has one end only):
    ["saldo_vencido"] comes from the first, ["saldo_a_vencer"] from the
    second and ["total"] from the last of them. *)
Theorem balances_follow_successive_values text schema :
  schema !! "numero_oab" = None → is_Some (schema !! "data_referencia") →
  let l := list_ascii_of_string (normalize_text text) in
  let fs := extract_fields_from_text_generic text schema in
  let money := fun '(a, k) => normalize_money (string_of_list_ascii (slice l a k)) in
  ∃ spans,
    successive (valor_at l) 0 spans
    ∧ (∀ a k k', valor_at l a k → valor_at l a k' → k = k')
    ∧ fs !! "saldo_vencido" = Some (spans !! 0 ≫= money)
    ∧ fs !! "saldo_a_vencer" = Some (spans !! 1 ≫= money)
    ∧ fs !! "total" = Some (last spans ≫= money).
Proof.
  intros Hoab Hdata l fs money.
  exists (findall_spans l re_valor (S (length l)) 0).
  split; [apply valor_spans_successive|].
  split; [apply valor_at_unique|].
  by apply ledger_fields_at_spans.
Qed.

(** X19. The balances when the text holds few values. ["saldo_vencido"]
    and ["total"] are null exactly when the normalised text holds no value
    in the Brazilian format; and whenever ["saldo_a_vencer"] is null,
    ["total"] is ["saldo_vencido"] again: with a single value in the text,
    that value is both the overdue balance and the total. *)
Theorem balances_with_few_values text schema :
  schema !! "numero_oab" = None → is_Some (schema !! "data_referencia") →
  let l := list_ascii_of_string (normalize_text text) in
  let fs := extract_fields_from_text_generic text schema in
  (fs !! "saldo_vencido" = Some None ↔ ∀ a k, ¬ valor_at l a k)
  ∧ (fs !! "total" = Some None ↔ ∀ a k, ¬ valor_at l a k)
  ∧ (fs !! "saldo_a_vencer" = Some None → fs !! "total" = fs !! "saldo_vencido").
Proof.
  intros Hoab Hdata l fs.
  destruct (ledger_fields_at_spans text schema Hoab Hdata) as (H0 & H1 & Hlast).
  fold l fs in H0, H1, Hlast.
  set (money := fun '(a, k) => normalize_money (string_of_list_ascii (slice l a k)))
    in *.
  pose proof (valor_spans_successive l) as Hsucc.
  set (spans := findall_spans l re_valor (S (length l)) 0) in *.
  clearbody spans.
  assert (Hmoney : ∀ sp, sp ∈ spans → is_Some (money sp)).
  { intros [a k] Hin.
    apply successive_Forall in Hsucc.
    apply (proj1 (Forall_forall _ _) Hsucc) in Hin as [_ Hshape].
    by apply normalize_money_valor. }
  assert (Hnone : spans = [] ↔ ∀ a k, ¬ valor_at l a k).
  { split.
    - intros Hnil. rewrite Hnil in Hsucc. inversion Hsucc as [? Hno|]; subst.
      intros a k. apply Hno. lia.
    - intros Hno. destruct spans as [|[a k] spans']; [done|].
      inversion Hsucc; subst. exfalso. by apply (Hno a k). }
  assert (Hfirst : spans !! 0 ≫= money = None ↔ spans = []).
  { destruct spans as [|sp spans']; [done|]. cbn. split; [|done].
    intros Hm. destruct (Hmoney sp) as [x Hx]; [apply elem_of_cons; by left|].
    congruence. }
  assert (Hend : last spans ≫= money = None ↔ spans = []).
  { destruct (last spans) as [sp|] eqn:Hl.
    - cbn. split.
      + intros Hm. destruct (Hmoney sp) as [x Hx]; [by apply last_Some_elem_of|].
        congruence.
      + intros Hnil. by rewrite Hnil in Hl.
    - by apply last_None in Hl. }
  split_and!.
  - rewrite H0, <- Hnone, <- Hfirst. split; [by intros [= ->] | by intros ->].
  - rewrite Hlast, <- Hnone, <- Hend. split; [by intros [= ->] | by intros ->].
  - rewrite H1, Hlast, H0. intros [= Hm]. f_equal.
    destruct spans as [|sp0 [|sp1 spans']]; [done | done |]. exfalso.
    cbn in Hm. destruct (Hmoney sp1) as [x Hx].
    { apply elem_of_cons; right. apply elem_of_cons; by left. }
    congruence.
Qed.

End LedgerOccurrences.

Module DemoLedger.
Import ReSpec.

#[local] Existing Instance demo_stdlib.

Lemma balances_follow_successive_values_witness :
  let text := "Ref. 01/03/2024 vencido 1.000,00 a vencer 500,50 total 1.500,50" in
  let l := list_ascii_of_string (normalize_text text) in
  let fs := extract_fields_from_text_generic text tela_schema in
  let money := fun '(a, k) => normalize_money (string_of_list_ascii (slice l a k)) in
  ∃ spans,
    successive (valor_at l) 0 spans
    ∧ (∀ a k k', valor_at l a k → valor_at l a k' → k = k')
    ∧ fs !! "saldo_vencido" = Some (spans !! 0 ≫= money)
    ∧ fs !! "saldo_a_vencer" = Some (spans !! 1 ≫= money)
    ∧ fs !! "total" = Some (last spans ≫= money).
Proof.
  cbv zeta.
  apply (balances_follow_successive_values
           "Ref. 01/03/2024 vencido 1.000,00 a vencer 500,50 total 1.500,50"
           tela_schema).
  - reflexivity.
  - eexists. reflexivity.
Defined.

Lemma balances_with_few_values_witness :
  let l := list_ascii_of_string (normalize_text "vencido em 01/03/2024: 1.000,00") in
  let fs := extract_fields_from_text_generic
              "vencido em 01/03/2024: 1.000,00" tela_schema in
  (fs !! "saldo_vencido" = Some None ↔ ∀ a k, ¬ valor_at l a k)
  ∧ (fs !! "total" = Some None ↔ ∀ a k, ¬ valor_at l a k)
  ∧ (fs !! "saldo_a_vencer" = Some None → fs !! "total" = fs !! "saldo_vencido").
Proof.
  cbv zeta.
  apply (balances_with_few_values "vencido em 01/03/2024: 1.000,00" tela_schema).
  - reflexivity.
  - eexists. reflexivity.
Defined.

End DemoLedger.

(** ** Repeated requests, equal digests and the outcomes of an extraction *)

Section ServiceOutcomes.
Context `{Stdlib} `{Backend} {descr : Type}.
Implicit Types (w : world) (pdf_bytes : list Byte.byte) (text : string).
Implicit Types (schema : gmap string descr).

#[local] Existing Instance M_ret.
#[local] Existing Instance M_bind.

(** X17. A request that was answered is answered again in the same way:
    after any further requests, [process] for the same document and schema,
    under any label, returns the same text and the same fields without a
    library call or a write to the cache, and stores the mapping once more
    under the label it is given (nothing is deduplicated). *)
Theorem repeated_request_is_answered_from_cache
    lbl schema pdf_b64 w r w1 (rs : list (request (descr:=descr))) lbl' :
  process lbl schema pdf_b64 w = (inr r, w1) →
  let w2 := serve_all rs w1 in
  process lbl' schema pdf_b64 w2
  = (inr (Response lbl' (extracted_text r) (extracted_fields r)),
     World (cache w2)
           (Some (append_entry lbl' (extracted_fields r) (knowledge w2)))
           (calls w2)).
Proof.
  intros Hp w2. rewrite process_eq in Hp.
  destruct (b64decode pdf_b64) as [e|pdf_bytes] eqn:Hdec; [done|].
  case_bool_decide as Hne; [done|].
  destruct (extract_text_from_pdf_bytes pdf_bytes w) as [[e|text] w0] eqn:Hext;
    [done|].
  destruct (contains "__ERROR__" text) eqn:Hc; [done|].
  cbn zeta in Hp. injection Hp as <- <-. cbn [extracted_text extracted_fields].
  assert (Hhit : cache w2 !! md5_hexdigest pdf_bytes = Some text).
  { apply serve_all_keeps. cbn [cache]. by apply (extract_text_stores pdf_bytes w). }
  rewrite process_eq, Hdec, bool_decide_eq_false_2 by done.
  rewrite (extract_text_hit _ _ text) by done. by rewrite Hc.
Qed.

(** X18. The cache is keyed by the digest alone: once a document has been
    extracted, any bytes with the same digest are answered with that
    document's text, after any further requests, and are never opened. *)
Theorem equal_digests_share_the_text
    pdf_bytes other w text w1 (rs : list (request (descr:=descr))) :
  md5_hexdigest other = md5_hexdigest pdf_bytes →
  extract_text_from_pdf_bytes pdf_bytes w = (inr text, w1) →
  let w2 := serve_all rs w1 in
  extract_text_from_pdf_bytes other w2 = (inr text, w2).
Proof.
  intros Hdigest Hext w2. apply extract_text_hit. rewrite Hdigest.
  apply serve_all_keeps. by apply (extract_text_stores pdf_bytes w).
Qed.

Lemma read_pages_cases (doc : list page) :
  (∃ ts, page_texts doc ts)
  ∨ (∃ doc1 p doc2 ts e,
       doc = doc1 ++ p :: doc2 ∧ page_texts doc1 ts ∧ get_text p = inl e).
Proof.
  induction doc as [|p doc IH].
  - left. exists []. constructor.
  - destruct (get_text p) as [e|t] eqn:Hp.
    + right. exists [], p, doc, [], e. split; [done|]. split; [constructor | done].
    + destruct IH as [[ts Hts]|(doc1 & q & doc2 & ts & e & -> & Hts & Hq)].
      * left. exists (t :: ts). by constructor.
      * right. exists (p :: doc1), q, doc2, (t :: ts), e.
        split; [done|]. split; [by constructor | done].
Qed.

Lemma ocr_pages_cases (images : list image) :
  (∃ os, ocr_texts images os)
  ∨ (∃ images1 img images2 os e,
       images = images1 ++ img :: images2 ∧ ocr_texts images1 os
       ∧ image_to_string img "por+eng" = inl e).
Proof.
  induction images as [|p images IH].
  - left. exists []. constructor.
  - destruct (image_to_string p "por+eng") as [e|t] eqn:Hp.
    + right. exists [], p, images, [], e. split; [done|]. split; [constructor | done].
    + destruct IH as [[ts Hts]|(images1 & q & images2 & ts & e & -> & Hts & Hq)].
      * left. exists (t :: ts). by constructor.
      * right. exists (p :: images1), q, images2, (t :: ts), e.
        split; [done|]. split; [by constructor | done].
Qed.

Lemma extract_text_failed pdf_bytes e w text w' :
  cache w !! md5_hexdigest pdf_bytes = None →
  engine_fails pdf_bytes e →
  extract_text_from_pdf_bytes pdf_bytes w = (inr text, w') →
  text = "__ERROR__ " +:+ e.
Proof.
  intros Hmiss Hfails. rewrite extract_text_miss by done.
  destruct (extraction_fails pdf_bytes e w Hfails) as [cs ->]. by intros [= <- _].
Qed.

(** X20. The outcomes of an extraction that runs are three and no more:
    the embedded text of all the pages, when it is not blank; the blank
    embedded text followed by the text recognised on every image; or the
    marker followed by the message of the first failure. No text made of a
    part of the pages or of the images is ever returned. *)
Theorem extract_text_outcomes pdf_bytes w text w' :
  cache w !! md5_hexdigest pdf_bytes = None →
  extract_text_from_pdf_bytes pdf_bytes w = (inr text, w') →
  (∃ doc ts,
     fitz_open pdf_bytes = inr doc ∧ page_texts doc ts
     ∧ strip_is_empty (join ts) = false ∧ text = join ts)
  ∨ (∃ doc ts images os,
       fitz_open pdf_bytes = inr doc ∧ page_texts doc ts
       ∧ strip_is_empty (join ts) = true
       ∧ convert_from_bytes pdf_bytes 200 = inr images ∧ ocr_texts images os
       ∧ text = join ts +:+ join os)
  ∨ (∃ e, engine_fails pdf_bytes e ∧ text = "__ERROR__ " +:+ e).
Proof.
  intros Hmiss Hext.
  assert (Hfail : ∀ e, engine_fails pdf_bytes e →
            ∃ e, engine_fails pdf_bytes e ∧ text = "__ERROR__ " +:+ e).
  { intros e He. exists e. split; [done|].
    by apply (extract_text_failed pdf_bytes e w text w'). }
  destruct (fitz_open pdf_bytes) as [e|doc] eqn:Hopen.
  { right; right. apply (Hfail e). by apply fails_open. }
  destruct (read_pages_cases doc)
    as [[ts Hts]|(doc1 & p & doc2 & ts & e & -> & Hts & Hp)];
    [|right; right; apply (Hfail e); by apply (fails_page _ _ doc1 p doc2 ts)].
  destruct (strip_is_empty (join ts)) eqn:Hblank.
  - destruct (convert_from_bytes pdf_bytes 200) as [e|images] eqn:Hconv.
    { right; right. apply (Hfail e). by apply (fails_rasterize _ _ doc ts). }
    destruct (ocr_pages_cases images)
      as [[os Hos]|(images1 & img & images2 & os & e & -> & Hos & Himg)];
      [|right; right; apply (Hfail e);
        by apply (fails_ocr _ _ doc ts images1 img images2 os)].
    right; left. exists doc, ts, images, os. split_and!; try done.
    rewrite extract_text_miss in Hext by done.
    rewrite (extraction_ocr pdf_bytes doc ts images os) in Hext by done.
    by injection Hext as <- _.
  - left. exists doc, ts. split_and!; try done.
    rewrite extract_text_miss in Hext by done.
    rewrite (extraction_embedded pdf_bytes doc ts) in Hext by done.
    by injection Hext as <- _.
Qed.

Lemma extract_text_calls pdf_bytes w r cs :
  cache w !! md5_hexdigest pdf_bytes = None →
  extraction pdf_bytes w = (r, logged w cs) →
  calls_since w (snd (extract_text_from_pdf_bytes pdf_bytes w)) = cs.
Proof.
  intros Hmiss Hex. rewrite extract_text_miss, Hex by done.
  unfold calls_since, logged. cbn. by rewrite drop_app_length.
Qed.

(** X21. An extraction stops at the first failure. When the document does
    not open, nothing else is called; when a page cannot be read, the pages
    after it are not read and nothing is rasterised, even if the text read
    so far is blank; when rasterisation fails, no image is recognised; when
    an image is not recognised, the images after it are not tried. *)
Theorem extraction_stops_at_first_failure pdf_bytes e w :
  cache w !! md5_hexdigest pdf_bytes = None →
  let w' := snd (extract_text_from_pdf_bytes pdf_bytes w) in
  (fitz_open pdf_bytes = inl e → calls_since w w' = [Open pdf_bytes])
  ∧ (∀ doc1 p doc2 ts,
       fitz_open pdf_bytes = inr (doc1 ++ p :: doc2) →
       page_texts doc1 ts → get_text p = inl e →
       calls_since w w' = Open pdf_bytes :: map GetText (doc1 ++ [p]))
  ∧ (∀ doc ts,
       fitz_open pdf_bytes = inr doc → page_texts doc ts →
       strip_is_empty (join ts) = true →
       convert_from_bytes pdf_bytes 200 = inl e →
       calls_since w w'
       = Open pdf_bytes :: map GetText doc ++ [Rasterize pdf_bytes 200])
  ∧ (∀ doc ts images1 img images2 os,
       fitz_open pdf_bytes = inr doc → page_texts doc ts →
       strip_is_empty (join ts) = true →
       convert_from_bytes pdf_bytes 200 = inr (images1 ++ img :: images2) →
       ocr_texts images1 os → image_to_string img "por+eng" = inl e →
       calls_since w w'
       = Open pdf_bytes :: map GetText doc
         ++ Rasterize pdf_bytes 200
            :: map (fun i => Ocr i "por+eng") (images1 ++ [img])).
Proof.
  intros Hmiss w'. subst w'. split_and!.
  - intros Hopen. apply (extract_text_calls _ _ (inl e)); [done|].
    unfold extraction. by rewrite bind_eq, invoke_eq, Hopen.
  - intros doc1 p doc2 ts Hopen Hts Hp.
    apply (extract_text_calls _ _ (inl e)); [done|].
    unfold extraction. rewrite bind_eq, invoke_eq, Hopen.
    rewrite bind_eq, (read_pages_fail _ _ _ ts e) by done.
    by rewrite logged_logged.
  - intros doc ts Hopen Hts Hblank Hconv.
    apply (extract_text_calls _ _ (inl e)); [done|].
    unfold extraction. rewrite bind_eq, invoke_eq, Hopen.
    rewrite bind_eq, (read_pages_ok _ ts) by done.
    change ("" +:+ join ts) with (join ts).
    rewrite Hblank, bind_eq, invoke_eq, Hconv, !logged_logged.
    by rewrite <- ?app_assoc.
  - intros doc ts images1 img images2 os Hopen Hts Hblank Hconv Hos Himg.
    apply (extract_text_calls _ _ (inl e)); [done|].
    unfold extraction. rewrite bind_eq, invoke_eq, Hopen.
    rewrite bind_eq, (read_pages_ok _ ts) by done.
    change ("" +:+ join ts) with (join ts).
    rewrite Hblank, bind_eq, invoke_eq, Hconv.
    rewrite (ocr_pages_fail _ _ _ os e) by done.
    rewrite !logged_logged. by rewrite <- ?app_assoc.
Qed.

End ServiceOutcomes.

Module DemoOutcomes.

#[local] Existing Instance demo_backend.

Lemma repeated_request_is_answered_from_cache_witness :
  let r := Response "oab_1" "JOAO DA SILVA 123456"
             {[ "nome" := Some "JOAO DA SILVA"; "numero_oab" := Some "123456" ]} in
  let w1 := snd (@process demo_stdlib demo_backend string
                   "oab_1" oab_schema "JOAO DA SILVA 123456" fresh) in
  let w2 := @serve_all demo_stdlib demo_backend string
              [ Process "tela" tela_schema "1.000,00" ] w1 in
  @process demo_stdlib demo_backend string
    "oab_2" oab_schema "JOAO DA SILVA 123456" w2
  = (inr (Response "oab_2" (extracted_text r) (extracted_fields r)),
     World (cache w2)
           (Some (append_entry "oab_2" (extracted_fields r) (knowledge w2)))
           (calls w2)).
Proof.
  intros r w1 w2.
  apply (@repeated_request_is_answered_from_cache demo_stdlib demo_backend string
           "oab_1" oab_schema "JOAO DA SILVA 123456" fresh r w1
           [ Process "tela" tela_schema "1.000,00" ] "oab_2").
  vm_compute. reflexivity.
Defined.

Lemma equal_digests_share_the_text_witness :
  let w1 := snd (@extract_text_from_pdf_bytes first_byte_stdlib demo_backend
                   (list_byte_of_string "AB") fresh) in
  let w2 := @serve_all first_byte_stdlib demo_backend string [] w1 in
  @extract_text_from_pdf_bytes first_byte_stdlib demo_backend
    (list_byte_of_string "AC") w2
  = (inr "AB", w2).
Proof.
  intros w1.
  apply (@equal_digests_share_the_text first_byte_stdlib demo_backend string
           (list_byte_of_string "AB") (list_byte_of_string "AC") fresh "AB" w1 []).
  - reflexivity.
  - vm_compute. reflexivity.
Defined.

Lemma extract_text_outcomes_witness :
  let pdf_bytes := list_byte_of_string "A B" in
  (∃ doc ts,
     @fitz_open demo_backend pdf_bytes = inr doc ∧ page_texts doc ts
     ∧ strip_is_empty (join ts) = false ∧ "A B" = join ts)
  ∨ (∃ doc ts images os,
       @fitz_open demo_backend pdf_bytes = inr doc ∧ page_texts doc ts
       ∧ strip_is_empty (join ts) = true
       ∧ @convert_from_bytes demo_backend pdf_bytes 200 = inr images
       ∧ ocr_texts images os
       ∧ "A B" = join ts +:+ join os)
  ∨ (∃ e, engine_fails pdf_bytes e ∧ "A B" = "__ERROR__ " +:+ e).
Proof.
  intros pdf_bytes.
  apply (@extract_text_outcomes demo_stdlib demo_backend pdf_bytes fresh "A B"
           (snd (@extract_text_from_pdf_bytes demo_stdlib demo_backend
                   pdf_bytes fresh))).
  - vm_compute. reflexivity.
  - vm_compute. reflexivity.
Defined.

Lemma extraction_stops_at_first_failure_witness :
  let pdf_bytes := list_byte_of_string "AB!C" in
  calls_since fresh
    (snd (@extract_text_from_pdf_bytes demo_stdlib demo_backend pdf_bytes fresh))
  = Open pdf_bytes :: map GetText (list_byte_of_string "AB" ++ [Byte.x21]).
Proof.
  intros pdf_bytes.
  refine (proj1 (proj2 (@extraction_stops_at_first_failure demo_stdlib demo_backend
                          pdf_bytes "page unreadable" fresh _))
            (list_byte_of_string "AB") Byte.x21 (list_byte_of_string "C")
            ["A"; "B"] _ _ _).
  - vm_compute. reflexivity.
  - reflexivity.
  - repeat constructor.
  - reflexivity.
Defined.

End DemoOutcomes.

(** ** The cache and the OCR fallback *)

Section CacheAndFallback.
Context `{Stdlib} `{Backend} {descr : Type}.
Implicit Types (w : world) (pdf_bytes : list Byte.byte) (text : string).
Implicit Types (schema : gmap string descr).

#[local] Existing Instance M_ret.
#[local] Existing Instance M_bind.

Lemma calls_since_same w : calls_since w w = [].
Proof. unfold calls_since. by rewrite drop_all. Qed.

Lemma no_ocr_in_reads pdf_bytes (doc : list page) :
  existsb is_ocr_call (Open pdf_bytes :: map GetText doc) = false.
Proof. cbn. by induction doc. Qed.

Lemma ocr_after_reads pdf_bytes (doc : list page) tail :
  existsb is_ocr_call
    (Open pdf_bytes :: map GetText doc ++ Rasterize pdf_bytes 200 :: tail) = true.
Proof. cbn. induction doc; [done|]. by cbn. Qed.

Lemma page_texts_unique (doc : list page) ts ts' :
  page_texts doc ts → page_texts doc ts' → ts = ts'.
Proof.
  intros Hts. revert ts'. induction Hts as [|p t doc ts Hp _ IH]; intros ts' Hts'.
  - by inversion Hts'.
  - inversion Hts' as [|? t' ? ts'' Hp' Hrest]; subst. f_equal; [congruence|].
    by apply IH.
Qed.

Lemma page_texts_all_read (doc1 : list page) p doc2 ts e :
  get_text p = inl e → ¬ page_texts (doc1 ++ p :: doc2) ts.
Proof.
  intros Hp (k1 & k2 & _ & Hrest & _)%Forall2_app_inv_l.
  inversion Hrest; subst. congruence.
Qed.

(** With a blank embedded text the document is rasterised, whatever comes
    of it. *)
Lemma extraction_blank_calls pdf_bytes doc ts w :
  fitz_open pdf_bytes = inr doc → page_texts doc ts →
  strip_is_empty (join ts) = true →
  ∃ r tail,
    extraction pdf_bytes w
    = (r, logged w (Open pdf_bytes :: map GetText doc
                    ++ Rasterize pdf_bytes 200 :: tail)).
Proof.
  intros Hopen Hts Hblank. unfold extraction.
  rewrite bind_eq, invoke_eq, Hopen, bind_eq, (read_pages_ok _ ts) by done.
  change ("" +:+ join ts) with (join ts).
  rewrite Hblank, bind_eq, invoke_eq.
  destruct (convert_from_bytes pdf_bytes 200) as [e|images].
  - exists (inl e), []. by rewrite !logged_logged.
  - destruct (ocr_pages_logged images (join ts)
                (logged (logged (logged w [Open pdf_bytes]) (map GetText doc))
                        [Rasterize pdf_bytes 200])) as [cs Hcs].
    destruct (ocr_pages images (join ts) _) as [r w1]. cbn in Hcs. subst w1.
    exists r, cs. by rewrite !logged_logged, <- ?app_assoc.
Qed.

Lemma extract_text_result pdf_bytes w r w1 :
  cache w !! md5_hexdigest pdf_bytes = None →
  extraction pdf_bytes w = (r, w1) →
  fst (extract_text_from_pdf_bytes pdf_bytes w) = inr (text_of_outcome r).
Proof. intros Hmiss Hex. by rewrite extract_text_miss, Hex. Qed.

(** C3, as the code has it. On a cache hit the cached text is returned and
    no library is called, whatever the document holds. On a miss,
    rasterisation and OCR are invoked exactly when the document opens,
    every page yields its text and the concatenated embedded text is blank.
    A text that is not blank is returned as it is, after the opening and
    one read per page. With a blank text the document is rasterised once at
    200 DPI and the images are recognised with ["por+eng"] in page order,
    up to the first failure: when all succeed the text returned is the
    (blank) embedded text followed by the recognised texts in page order;
    when rasterisation or a recognition fails nothing is called after it
    and the error-marked text is returned. *)
Theorem ocr_only_for_blank_text pdf_bytes w :
  let out := extract_text_from_pdf_bytes pdf_bytes w in
  let made := calls_since w (snd out) in
  (∀ text,
     cache w !! md5_hexdigest pdf_bytes = Some text →
     out = (inr text, w) ∧ made = [])
  ∧ (cache w !! md5_hexdigest pdf_bytes = None →
     (existsb is_ocr_call made = true
      ↔ ∃ doc ts, fitz_open pdf_bytes = inr doc ∧ page_texts doc ts
                  ∧ strip_is_empty (join ts) = true)
     ∧ ∀ doc ts,
         fitz_open pdf_bytes = inr doc → page_texts doc ts →
         (strip_is_empty (join ts) = false →
          fst out = inr (join ts)
          ∧ made = Open pdf_bytes :: map GetText doc)
         ∧ (strip_is_empty (join ts) = true →
            (∀ e,
               convert_from_bytes pdf_bytes 200 = inl e →
               fst out = inr ("__ERROR__ " +:+ e)
               ∧ made = Open pdf_bytes :: map GetText doc
                        ++ [Rasterize pdf_bytes 200])
            ∧ (∀ images os,
                 convert_from_bytes pdf_bytes 200 = inr images →
                 ocr_texts images os →
                 fst out = inr (join ts +:+ join os)
                 ∧ made = Open pdf_bytes :: map GetText doc
                          ++ Rasterize pdf_bytes 200
                             :: map (fun img => Ocr img "por+eng") images)
            ∧ (∀ images1 img images2 os e,
                 convert_from_bytes pdf_bytes 200 = inr (images1 ++ img :: images2) →
                 ocr_texts images1 os →
                 image_to_string img "por+eng" = inl e →
                 fst out = inr ("__ERROR__ " +:+ e)
                 ∧ made = Open pdf_bytes :: map GetText doc
                          ++ Rasterize pdf_bytes 200
                             :: map (fun i => Ocr i "por+eng") (images1 ++ [img])))).
Proof.
  intros out made. subst made out. split.
  { intros text Hhit. rewrite (extract_text_hit _ _ text) by done.
    split; [done | apply calls_since_same]. }
  intros Hmiss.
  assert (Hrun : ∀ r cs,
            extraction pdf_bytes w = (r, logged w cs) →
            fst (extract_text_from_pdf_bytes pdf_bytes w) = inr (text_of_outcome r)
            ∧ calls_since w (snd (extract_text_from_pdf_bytes pdf_bytes w)) = cs).
  { intros r cs Hex. split.
    - by apply (extract_text_result _ _ r (logged w cs)).
    - by apply (extract_text_calls _ _ r). }
  split.
  - split.
    + intros Hocr.
      destruct (fitz_open pdf_bytes) as [e|doc] eqn:Hopen.
      { exfalso. destruct (Hrun (inl e) [Open pdf_bytes]) as [_ Hcs].
        - unfold extraction. by rewrite bind_eq, invoke_eq, Hopen.
        - by rewrite Hcs in Hocr. }
      destruct (read_pages_cases doc)
        as [[ts Hts]|(doc1 & p & doc2 & ts & e & -> & Hts & Hp)].
      * destruct (strip_is_empty (join ts)) eqn:Hblank; [by exists doc, ts|].
        exfalso.
        destruct (Hrun (inr (join ts)) (Open pdf_bytes :: map GetText doc))
          as [_ Hcs]; [by apply extraction_embedded|].
        by rewrite Hcs, no_ocr_in_reads in Hocr.
      * exfalso.
        destruct (Hrun (inl e) (Open pdf_bytes :: map GetText (doc1 ++ [p])))
          as [_ Hcs].
        { unfold extraction. rewrite bind_eq, invoke_eq, Hopen.
          rewrite bind_eq, (read_pages_fail _ _ _ ts e) by done.
          by rewrite logged_logged. }
        by rewrite Hcs, no_ocr_in_reads in Hocr.
    + intros (doc & ts & Hopen & Hts & Hblank).
      destruct (extraction_blank_calls pdf_bytes doc ts w Hopen Hts Hblank)
        as (r & tail & Hex).
      destruct (Hrun _ _ Hex) as [_ ->]. apply ocr_after_reads.
  - intros doc ts Hopen Hts. split; [|intros Hblank; split_and!].
    + intros Hblank. apply (Hrun (inr (join ts))). by apply extraction_embedded.
    + intros e Hconv. apply (Hrun (inl e)).
      unfold extraction. rewrite bind_eq, invoke_eq, Hopen.
      rewrite bind_eq, (read_pages_ok _ ts) by done.
      change ("" +:+ join ts) with (join ts).
      rewrite Hblank, bind_eq, invoke_eq, Hconv, !logged_logged.
      by rewrite <- ?app_assoc.
    + intros images os Hconv Hos. apply (Hrun (inr (join ts +:+ join os))).
      by apply extraction_ocr.
    + intros images1 img images2 os e Hconv Hos Himg. apply (Hrun (inl e)).
      unfold extraction. rewrite bind_eq, invoke_eq, Hopen.
      rewrite bind_eq, (read_pages_ok _ ts) by done.
      change ("" +:+ join ts) with (join ts).
      rewrite Hblank, bind_eq, invoke_eq, Hconv.
      rewrite (ocr_pages_fail _ _ _ os e) by done.
      rewrite !logged_logged. by rewrite <- ?app_assoc.
Qed.

(** C6. The text is served from the cache: whatever text is stored under
    the fingerprint of the bytes is what a call returns, with no library
    call and the world left as it is. A call that finds nothing under the
    fingerprint stores there the text it computes, be it the text of the
    document or the error-marked text of a failure, and changes no other
    entry. So once a call has returned [text], the cache holds it under the
    fingerprint, it stays there through any further requests, and every
    later call for the same bytes returns it from there; inside [process],
    whatever the label and the schema, no library call is made and the
    cache is not written. *)
Theorem cached_text_is_replayed pdf_bytes w :
  let key := md5_hexdigest pdf_bytes in
  (∀ text,
     cache w !! key = Some text →
     extract_text_from_pdf_bytes pdf_bytes w = (inr text, w))
  ∧ (cache w !! key = None →
     ∃ r w1,
       extraction pdf_bytes w = (r, w1)
       ∧ fst (extract_text_from_pdf_bytes pdf_bytes w) = inr (text_of_outcome r)
       ∧ cache (snd (extract_text_from_pdf_bytes pdf_bytes w))
         = <[key := text_of_outcome r]> (cache w)
       ∧ ∀ e, engine_fails pdf_bytes e → text_of_outcome r = "__ERROR__ " +:+ e)
  ∧ (∀ text w1 (rs : list (request (descr:=descr))),
       extract_text_from_pdf_bytes pdf_bytes w = (inr text, w1) →
       let w2 := serve_all rs w1 in
       cache w1 !! key = Some text
       ∧ cache w2 !! key = Some text
       ∧ extract_text_from_pdf_bytes pdf_bytes w2 = (inr text, w2)
       ∧ ∀ label schema pdf_b64,
           b64decode pdf_b64 = inr pdf_bytes →
           let w3 := snd (process label schema pdf_b64 w2) in
           calls w3 = calls w2 ∧ cache w3 = cache w2).
Proof.
  intros key. subst key. split_and!.
  - intros text Hhit. by apply extract_text_hit.
  - intros Hmiss. destruct (extraction pdf_bytes w) as [r w1] eqn:Hex.
    exists r, w1. split; [done|]. rewrite extract_text_miss, Hex by done.
    split; [done|]. split.
    + cbn [snd cache]. destruct (extraction_logged pdf_bytes w) as [cs Hcs].
      rewrite Hex in Hcs. cbn in Hcs. by subst w1.
    + intros e Hfails. destruct (extraction_fails pdf_bytes e w Hfails) as [cs Hcs].
      rewrite Hex in Hcs. by injection Hcs as -> _.
  - intros text w1 rs Hfirst w2.
    assert (Hstored : cache w1 !! md5_hexdigest pdf_bytes = Some text)
      by (by apply (extract_text_stores _ w)).
    assert (Hhit : cache w2 !! md5_hexdigest pdf_bytes = Some text)
      by (by apply serve_all_keeps).
    split; [done|]. split; [done|]. split; [by apply extract_text_hit|].
    intros label schema pdf_b64 Hdec w3. unfold w3.
    rewrite process_eq, Hdec. case_bool_decide; [done|].
    rewrite (extract_text_hit _ _ text) by done.
    destruct (contains "__ERROR__" text); done.
Qed.

End CacheAndFallback.

Module DemoCache.

#[local] Existing Instance demo_stdlib.
#[local] Existing Instance demo_backend.

(** A document with embedded text; a document of two blank pages; and a
    hit: the text found under the fingerprint is returned, although it is
    not the document's. *)
Lemma ocr_only_for_blank_text_witness :
  (fst (extract_text_from_pdf_bytes (list_byte_of_string "A B") fresh) = inr "A B"
   ∧ calls_since fresh (snd (extract_text_from_pdf_bytes (list_byte_of_string "A B") fresh))
     = Open (list_byte_of_string "A B") :: map GetText (list_byte_of_string "A B"))
  ∧ (fst (extract_text_from_pdf_bytes (list_byte_of_string "  ") fresh)
     = inr "  OCROCR"
     ∧ calls_since fresh (snd (extract_text_from_pdf_bytes (list_byte_of_string "  ") fresh))
       = Open (list_byte_of_string "  ")
         :: map GetText (list_byte_of_string "  ")
         ++ Rasterize (list_byte_of_string "  ") 200
            :: map (fun img => Ocr img "por+eng") (list_byte_of_string "  "))
  ∧ (fst (extract_text_from_pdf_bytes (list_byte_of_string " ~") fresh)
     = inr ("__ERROR__ " +:+ "tesseract failed")
     ∧ calls_since fresh (snd (extract_text_from_pdf_bytes (list_byte_of_string " ~") fresh))
       = Open (list_byte_of_string " ~")
         :: map GetText (list_byte_of_string " ~")
         ++ Rasterize (list_byte_of_string " ~") 200
            :: map (fun img => Ocr img "por+eng") (list_byte_of_string " ~")).
Proof.
  split; [|split].
  - refine (proj1 (proj2 (proj2 (@ocr_only_for_blank_text demo_stdlib demo_backend
                     (list_byte_of_string "A B") fresh) _)
                     (list_byte_of_string "A B") ["A"; " "; "B"] _ _) _);
      [reflexivity | reflexivity | repeat constructor | reflexivity].
  - refine (proj1 (proj2 (proj2 (proj2 (proj2 (@ocr_only_for_blank_text
                     demo_stdlib demo_backend (list_byte_of_string "  ") fresh) _)
                     (list_byte_of_string "  ") [" "; " "] _ _) _))
              (list_byte_of_string "  ") ["OCR"; "OCR"] _ _);
      [reflexivity | reflexivity | repeat constructor | reflexivity
       | reflexivity | repeat constructor].
  - refine (proj2 (proj2 (proj2 (proj2 (proj2 (@ocr_only_for_blank_text
                     demo_stdlib demo_backend (list_byte_of_string " ~") fresh) _)
                     (list_byte_of_string " ~") [" "; " "] _ _) _))
              (list_byte_of_string " ") Byte.x7e [] ["OCR"]
              "tesseract failed" _ _ _);
      [reflexivity | reflexivity | repeat constructor | reflexivity
       | reflexivity | repeat constructor | reflexivity].
Defined.

Lemma cached_text_is_replayed_witness :
  let pdf_bytes := list_byte_of_string "AB" in
  let planted := World {[ md5_hexdigest pdf_bytes := "another text" ]} None [] in
  let broken := list_byte_of_string "#1" in
  let w1 := snd (extract_text_from_pdf_bytes broken fresh) in
  let w2 := serve_all [ Process "tela" tela_schema "1.000,00";
                        ExtractText (list_byte_of_string "  ") ] w1 in
  extract_text_from_pdf_bytes pdf_bytes planted = (inr "another text", planted)
  ∧ cache w1 !! md5_hexdigest broken = Some "__ERROR__ cannot open broken document"
  ∧ cache w2 !! md5_hexdigest broken = Some "__ERROR__ cannot open broken document"
  ∧ extract_text_from_pdf_bytes broken w2
    = (inr "__ERROR__ cannot open broken document", w2).
Proof.
  intros pdf_bytes planted broken w1 w2. split.
  - apply (proj1 (@cached_text_is_replayed demo_stdlib demo_backend string
                    pdf_bytes planted) "another text").
    vm_compute. reflexivity.
  - pose proof (proj2 (proj2 (@cached_text_is_replayed demo_stdlib demo_backend
                  string broken fresh))
                  "__ERROR__ cannot open broken document" w1
                  [ Process "tela" tela_schema "1.000,00";
                    ExtractText (list_byte_of_string "  ") ]) as X.
    cbv zeta in X. destruct X as (X1 & X2 & X3 & _); [vm_compute; reflexivity|].
    split; [exact X1|]. split; [exact X2 | exact X3].
Defined.

End DemoCache.

(** ** The two rule sets *)

Section RuleSets.
Import ReSpec.
Import PyFloat.
Context `{Stdlib} {descr : Type}.
Implicit Types (schema : gmap string descr) (text : string).

(** C8, as the code has it. In the identity branch ["nome"] is the
    leftmost name of the normalised text and, of the names that start at
    that place, the longest; a name is one token of three or more uppercase
    letters followed by at most three further tokens of two or more
    uppercase letters, each after a single space, with a word boundary on
    both sides. ["numero_oab"] is the leftmost standalone number: four to
    six digits with a word boundary on both sides. Each is [None] exactly
    when the text holds no name, respectively no standalone number. *)
Theorem identity_fields text schema :
  is_Some (schema !! "numero_oab") →
  let l := list_ascii_of_string (normalize_text text) in
  let fs := extract_fields_from_text_generic text schema in
  match fs !! "nome" with
  | Some (Some w) =>
      ∃ a k, list_ascii_of_string w = slice l a k
             ∧ name_at l a k
             ∧ (∀ a' k', a' < a → ¬ name_at l a' k')
             ∧ (∀ k', name_at l a k' → k' ≤ k)
  | Some None => ∀ a k, ¬ name_at l a k
  | None => False
  end
  ∧ match fs !! "numero_oab" with
    | Some (Some w) =>
        let n := length (list_ascii_of_string w) in
        ∃ a, number_at l a n
             ∧ list_ascii_of_string w = slice l a (a + n)
             ∧ ∀ a' n', a' < a → ¬ number_at l a' n'
    | Some None => ∀ a n, ¬ number_at l a n
    | None => False
    end.
Proof.
  intros Hoab l fs. subst fs. rewrite identity_branch by done.
  rewrite lookup_insert_ne, !lookup_insert_eq by done.
  unfold Re.search. fold l. split.
  - destruct productive_nome as [Hprod Hmin].
    destruct (search_span l re_nome) as [[a b]|] eqn:Hs.
    + apply search_span_some in Hs as (Hab & Hm & Hhead & Hleft); [|done].
      rewrite length_string_of. exists a, b. split; [done|].
      split; [by apply matches_nome|]. split.
      * intros a' k' Ha' Hn%matches_nome. by apply (Hleft a' k').
      * intros k' Hn%matches_nome. apply (ends_complete l _ _ _ Hprod) in Hn.
        by apply (desc_head (ends l re_nome a) b k' (desc_ends_nome l a)).
    + pose proof (proj1 (search_span_none l re_nome Hprod Hmin) Hs) as Hno.
      intros a k Hn%matches_nome. by apply (Hno a k).
  - destruct productive_numero as [Hprod Hmin].
    destruct (search_span l re_numero) as [[a b]|] eqn:Hs.
    + apply search_span_some in Hs as (Hab & Hm & _ & Hleft); [|done].
      apply matches_numero in Hm as (n & -> & Hnum).
      rewrite length_string_of, length_slice by lia.
      replace (a + n - a) with n by lia.
      exists a. split; [done|]. split; [done|].
      intros a' n' Ha' Hn'. apply (Hleft a' (a' + n') Ha').
      apply matches_numero. eauto.
    + pose proof (proj1 (search_span_none l re_numero Hprod Hmin) Hs) as Hno.
      intros a n Hn. apply (Hno a (a + n)). apply matches_numero. eauto.
Qed.

(** C4. In the ledger branch let [V] be the list the code gets from
    [re.findall] for the currency pattern on the normalised text. [V] holds
    the values in the Brazilian format (one to three digits, groups of a
    dot and three digits, a comma, two digits) met from left to right, each
    being the leftmost one that starts at or after the end of the one
    before, until none is left. Every element of [V] is converted: [float]
    accepts it, the result is its nearest double printed with two decimals,
    and while the integer part is below [2^46] that is the digits of the
    integer part without dots, a point and the two decimals.
    ["saldo_vencido"] is the converted first element of [V],
    ["saldo_a_vencer"] the converted second, ["total"] the converted last,
    each [None] when [V] has no such element; so a single value fills
    ["saldo_vencido"] and ["total"] and leaves ["saldo_a_vencer"] [None],
    and an empty [V] leaves all three [None]. *)
Theorem ledger_fields text schema :
  schema !! "numero_oab" = None → is_Some (schema !! "data_referencia") →
  let l := list_ascii_of_string (normalize_text text) in
  let V := Re.findall re_valor (normalize_text text) in
  let fs := extract_fields_from_text_generic text schema in
  (∃ spans,
     successive (valor_at l) 0 spans
     ∧ V = map (fun '(a, k) => string_of_list_ascii (slice l a k)) spans)
  ∧ (∀ v, v ∈ V →
       ∃ ip a b,
         v = ip +:+ String "," (String a (String b ""))
         ∧ grouped_digits ip ∧ Chars.is_digit a = true ∧ Chars.is_digit b = true
         ∧ normalize_money v
           = Some (format_2f
                     (round_binary64 false
                        (100 * digits_value ip + 10 * digit_val a + digit_val b)
                        100))
         ∧ (digits_value ip < 2 ^ 46 →
            normalize_money v
            = Some (decimal (digits_value ip) +:+ "." +:+ String a (String b ""))))%Z
  ∧ (fs !! "saldo_vencido" = Some (V !! 0 ≫= normalize_money)
     ∧ fs !! "saldo_a_vencer" = Some (V !! 1 ≫= normalize_money)
     ∧ fs !! "total" = Some (last V ≫= normalize_money))
  ∧ (∀ v, V = [v] →
       fs !! "saldo_vencido" = Some (normalize_money v)
       ∧ fs !! "saldo_a_vencer" = Some None
       ∧ fs !! "total" = Some (normalize_money v))
  ∧ (V = [] →
       fs !! "saldo_vencido" = Some None
       ∧ fs !! "saldo_a_vencer" = Some None
       ∧ fs !! "total" = Some None).
Proof.
  intros Hoab Hdata l V fs.
  assert (Hall : fs !! "saldo_vencido" = Some (V !! 0 ≫= normalize_money)
                 ∧ fs !! "saldo_a_vencer" = Some (V !! 1 ≫= normalize_money)
                 ∧ fs !! "total" = Some (last V ≫= normalize_money)).
  { unfold fs. rewrite ledger_branch by done. fold V.
    repeat split; by simplify_map_eq. }
  split_and!.
  - exists (findall_spans l re_valor (S (length l)) 0).
    split; [apply valor_spans_successive | reflexivity].
  - intros v Hv. apply findall_valor_shape in Hv.
    apply valor_shape_grouped in Hv as (ip & a & b & Hv & Hip & Ha & Hb).
    rewrite string_of_list_ascii_of_string in Hv. subst v.
    exists ip, a, b. rewrite normalize_money_accepts by done.
    split_and!; try done. intros Hsmall. f_equal. by apply format_cents_exact.
  - apply Hall.
  - apply Hall.
  - apply Hall.
  - destruct Hall as (H0 & H1 & H2). intros v Hv. by rewrite H0, H1, H2, Hv.
  - destruct Hall as (H0 & H1 & H2). intros Hv. by rewrite H0, H1, H2, Hv.
Qed.

End RuleSets.

Module DemoRules.
Import ReSpec.

#[local] Existing Instance demo_stdlib.

(** The example of the specification for the identity rules. *)
Lemma identity_fields_witness :
  let l := list_ascii_of_string (normalize_text "Joao da Silva 123456") in
  (∃ a k, list_ascii_of_string "JOAO DA SILVA" = slice l a k
          ∧ name_at l a k
          ∧ (∀ a' k', a' < a → ¬ name_at l a' k')
          ∧ (∀ k', name_at l a k' → k' ≤ k))
  ∧ (∃ a, number_at l a 6
          ∧ list_ascii_of_string "123456" = slice l a (a + 6)
          ∧ ∀ a' n', a' < a → ¬ number_at l a' n').
Proof.
  intros l.
  pose proof (identity_fields "Joao da Silva 123456" oab_schema
                ltac:(eexists; reflexivity)) as X.
  assert (Hnome : extract_fields_from_text_generic "Joao da Silva 123456" oab_schema
                  !! "nome" = Some (Some "JOAO DA SILVA"))
    by (vm_compute; reflexivity).
  assert (Hnum : extract_fields_from_text_generic "Joao da Silva 123456" oab_schema
                 !! "numero_oab" = Some (Some "123456"))
    by (vm_compute; reflexivity).
  cbn zeta in X. rewrite Hnome, Hnum in X. exact X.
Defined.

(** The examples of the specification for the ledger rules: two values,
    and a single one. *)
Lemma ledger_fields_witness :
  let two := extract_fields_from_text_generic
               "Ref. 01/03/2024 vencido 1.000,00 a vencer 500,50" tela_schema in
  let one := extract_fields_from_text_generic
               "Ref. 01/03/2024 saldo 250,00" tela_schema in
  (two !! "saldo_vencido" = Some (Some "1000.00")
   ∧ two !! "saldo_a_vencer" = Some (Some "500.50")
   ∧ two !! "total" = Some (Some "500.50"))
  ∧ (one !! "saldo_vencido" = Some (Some "250.00")
     ∧ one !! "saldo_a_vencer" = Some None
     ∧ one !! "total" = Some (Some "250.00")).
Proof.
  intros two one. split.
  - destruct (ledger_fields "Ref. 01/03/2024 vencido 1.000,00 a vencer 500,50"
                tela_schema) as (_ & _ & (H0 & H1 & H2) & _).
    + reflexivity.
    + eexists. reflexivity.
    + unfold two. rewrite H0, H1, H2. clear. vm_compute. repeat split; reflexivity.
  - destruct (ledger_fields "Ref. 01/03/2024 saldo 250,00" tela_schema)
      as (_ & _ & _ & Hone & _).
    + reflexivity.
    + eexists. reflexivity.
    + destruct (Hone "250,00") as (H0 & H1 & H2); [vm_compute; reflexivity|].
      unfold one. rewrite H0, H1, H2. clear. vm_compute. repeat split; reflexivity.
Defined.

End DemoRules.
